(** * ts-postgres: frame reassembly, dispatch and result delivery

    A shallow embedding of [src/client.ts] (the socket handlers,
    [Client.connect], [Client.end], [Client.execute], [Client.on],
    [Client.flush], [Client.receive], [Client.parseError]) and of
    [src/result.ts] ([ResultIterator], [makeResult]), with the properties
    the specification states about them and further properties of the
    code. *)

From Stdlib Require Import ZArith List Lia Bool String Arith.
From Stdlib Require DecimalN.
Import ListNotations.
Open Scope Z_scope.

(** ** Node.js [Buffer] primitives

    A [Buffer] is a sequence of bytes, each an integer in [0, 256).  Indices
    and lengths are JavaScript numbers; they are integers here and may be
    negative where the source computes them from signed wire fields. *)

Module Buf.

Definition Buffer := list Z.

Definition len (b : Buffer) : Z := Z.of_nat (List.length b).

(** [buffer[i]]: the unsigned byte, [None] standing for [undefined]. *)
Definition get (b : Buffer) (i : Z) : option Z :=
  if i <? 0 then None else nth_error b (Z.to_nat i).

(** [buffer.readInt8(i)]; [None] is the [RangeError] of an index out of
    range. *)
Definition readInt8 (b : Buffer) (i : Z) : option Z :=
  match get b i with
  | Some x => Some (if 128 <=? x then x - 256 else x)
  | None => None
  end.

(** [buffer.readInt16BE(i)], signed. *)
Definition readInt16BE (b : Buffer) (i : Z) : option Z :=
  match get b i, get b (i + 1) with
  | Some b0, Some b1 =>
      let u := b0 * 256 + b1 in
      Some (if 32768 <=? u then u - 65536 else u)
  | _, _ => None
  end.

(** [buffer.readInt32BE(i)], signed. *)
Definition readInt32BE (b : Buffer) (i : Z) : option Z :=
  match get b i, get b (i + 1), get b (i + 2), get b (i + 3) with
  | Some b0, Some b1, Some b2, Some b3 =>
      let u := ((b0 * 256 + b1) * 256 + b2) * 256 + b3 in
      Some (if 2147483648 <=? u then u - 4294967296 else u)
  | _, _, _, _ => None
  end.

(** Position of the first zero byte of a list. *)
Fixpoint find0 (l : list Z) : option nat :=
  match l with
  | [] => None
  | x :: r => if x =? 0 then Some O
              else match find0 r with
                   | Some k => Some (S k)
                   | None => None
                   end
  end.

(** [buffer.indexOf('\0', from)] for the non-negative [from] the callers
    pass: the index of the first zero byte at or after [from], or [-1]. *)
Definition indexOf0 (b : Buffer) (from : Z) : Z :=
  match find0 (skipn (Z.to_nat from) b) with
  | Some k => from + Z.of_nat k
  | None => -1
  end.

(** How [slice] clamps an index: a negative one counts from the end. *)
Definition clamp (b : Buffer) (i : Z) : Z :=
  if i <? 0 then Z.max 0 (len b + i) else Z.min i (len b).

(** [buffer.slice(s, e)]. *)
Definition slice (b : Buffer) (s e : Z) : Buffer :=
  let s' := clamp b s in
  let e' := clamp b e in
  firstn (Z.to_nat (e' - s')) (skipn (Z.to_nat s') b).

(** [source.copy(target, targetStart, sourceStart, sourceEnd)]: the bytes
    [source[sourceStart, sourceEnd)] overwrite [target] from [targetStart],
    as many as fit.  [None] is the [RangeError] of a negative position. *)
Definition copy (source target : Buffer) (targetStart sourceStart sourceEnd : Z)
  : option Buffer :=
  if (targetStart <? 0) || (sourceStart <? 0) || (sourceEnd <? 0) then None
  else
    let room := Z.to_nat (len target - targetStart) in
    let src := firstn room (slice source sourceStart sourceEnd) in
    Some (firstn (Z.to_nat targetStart) target ++ src
            ++ skipn (Z.to_nat targetStart + List.length src) target).

(** [Buffer.allocUnsafe(n)]: [n] bytes of unspecified content ([junk]);
    [None] is the [RangeError] of a negative size. *)
Definition allocUnsafe (junk : Z) (n : Z) : option Buffer :=
  if n <? 0 then None else Some (repeat junk (Z.to_nat n)).

End Buf.

Import Buf.

(** A decoded string.  [Buffer.toString()] is the UTF-8 decoder; it is kept
    abstract as the byte sequence itself, which is empty exactly when the
    decoded string is. *)
Definition Str := list Z.

(** JavaScript truthiness of a string that may be [null]. *)
Definition truthy (s : option Str) : bool :=
  match s with
  | Some (_ :: _) => true
  | _ => false
  end.

(** ** [Client.parseError] *)

Record DatabaseError := mkError {
  level : Str;
  code : Str;
  message : Str
}.

Inductive Res (A : Type) : Type :=
| Ok (a : A)
| Throw (e : string)
| OutOfFuel.
Arguments Ok {A} a.
Arguments Throw {A} e.
Arguments OutOfFuel {A}.

(** The three locals [level], [code], [message] of [parseError]. *)
Definition Fields := (option Str * option Str * option Str)%type.

(** The body of the [switch (buffer[offset])]. *)
Definition set_field (tag : option Z) (value : Str) (acc : Fields) : Fields :=
  let '(lv, cd, msg) := acc in
  match tag with
  | Some 86 (* 0x56 'V' *) => (Some value, cd, msg)
  | Some 67 (* 0x43 'C' *) => (lv, Some value, msg)
  | Some 77 (* 0x4d 'M' *) => (lv, cd, Some value)
  | _ => acc
  end.

(** The [while (offset < length)] loop; [None] when the fuel runs out. *)
Fixpoint parse_loop (fuel : nat) (buffer : Buffer) (offset : Z) (acc : Fields)
  : option Fields :=
  match fuel with
  | O => None
  | S fuel' =>
      if offset <? len buffer then
        let next := indexOf0 buffer offset in
        if next <? 0 then Some acc
        else
          let value := slice buffer (offset + 1) next in
          parse_loop fuel' buffer (next + 1)
            (set_field (get buffer offset) value acc)
      else Some acc
  end.

Definition parse_error_message : string := "Unable to parse error message.".

Definition parseError (buffer : Buffer) : Res DatabaseError :=
  match parse_loop (S (List.length buffer)) buffer 0 (None, None, None) with
  | None => OutOfFuel
  | Some (lv, cd, msg) =>
      if truthy lv && truthy cd && truthy msg then
        match lv, cd, msg with
        | Some l, Some c, Some m => Ok (mkError l c m)
        | _, _, _ => Throw parse_error_message
        end
      else Throw parse_error_message
  end.

(** The field list of a payload as the specification words it: a sequence
    of (1-byte tag, null-terminated string) pairs; an unterminated last
    field is not a field.  A zero byte in tag position is a field of its
    own with an empty value (the list terminator of the wire format). *)
Fixpoint fields_from (b : list Z) (cur : option (Z * list Z))
  : list (Z * Str) :=
  match b with
  | [] => []
  | x :: r =>
      match cur with
      | None => if x =? 0 then (0, []) :: fields_from r None
                else fields_from r (Some (x, []))
      | Some (t, v) => if x =? 0 then (t, rev v) :: fields_from r None
                       else fields_from r (Some (t, x :: v))
      end
  end.

Definition fields (b : Buffer) : list (Z * Str) := fields_from b None.

(** The last value a tag carries in a field list. *)
Definition last_value (tag : Z) (fs : list (Z * Str)) : option Str :=
  fold_left (fun acc f => if fst f =? tag then Some (snd f) else acc) fs None.

Definition TAG_V : Z := 86.
Definition TAG_C : Z := 67.
Definition TAG_M : Z := 77.

(** The locals of [parseError] after a list of fields, and the last value
    of a tag from an initial one. *)
Definition apply_fields (fs : list (Z * Str)) (acc : Fields) : Fields :=
  fold_left (fun a f => set_field (Some (fst f)) (snd f) a) fs acc.

Definition last_value_from (tag : Z) (fs : list (Z * Str)) (init : option Str)
  : option Str :=
  fold_left (fun acc f => if fst f =? tag then Some (snd f) else acc) fs init.

(** ** Wire constants

    Modelled from the spec: the [Message] and [TransactionStatus] enums live
    in [protocol.ts], which is not part of the sources at hand.  The tags
    are the type bytes of the PostgreSQL frontend/backend protocol the
    specification describes; [Close] is the tag the server sends when a
    command has completed. *)
Module Message.
Definition Authenticate : Z := 82.          (* 'R' *)
Definition BackendKeyData : Z := 75.        (* 'K' *)
Definition BindComplete : Z := 50.          (* '2' *)
Definition Close : Z := 67.                 (* 'C' *)
Definition CloseComplete : Z := 51.         (* '3' *)
Definition Error : Z := 69.                 (* 'E' *)
Definition Notice : Z := 78.                (* 'N' *)
Definition NoData : Z := 110.               (* 'n' *)
Definition ParseComplete : Z := 49.         (* '1' *)
Definition ParameterDescription : Z := 116. (* 't' *)
Definition ParameterStatus : Z := 83.       (* 'S' *)
Definition ReadyForQuery : Z := 90.         (* 'Z' *)
Definition RowData : Z := 68.               (* 'D' *)
Definition RowDescription : Z := 84.        (* 'T' *)
End Message.

Module TransactionStatus.
Definition Idle : Z := 73.                  (* 'I' *)
End TransactionStatus.

(** ** The client *)

Section Dispatcher.

(** The collaborators of [protocol.ts] and [types.ts], which are not part of
    the sources at hand.  Modelled from the spec: the row and
    row-description readers decode the payload of the frame they are
    pointed at ([readRowData (buffer, start, description, encoding, types)]
    is given the bytes from [start] to the end of the frame); the
    configured [types] and the encoding are fixed inside them. *)
Context {RowDescription Row Value : Type}.
Variable readRowDescription : Buffer -> RowDescription.
Variable names : RowDescription -> list Str.
Variable readRowData : Buffer -> RowDescription -> Row.

(** [config.password || ''], the content of freshly allocated memory, and
    the answers of [writer.send()] (whether the socket asks to wait for a
    drain), in call order. *)
Variable password : Str.
Variable junk : Z.
Variable send_result : nat -> bool.

Record PreparedStatement := mkPS {
  ps_name : Str;
  ps_portal : Str;
  ps_args : list Value
}.

(** Callbacks are closures; each is known by an identity. *)
Definition RowDataHandler := nat.
Definition NameHandler := nat.
Definition Callback := nat.

(** Calls on the [Writer] collaborator. *)
Inductive WriterOp :=
| WPassword (pw : Str)
| WBind (name portal : Str) (args : list Value) (types : list Z)
| WExecute (portal : Str)
| WClose (name : Str) (kind : string)
| WSync
| WSend.

Inductive EventData :=
| EvConnect
| EvEnd
| EvParameter (name value : Str)
| EvError (e : DatabaseError)
| EvNotice (e : DatabaseError).

(** What the dispatcher does to the outside, in the order it does it:
    [handler(row)] and [handler(null)], [handler(description.names)],
    [events.X.emit], writer calls, and [logger.warn]. *)
Inductive Output :=
| Deliver (h : RowDataHandler) (row : option Row)
| Names (h : NameHandler) (ns : list Str)
| Emit (e : EventData)
| Writer (op : WriterOp)
| Warn (mtype : Z).

(** [this.events]: the callbacks registered on each typed event. *)
Record Events := mkEvents {
  ev_connect : list Callback;
  ev_end : list Callback;
  ev_parameter : list Callback;
  ev_error : list Callback;
  ev_notice : list Callback
}.

(** The fields of [Client] that [receive] reads and writes.  [sends] counts
    the calls of [writer.send()], [ticks] the callbacks handed to
    [process.nextTick] that have not run yet, and [out] is the trace. *)
Record Dispatch := mkDispatch {
  expect : Z;
  dataHandlers : list RowDataHandler;
  nameHandlers : list NameHandler;
  rowDescriptions : list RowDescription;
  preparedStatements : list PreparedStatement;
  activeDataHandlerInfo : option (RowDataHandler * RowDescription);
  ready : bool;
  mustDrain : bool;
  connecting : bool;
  processId : option Z;
  secretKey : option Z;
  transactionStatus : option Z;
  sends : nat;
  ticks : nat;
  out : list Output
}.

Record Client := mkClient {
  buffer : option Buffer;
  offset : Z;
  remaining : Z;
  events : Events;
  disp : Dispatch
}.

Definition set_expect (e : Z) (d : Dispatch) : Dispatch :=
  mkDispatch e (dataHandlers d) (nameHandlers d) (rowDescriptions d)
    (preparedStatements d) (activeDataHandlerInfo d) (ready d) (mustDrain d)
    (connecting d) (processId d) (secretKey d) (transactionStatus d)
    (sends d) (ticks d) (out d).

Definition set_dataHandlers (q : list RowDataHandler) (d : Dispatch) : Dispatch :=
  mkDispatch (expect d) q (nameHandlers d) (rowDescriptions d)
    (preparedStatements d) (activeDataHandlerInfo d) (ready d) (mustDrain d)
    (connecting d) (processId d) (secretKey d) (transactionStatus d)
    (sends d) (ticks d) (out d).

Definition set_nameHandlers (q : list NameHandler) (d : Dispatch) : Dispatch :=
  mkDispatch (expect d) (dataHandlers d) q (rowDescriptions d)
    (preparedStatements d) (activeDataHandlerInfo d) (ready d) (mustDrain d)
    (connecting d) (processId d) (secretKey d) (transactionStatus d)
    (sends d) (ticks d) (out d).

Definition set_rowDescriptions (q : list RowDescription) (d : Dispatch) : Dispatch :=
  mkDispatch (expect d) (dataHandlers d) (nameHandlers d) q
    (preparedStatements d) (activeDataHandlerInfo d) (ready d) (mustDrain d)
    (connecting d) (processId d) (secretKey d) (transactionStatus d)
    (sends d) (ticks d) (out d).

Definition set_preparedStatements (q : list PreparedStatement) (d : Dispatch)
  : Dispatch :=
  mkDispatch (expect d) (dataHandlers d) (nameHandlers d) (rowDescriptions d)
    q (activeDataHandlerInfo d) (ready d) (mustDrain d)
    (connecting d) (processId d) (secretKey d) (transactionStatus d)
    (sends d) (ticks d) (out d).

Definition set_active (a : option (RowDataHandler * RowDescription))
  (d : Dispatch) : Dispatch :=
  mkDispatch (expect d) (dataHandlers d) (nameHandlers d) (rowDescriptions d)
    (preparedStatements d) a (ready d) (mustDrain d)
    (connecting d) (processId d) (secretKey d) (transactionStatus d)
    (sends d) (ticks d) (out d).

Definition set_ready (b : bool) (d : Dispatch) : Dispatch :=
  mkDispatch (expect d) (dataHandlers d) (nameHandlers d) (rowDescriptions d)
    (preparedStatements d) (activeDataHandlerInfo d) b (mustDrain d)
    (connecting d) (processId d) (secretKey d) (transactionStatus d)
    (sends d) (ticks d) (out d).

Definition set_mustDrain (b : bool) (d : Dispatch) : Dispatch :=
  mkDispatch (expect d) (dataHandlers d) (nameHandlers d) (rowDescriptions d)
    (preparedStatements d) (activeDataHandlerInfo d) (ready d) b
    (connecting d) (processId d) (secretKey d) (transactionStatus d)
    (sends d) (ticks d) (out d).

Definition set_connecting (b : bool) (d : Dispatch) : Dispatch :=
  mkDispatch (expect d) (dataHandlers d) (nameHandlers d) (rowDescriptions d)
    (preparedStatements d) (activeDataHandlerInfo d) (ready d) (mustDrain d)
    b (processId d) (secretKey d) (transactionStatus d)
    (sends d) (ticks d) (out d).

Definition set_processId (pid : Z) (d : Dispatch) : Dispatch :=
  mkDispatch (expect d) (dataHandlers d) (nameHandlers d) (rowDescriptions d)
    (preparedStatements d) (activeDataHandlerInfo d) (ready d) (mustDrain d)
    (connecting d) (Some pid) (secretKey d) (transactionStatus d)
    (sends d) (ticks d) (out d).

Definition set_secretKey (key : Z) (d : Dispatch) : Dispatch :=
  mkDispatch (expect d) (dataHandlers d) (nameHandlers d) (rowDescriptions d)
    (preparedStatements d) (activeDataHandlerInfo d) (ready d) (mustDrain d)
    (connecting d) (processId d) (Some key) (transactionStatus d)
    (sends d) (ticks d) (out d).

Definition set_transactionStatus (s : Z) (d : Dispatch) : Dispatch :=
  mkDispatch (expect d) (dataHandlers d) (nameHandlers d) (rowDescriptions d)
    (preparedStatements d) (activeDataHandlerInfo d) (ready d) (mustDrain d)
    (connecting d) (processId d) (secretKey d) (Some s)
    (sends d) (ticks d) (out d).

Definition set_sends (n : nat) (d : Dispatch) : Dispatch :=
  mkDispatch (expect d) (dataHandlers d) (nameHandlers d) (rowDescriptions d)
    (preparedStatements d) (activeDataHandlerInfo d) (ready d) (mustDrain d)
    (connecting d) (processId d) (secretKey d) (transactionStatus d)
    n (ticks d) (out d).

Definition set_ticks (n : nat) (d : Dispatch) : Dispatch :=
  mkDispatch (expect d) (dataHandlers d) (nameHandlers d) (rowDescriptions d)
    (preparedStatements d) (activeDataHandlerInfo d) (ready d) (mustDrain d)
    (connecting d) (processId d) (secretKey d) (transactionStatus d)
    (sends d) n (out d).

(** Appends to the trace. *)
Definition emit (o : Output) (d : Dispatch) : Dispatch :=
  mkDispatch (expect d) (dataHandlers d) (nameHandlers d) (rowDescriptions d)
    (preparedStatements d) (activeDataHandlerInfo d) (ready d) (mustDrain d)
    (connecting d) (processId d) (secretKey d) (transactionStatus d)
    (sends d) (ticks d) (out d ++ [o]).

(** How a piece of the dispatcher ends: normally with a value and a state,
    with a thrown [Error], or with the model's fuel used up. *)
Inductive Step (A : Type) : Type :=
| Done (a : A) (d : Dispatch)
| Raise (e : string) (d : Dispatch)
| Stuck (d : Dispatch).
Arguments Done {A} a d.
Arguments Raise {A} e d.
Arguments Stuck {A} d.

Definition unexpected_data : string := "Unexpected data received.".
Definition description_expected : string := "Row description expected.".
Definition range_error : string := "RangeError".

(** [Client.flush]. *)
Definition flush (d : Dispatch) : Dispatch :=
  if negb (ready d) || mustDrain d then d
  else
    let d1 := set_sends (S (sends d)) (emit (Writer WSend) d) in
    if send_result (sends d) then set_mustDrain true d1 else d1.

(** ** [Client.receive] *)

Definition Info := option (RowDataHandler * RowDescription).

(** The [if (!info) { ... }] block of the fast path: with no active
    delivery context, shift a row-consumer; on "no data" hand it [null],
    otherwise shift a row description and make the pair active.  The value
    is the local [info]. *)
Definition activate (isNoData : bool) (info : Info) (d : Dispatch) : Step Info :=
  match info with
  | Some _ => Done info d
  | None =>
      match dataHandlers d with
      | [] => Raise unexpected_data d
      | handler :: rest =>
          let d1 := set_dataHandlers rest d in
          if isNoData then Done None (emit (Deliver handler None) d1)
          else
            match rowDescriptions d1 with
            | description :: descs =>
                let info' := Some (handler, description) in
                Done info' (set_active info' (set_rowDescriptions descs d1))
            | [] => Raise description_expected d1
            end
      end
  end.

(** How the fast path is left: by [return read], or by [break] towards the
    general path with the tag, the frame position and the bytes read. *)
Inductive FastExit :=
| FReturn (read : Z)
| FBreak (mtype frame read : Z).

(** One turn of the fast path's [while (true)], up to the test of the next
    header: it leaves the loop, or has consumed the frame and stands at
    the next one. *)
Inductive FrameExit :=
| Leave (e : FastExit)
| Consumed (frame read : Z) (info : Info).

Definition fast_frame (buffer : Buffer) (size : Z)
  (frame read : Z) (info : Info) (d : Dispatch) : Step FrameExit :=
  match readInt8 buffer frame with
  | None => Raise range_error d
  | Some mtype =>
      let isRowData := mtype =? Message.RowData in
      let isNoData := mtype =? Message.NoData in
      if negb isRowData && negb isNoData
      then Done (Leave (FBreak mtype frame read)) d
      else
        match activate isNoData info d with
        | Raise e d1 => Raise e d1
        | Stuck d1 => Stuck d1
        | Done info1 d1 =>
            match readInt32BE buffer (frame + 1) with
            | None => Raise range_error d1
            | Some n =>
                let bytes := n + 1 in
                match info1 with
                | Some (handler, description) =>
                    let total := bytes + read in
                    if size <? total
                    then Done (Leave (FReturn read)) (set_expect bytes d1)
                    else
                      let start := frame + 5 in
                      let row :=
                        readRowData (slice buffer start (frame + bytes))
                          description in
                      Done (Consumed (frame + bytes) (read + bytes) info1)
                        (emit (Deliver handler (Some row)) d1)
                | None =>
                    Done (Consumed (frame + bytes) (read + bytes) info1) d1
                end
            end
        end
  end.

(** The [while (true)] loop of the fast path. *)
Fixpoint fast_path (fuel : nat) (buffer : Buffer) (size : Z)
  (frame read : Z) (info : Info) (d : Dispatch) : Step FastExit :=
  match fuel with
  | O => Stuck d
  | S fuel' =>
      match fast_frame buffer size frame read info d with
      | Raise e d1 => Raise e d1
      | Stuck d1 => Stuck d1
      | Done (Leave e) d1 => Done e d1
      | Done (Consumed frame' read' info1) d2 =>
          if size <? frame' + 5
          then Done (FReturn read') (set_expect 5 d2)
          else fast_path fuel' buffer size frame' read' info1 d2
      end
  end.

(** The [for] loop of the parameter-description case: [n] type identifiers
    of four bytes each from [pos]. *)
Fixpoint read_types (buffer : Buffer) (pos : Z) (n : nat) : option (list Z) :=
  match n with
  | O => Some []
  | S n' =>
      match readInt32BE buffer pos with
      | None => None
      | Some t =>
          match read_types buffer (pos + 4) n' with
          | None => None
          | Some ts => Some (t :: ts)
          end
      end
  end.

(** The [switch (mtype as Message)] of the general path, on the frame whose
    payload is [buffer[start, start + length)]. *)
Definition dispatch (mtype : Z) (buffer : Buffer) (start length : Z)
  (d : Dispatch) : Step unit :=
  if mtype =? Message.Authenticate then
    match readInt32BE buffer start with
    | None => Raise range_error d
    | Some 0 =>
        Done tt (set_ticks (S (ticks d))
                   (set_connecting false
                      (set_transactionStatus TransactionStatus.Idle d)))
    | Some 3 => Done tt (emit (Writer (WPassword password)) d)
    | Some _ => Done tt d
    end
  else if mtype =? Message.BackendKeyData then
    match readInt32BE buffer start with
    | None => Raise range_error d
    | Some pid =>
        let d1 := set_processId pid d in
        match readInt32BE buffer (start + 4) with
        | None => Raise range_error d1
        | Some key => Done tt (set_secretKey key d1)
        end
    end
  else if mtype =? Message.BindComplete then Done tt d
  else if mtype =? Message.Close then
    match activeDataHandlerInfo d with
    | Some (handler, _) =>
        Done tt (set_active None (emit (Deliver handler None) d))
    | None => Done tt d
    end
  else if mtype =? Message.CloseComplete then Done tt d
  else if mtype =? Message.Error then
    match parseError (slice buffer start (start + length)) with
    | Ok error => Done tt (emit (Emit (EvError error)) d)
    | Throw e => Raise e d
    | OutOfFuel => Stuck d
    end
  else if mtype =? Message.Notice then
    match parseError (slice buffer start (start + length)) with
    | Ok notice => Done tt (emit (Emit (EvNotice notice)) d)
    | Throw e => Raise e d
    | OutOfFuel => Stuck d
    end
  else if mtype =? Message.ParseComplete then Done tt d
  else if mtype =? Message.ParameterDescription then
    match readInt16BE buffer start with
    | None => Raise range_error d
    | Some length' =>
        match preparedStatements d with
        | [] => Done tt d
        | ps :: rest =>
            let d1 := set_preparedStatements rest d in
            if length' <? 0 then Raise range_error d1
            else
              match read_types buffer (start + 2) (Z.to_nat length') with
              | None => Raise range_error d1
              | Some types =>
                  let d2 := emit (Writer (WBind (ps_name ps) (ps_portal ps)
                                            (ps_args ps) types)) d1 in
                  let d3 := emit (Writer (WExecute (ps_portal ps))) d2 in
                  let d4 := emit (Writer (WClose (ps_name ps) "S")) d3 in
                  let d5 := match ps_portal ps with
                            | [] => d4
                            | _ :: _ => emit (Writer (WClose (ps_portal ps) "P")) d4
                            end in
                  Done tt (flush (emit (Writer WSync) d5))
              end
        end
    end
  else if mtype =? Message.ParameterStatus then
    let i := indexOf0 buffer start in
    let j := indexOf0 buffer (i + 1) in
    let name := slice buffer start i in
    let value := slice buffer (i + 1) j in
    Done tt (emit (Emit (EvParameter name value)) d)
  else if mtype =? Message.ReadyForQuery then
    match readInt8 buffer start with
    | None => Raise range_error d
    | Some status =>
        Done tt (flush (set_ready true (set_transactionStatus status d)))
    end
  else if mtype =? Message.RowDescription then
    let description := readRowDescription (slice buffer start (start + length)) in
    let d1 := set_rowDescriptions (rowDescriptions d ++ [description]) d in
    match nameHandlers d1 with
    | handler :: rest =>
        Done tt (emit (Names handler (names description))
                   (set_nameHandlers rest d1))
    | [] => Done tt d1
    end
  else Done tt (emit (Warn mtype) d).

(** The rest of a turn of the outer loop once the fast path is left: a
    [return] of the fast path ends [receive]; on a [break] the general path
    reads the length, waits for the whole frame or runs the switch, and
    goes on with the next turn ([continue]). *)
Definition general_path (continue : Z -> Dispatch -> Step Z)
  (buffer : Buffer) (size : Z) (fast : Step FastExit) : Step Z :=
  match fast with
  | Raise e d1 => Raise e d1
  | Stuck d1 => Stuck d1
  | Done (FReturn read1) d1 => Done read1 d1
  | Done (FBreak mtype frame1 read1) d1 =>
      match readInt32BE buffer (frame1 + 1) with
      | None => Raise range_error d1
      | Some n =>
          let length := n - 4 in
          let total := length + 5 in
          if size <? total + read1 then Done read1 (set_expect total d1)
          else
            let start := frame1 + 5 in
            match dispatch mtype buffer start length d1 with
            | Raise e d2 => Raise e d2
            | Stuck d2 => Stuck d2
            | Done _ d2 => continue (read1 + total) (set_expect 5 d2)
            end
      end
  end.

(** The outer [while (size >= this.expect + read)] loop. *)
Fixpoint receive_loop (fuel : nat) (buffer : Buffer) (offset size : Z)
  (read : Z) (d : Dispatch) : Step Z :=
  match fuel with
  | O => Stuck d
  | S fuel' =>
      if expect d + read <=? size then
        let frame := offset + read in
        general_path (receive_loop fuel' buffer offset size) buffer size
          (fast_path fuel' buffer size frame read (activeDataHandlerInfo d) d)
      else Done read d
  end.

(** [receive(buffer, offset, size)]: the number of bytes consumed.  Every
    turn of either loop that goes on has a frame behind it, so [size] turns
    and one more are all a terminating run can take. *)
Definition receive (buffer : Buffer) (offset size : Z) (d : Dispatch) : Step Z :=
  receive_loop (S (Z.to_nat size)) buffer offset size 0 d.

(** ** The socket's 'data' handler *)

(** The reassembly of the handler, up to the call of [receive]: the new
    values of [this.buffer] and [this.offset].  [None] is a [RangeError]
    thrown by [Buffer.allocUnsafe] or [copy]. *)
Definition reassemble (c : Client) (chunk : Buffer) : option (Buffer * Z) :=
  let length := len chunk in
  let remaining := remaining c in
  let size := length + remaining in
  match buffer c with
  | Some buf =>
      if remaining =? 0 then Some (chunk, 0)
      else
        let free := len buf - offset c - remaining in
        let tail := offset c + remaining in
        if free <? length then
          match allocUnsafe junk size with
          | None => None
          | Some newBuffer =>
              match copy buf newBuffer 0 (offset c) tail with
              | None => None
              | Some newBuffer' =>
                  match copy chunk newBuffer' remaining 0 length with
                  | None => None
                  | Some buf' => Some (buf', 0)
                  end
              end
          end
        else
          match copy chunk buf tail 0 length with
          | None => None
          | Some buf' => Some (buf', offset c)
          end
  | None => Some (chunk, 0)
  end.

(** The unread region [buffer[offset, offset + remaining)] of a client. *)
Definition unread (c : Client) : Buffer :=
  match buffer c with
  | Some buf => slice buf (offset c) (offset c + remaining c)
  | None => []
  end.

(** The bookkeeping of a client describes a region of its buffer. *)
Definition wf_region (c : Client) : Prop :=
  match buffer c with
  | Some buf =>
      0 <= offset c /\ 0 <= remaining c /\ offset c + remaining c <= len buf
  | None => remaining c = 0
  end.


(** A client between two 'data' events: its buffer ends with the unread
    region, which is too short for what the dispatcher waits for. *)
Definition coherent (c : Client) : Prop :=
  match buffer c with
  | Some buf => len buf = offset c + remaining c
  | None => remaining c = 0
  end /\
  remaining c < expect (disp c).

(** A client that has not connected yet. *)
Definition init : Client :=
  mkClient None 0 0 (mkEvents [] [] [] [] [])
    (mkDispatch 5 [] [] [] [] None false false false None None None O O []).

(** How a 'data' event ends: with the next client, or with an [Error]
    thrown out of the handler (in which the bookkeeping after [receive] is
    not reached), or with the fuel used up. *)
Inductive Outcome :=
| Next (c : Client)
| Thrown (e : string) (c : Client)
| NoFuel (c : Client).

Definition on_data (c : Client) (chunk : Buffer) : Outcome :=
  let size := len chunk + remaining c in
  match reassemble c chunk with
  | None => Thrown range_error c
  | Some (buf, off) =>
      match receive buf off size (disp c) with
      | Done read d =>
          Next (mkClient (Some buf) (off + read) (size - read) (events c) d)
      | Raise e d =>
          Thrown e (mkClient (Some buf) off (remaining c) (events c) d)
      | Stuck d =>
          NoFuel (mkClient (Some buf) off (remaining c) (events c) d)
      end
  end.

(** The callbacks given to [process.nextTick] run once the handler has
    returned: each emits the connect event. *)
Definition run_ticks (d : Dispatch) : Dispatch :=
  mkDispatch (expect d) (dataHandlers d) (nameHandlers d) (rowDescriptions d)
    (preparedStatements d) (activeDataHandlerInfo d) (ready d) (mustDrain d)
    (connecting d) (processId d) (secretKey d) (transactionStatus d)
    (sends d) O (out d ++ repeat (Emit EvConnect) (ticks d)).

Definition tick (c : Client) : Client :=
  mkClient (buffer c) (offset c) (remaining c) (events c) (run_ticks (disp c)).

(** One 'data' event and the ticks it leaves behind. *)
Definition feed_chunk (c : Client) (chunk : Buffer) : Outcome :=
  match on_data c chunk with
  | Next c' => Next (tick c')
  | other => other
  end.

(** A sequence of 'data' events; an [Error] thrown out of a handler ends
    the run. *)
Fixpoint feed (c : Client) (chunks : list Buffer) : Outcome :=
  match chunks with
  | [] => Next c
  | chunk :: rest =>
      match feed_chunk c chunk with
      | Next c' => feed c' rest
      | other => other
      end
  end.

(** A client with one query issued and nothing received, and a client with
    two unread bytes in the middle of its buffer. *)
Definition one_query : Client :=
  mkClient None 0 0 (mkEvents [] [] [] [] [])
    (mkDispatch 5 [7%nat] [8%nat] [] [] None false false false None None None
       O O []).



(** ** [Client.on] and the typed events *)

(** [event.on(callback)] of the event library registers the callback. *)
Definition on (event : string) (callback : Callback) (c : Client) : Client :=
  let ev := events c in
  let with_events ev' :=
    mkClient (buffer c) (offset c) (remaining c) ev' (disp c) in
  if String.eqb event "connect" then
    with_events (mkEvents (ev_connect ev ++ [callback]) (ev_end ev)
                   (ev_parameter ev) (ev_error ev) (ev_notice ev))
  else if String.eqb event "end" then
    with_events (mkEvents (ev_connect ev) (ev_end ev ++ [callback])
                   (ev_parameter ev) (ev_error ev) (ev_notice ev))
  else if String.eqb event "error" then
    with_events (mkEvents (ev_connect ev) (ev_end ev)
                   (ev_parameter ev) (ev_error ev ++ [callback]) (ev_notice ev))
  else if String.eqb event "notice" then
    with_events (mkEvents (ev_connect ev) (ev_end ev)
                   (ev_parameter ev) (ev_error ev) (ev_notice ev ++ [callback]))
  else c.

(** [event.emit(data)] calls the callbacks registered on that event. *)
Definition listeners (ev : Events) (e : EventData) : list Callback :=
  match e with
  | EvConnect => ev_connect ev
  | EvEnd => ev_end ev
  | EvParameter _ _ => ev_parameter ev
  | EvError _ => ev_error ev
  | EvNotice _ => ev_notice ev
  end.

(** The callback invocations a trace stands for. *)
Definition invocations (ev : Events) (trace : list Output)
  : list (Callback * EventData) :=
  flat_map (fun o => match o with
                     | Emit e => map (fun cb => (cb, e)) (listeners ev e)
                     | _ => []
                     end) trace.

Definition client_of (o : Outcome) : Client :=
  match o with
  | Next c => c
  | Thrown _ c => c
  | NoFuel c => c
  end.

(** ** [ResultIterator] and [makeResult] ([result.ts]) *)

(** [container] is the [rows] array of [makeResult], which the iterator,
    [p.rows] and the resolved [Result] all share.  A subscriber is the
    [resolve] function of the promise a suspended [next()] awaits: it is
    kept as the state of that promise ([None] while pending), and known by
    its position in [subscribers].  [promise] is the settled value of the
    result promise: the names it was resolved with (its rows are the shared
    array). *)
Record ResultIterator := mkIter {
  container : list Row;
  subscribers : list (option bool);
  done : bool;
  rows_set : bool;
  names_field : option (list Str);
  promise : option (list Str)
}.

Record Result := mkResult {
  res_names : list Str;
  res_rows : list Row
}.

(** What awaiting the result gives, once it is resolved. *)
Definition awaited (p : ResultIterator) : option Result :=
  match promise p with
  | Some ns => Some (mkResult ns (container p))
  | None => None
  end.

(** Calling a [resolve] function settles a pending promise and leaves a
    settled one alone. *)
Definition settle (v : bool) (s : option bool) : option bool :=
  match s with
  | None => Some v
  | Some x => Some x
  end.

(** [ResultIterator.notify]. *)
Definition notify (v : bool) (p : ResultIterator) : ResultIterator :=
  mkIter (container p) (map (settle v) (subscribers p))
    (if v then true else done p) (rows_set p) (names_field p) (promise p).

(** The calls [notify] makes: one per subscriber, with the flag. *)
Definition notify_calls (v : bool) (p : ResultIterator) : list (nat * bool) :=
  map (fun k => (k, v)) (seq 0 (List.length (subscribers p))).

(** A fresh [makeResult]: no rows, nothing resolved; [finish] is set by the
    promise executor before [makeResult] returns. *)
Definition makeResult : ResultIterator :=
  mkIter [] [] false false None None.

(** [onData] of [makeResult]. *)
Definition onData (row : option Row) (p : ResultIterator) : ResultIterator :=
  match row with
  | None =>
      let names' := match names_field p with Some ns => ns | None => [] end in
      let p1 := mkIter (container p) (subscribers p) (done p) true
                  (names_field p)
                  (match promise p with
                   | Some r => Some r
                   | None => Some names'
                   end) in
      notify true p1
  | Some r =>
      notify false (mkIter (container p ++ [r]) (subscribers p) (done p)
                      (rows_set p) (names_field p) (promise p))
  end.

(** [onNames] of [makeResult]. *)
Definition onNames (ns : list Str) (p : ResultIterator) : ResultIterator :=
  mkIter (container p) (subscribers p) (done p) (rows_set p) (Some ns)
    (promise p).

(** The result stream of the query whose callbacks are the row-consumer
    [h] and the name-consumer [nh], after a trace. *)
Definition replay (h : RowDataHandler) (nh : NameHandler)
  (trace : list Output) (p : ResultIterator) : ResultIterator :=
  fold_left (fun p o =>
               match o with
               | Deliver h' row => if Nat.eqb h' h then onData row p else p
               | Names nh' ns => if Nat.eqb nh' nh then onNames ns p else p
               | _ => p
               end) trace p.

(** What a call of [next()] of the async iterator comes to. *)
Inductive IterResult :=
| IterValue (item : option Row)
| IterDone.

(** [next()] up to its [await]: it returns at once, with the iterator's
    next index, or suspends on a new subscriber. *)
Inductive NextStep :=
| Returned (r : IterResult) (i : nat)
| Suspended (k : nat).

Definition next (p : ResultIterator) (i : nat) : NextStep * ResultIterator :=
  if (List.length (container p) <=? i)%nat then
    if done p then (Returned IterDone i, p)
    else
      (Suspended (List.length (subscribers p)),
       mkIter (container p) (subscribers p ++ [None]) (done p) (rows_set p)
         (names_field p) (promise p))
  else (Returned (IterValue (nth_error (container p) i)) (S i), p).

(** [next()] after its [await], resumed with the value the subscriber was
    resolved with. *)
Definition resume (p : ResultIterator) (i : nat) (v : bool) : IterResult * nat :=
  if v then (IterDone, i) else (IterValue (nth_error (container p) i), S i).

(** How a consumer that pulls until the done signal ends: with the done
    signal, suspended on a subscriber, or with the model's fuel used up. *)
Inductive DrainEnd :=
| DrainDone
| DrainWaits
| DrainMore.

(** A consumer pulling until the done signal, on a stream nobody writes to
    meanwhile: the items it gets, and how it ends. *)
Fixpoint drain (fuel : nat) (p : ResultIterator) (i : nat)
  : list (option Row) * DrainEnd :=
  match fuel with
  | O => ([], DrainMore)
  | S fuel' =>
      match fst (next p i) with
      | Returned IterDone _ => ([], DrainDone)
      | Returned (IterValue item) i' =>
          let '(items, e) := drain fuel' p i' in (item :: items, e)
      | Suspended _ => ([], DrainWaits)
      end
  end.

(** The "no data" frame: its tag and the length 4 of an empty payload. *)
Definition no_data_frame : Buffer := [110; 0; 0; 0; 4].

(** ** The order of deliveries *)


(** The row-consumer of the active delivery context, if there is one. *)
Definition active_handler (d : Dispatch) : list RowDataHandler :=
  match activeDataHandlerInfo d with
  | Some (h, _) => [h]
  | None => []
  end.



(** The state a piece of the dispatcher ends in, however it ends. *)
Definition state_of {A : Type} (s : Step A) : Dispatch :=
  match s with
  | Done _ d => d
  | Raise _ d => d
  | Stuck d => d
  end.

(** The registration [execute] makes through [makeResult]:
    [this.dataHandlers.push(handler)] and [this.nameHandlers.push(handler)]
    with the query's two callbacks. *)
Definition register (h : RowDataHandler) (nh : NameHandler) (c : Client) : Client :=
  mkClient (buffer c) (offset c) (remaining c) (events c)
    (set_nameHandlers (nameHandlers (disp c) ++ [nh])
       (set_dataHandlers (dataHandlers (disp c) ++ [h]) (disp c))).

(** What happens to a connection: bytes arrive, or a query is issued. *)
Inductive Input :=
| Data (chunk : Buffer)
| Query (h : RowDataHandler) (nh : NameHandler).

Fixpoint run (c : Client) (inputs : list Input) : Outcome :=
  match inputs with
  | [] => Next c
  | Data chunk :: rest =>
      match feed_chunk c chunk with
      | Next c' => run c' rest
      | other => other
      end
  | Query h nh :: rest => run (register h nh c) rest
  end.

(** The row-consumers of the queries issued, in order. *)
Definition issued (inputs : list Input) : list RowDataHandler :=
  flat_map (fun i => match i with
                     | Query h _ => [h]
                     | Data _ => []
                     end) inputs.


(** ** Frames and streams *)

(** A frame: the type tag and the payload; on the wire the tag, the length
    of the payload plus the four bytes of the length itself, big-endian,
    then the payload. *)
Record Frame := mkFrame {
  tag : Z;
  payload : Buffer
}.

Definition be32 (n : Z) : Buffer :=
  [n / 16777216 mod 256; n / 65536 mod 256; n / 256 mod 256; n mod 256].

Definition encode_frame (f : Frame) : Buffer :=
  tag f :: be32 (4 + len (payload f)) ++ payload f.

Definition encode (fs : list Frame) : Buffer := flat_map encode_frame fs.

(** The payload holds two null-terminated strings. *)
Definition two_strings (b : Buffer) : bool :=
  match find0 b with
  | Some i =>
      match find0 (skipn (S i) b) with
      | Some _ => true
      | None => false
      end
  | None => false
  end.

(** A well-formed frame: an ASCII tag, a length that fits the signed
    32-bit field, and a payload as long as its type needs: the code of an
    authentication request, the two integers of the backend key, the count
    and the type identifiers of a parameter description, the two strings of
    a parameter status, the status byte of ready-for-query, and nothing for
    "no data". *)
Definition wf_frame (f : Frame) : bool :=
  (0 <=? tag f) && (tag f <? 128) && (len (payload f) + 4 <? 2147483648) &&
  (if tag f =? Message.Authenticate then 4 <=? len (payload f)
   else if tag f =? Message.BackendKeyData then 8 <=? len (payload f)
   else if tag f =? Message.NoData then len (payload f) =? 0
   else if tag f =? Message.ParameterDescription then
     match readInt16BE (payload f) 0 with
     | Some n => (0 <=? n) && (2 + 4 * n <=? len (payload f))
     | None => false
     end
   else if tag f =? Message.ParameterStatus then two_strings (payload f)
   else if tag f =? Message.ReadyForQuery then 1 <=? len (payload f)
   else true).

(** ** What a run shows *)

Definition is_connect (o : Output) : bool :=
  match o with
  | Emit EvConnect => true
  | _ => false
  end.

(** The trace without the connect events, which are emitted from
    [process.nextTick] callbacks, and the number of connect events. *)
Definition sync_output (trace : list Output) : list Output :=
  filter (fun o => negb (is_connect o)) trace.

Definition connects (trace : list Output) : nat :=
  List.length (filter is_connect trace).

(** A dispatcher state as seen from outside: the registries, the active
    context and the connection fields; the rows, names, events and writer
    calls in order; the connect events emitted or due.  [expect] is the
    dispatcher's own. *)
Definition normal (d : Dispatch) : Dispatch :=
  mkDispatch 0 (dataHandlers d) (nameHandlers d) (rowDescriptions d)
    (preparedStatements d) (activeDataHandlerInfo d) (ready d) (mustDrain d)
    (connecting d) (processId d) (secretKey d) (transactionStatus d)
    (sends d) (ticks d + connects (out d)) (sync_output (out d)).

(** Two states that look the same from outside. *)
Definition alike (d d' : Dispatch) : Prop := normal d = normal d'.

Inductive Observed :=
| Finished (d : Dispatch)
| Failed (e : string) (d : Dispatch)
| Diverged.

(** What a run shows: when it ends normally, the state as seen from
    outside; when a handler throws, the error and that state, the connect
    events left aside (those still due are never emitted). *)
Definition observe (o : Outcome) : Observed :=
  match o with
  | Next c => Finished (normal (disp c))
  | Thrown e c => Failed e (set_ticks O (normal (disp c)))
  | NoFuel _ => Diverged
  end.

(** ** The dispatcher frame by frame *)

Definition rowish (mtype : Z) : bool :=
  (mtype =? Message.RowData) || (mtype =? Message.NoData).

(** What the dispatcher does with one whole frame: on the fast path the
    activation and the delivery of the row, on the general path the switch
    and the reset of [expect]. *)
Definition step_frame (f : Frame) (d : Dispatch) : Step unit :=
  if rowish (tag f) then
    match activate (tag f =? Message.NoData) (activeDataHandlerInfo d) d with
    | Raise e d1 => Raise e d1
    | Stuck d1 => Stuck d1
    | Done (Some (handler, description)) d1 =>
        Done tt (emit (Deliver handler
                         (Some (readRowData (payload f) description))) d1)
    | Done None d1 => Done tt d1
    end
  else
    match dispatch (tag f) (payload f) 0 (len (payload f)) d with
    | Done _ d1 => Done tt (set_expect 5 d1)
    | other => other
    end.

Fixpoint run_frames (fs : list Frame) (d : Dispatch) : Step unit :=
  match fs with
  | [] => Done tt d
  | f :: rest =>
      match step_frame f d with
      | Done _ d1 => run_frames rest d1
      | other => other
      end
  end.

(** What the dispatcher does on seeing the header of a frame the rest of
    which has not arrived: for a row, the activation. *)
Definition peek (p : Buffer) (d : Dispatch) : Step unit :=
  match p with
  | t :: _ =>
      if (5 <=? len p) && rowish t then
        match activate (t =? Message.NoData) (activeDataHandlerInfo d) d with
        | Done _ d1 => Done tt d1
        | Raise e d1 => Raise e d1
        | Stuck d1 => Stuck d1
        end
      else Done tt d
  | [] => Done tt d
  end.

(** The scenario of the specification: a row description, three rows, and
    the command completion. *)
Definition scenario : list Frame :=
  [mkFrame 84 [0; 2; 105; 100; 0; 110; 0];
   mkFrame 68 [0; 2; 49; 97];
   mkFrame 68 [0; 2; 50; 98];
   mkFrame 68 [0; 2; 51; 99];
   mkFrame 67 [83; 69; 76; 0]].

(** The same ending with the state transformed. *)
Definition step_map {A : Type} (g : Dispatch -> Dispatch) (s : Step A) : Step A :=
  match s with
  | Done a d => Done a (g d)
  | Raise e d => Raise e (g d)
  | Stuck d => Stuck (g d)
  end.

Definition all_wf (fs : list Frame) : Prop :=
  Forall (fun f => wf_frame f = true) fs.

(** The first bytes of a well-formed frame, the frame not being whole. *)
Definition partial_frame (p : Buffer) : Prop :=
  p = [] \/
  exists f rest,
    wf_frame f = true /\ encode_frame f = p ++ rest /\ rest <> [].

(** The size of the frame whose header opens [p]. *)
Definition frame_size (p : Buffer) : Z :=
  match readInt32BE p 1 with
  | Some n => n + 1
  | None => 5
  end.

(** What the dispatcher is left with when the whole frames are consumed
    and [p] remains: short of a header it waits for one; with a header it
    has seen the frame's type and waits for the frame. *)
Definition finish (p : Buffer) (d : Dispatch) : Step unit :=
  if len p <? 5 then Done tt (set_expect 5 d)
  else
    match peek p d with
    | Done _ d1 => Done tt (set_expect (frame_size p) d1)
    | other => other
    end.

(** The dispatcher on whole frames followed by the beginning of one. *)
Definition tail_of (fs : list Frame) (p : Buffer) (d : Dispatch) : Step unit :=
  match run_frames fs d with
  | Done _ d1 => finish p d1
  | other => other
  end.

Definition with_read {A : Type} (r : Z) (s : Step A) : Step Z :=
  match s with
  | Done _ d => Done r d
  | Raise e d => Raise e d
  | Stuck d => Stuck d
  end.

(** The fast path on whole frames followed by the beginning of one, the
    header of the first being there. *)
Fixpoint fast_spec (fs : list Frame) (p : Buffer) (d : Dispatch) (pos : Z)
  : Step FastExit :=
  match fs with
  | [] =>
      match p with
      | t :: _ =>
          if rowish t then
            match peek p d with
            | Done _ d1 => Done (FReturn pos) (set_expect (frame_size p) d1)
            | Raise e d1 => Raise e d1
            | Stuck d1 => Stuck d1
            end
          else Done (FBreak t pos pos) d
      | [] => Stuck d
      end
  | f :: rest =>
      if rowish (tag f) then
        match step_frame f d with
        | Done _ d1 =>
            let pos' := pos + len (encode_frame f) in
            if len (encode rest ++ p) <? 5
            then Done (FReturn pos') (set_expect 5 d1)
            else fast_spec rest p d1 pos'
        | Raise e d1 => Raise e d1
        | Stuck d1 => Stuck d1
        end
      else Done (FBreak (tag f) pos pos) d
  end.

(** What the dispatcher waits for between two 'data' events, the unread
    bytes being [u]: a header, or the rest of the frame whose header it has
    seen, a row's delivery context being active by then. *)
Definition awaits (d : Dispatch) (u : Buffer) : Prop :=
  expect d = 5 \/
  (5 <= len u /\ expect d = frame_size u /\
   (forall t rest, u = t :: rest -> rowish t = true ->
      activeDataHandlerInfo d <> None)).

(** The two statements that the outer loop meets [tail_of], for a given
    list of whole frames in front of the buffer: for the rest of a turn
    once the fast path is left, and for the loop itself. *)
Definition general_meets_tail (fs : list Frame) : Prop :=
  forall (fuel : nat) (pre p : Buffer) (d : Dispatch),
    all_wf fs -> partial_frame p ->
    fs <> [] \/ 5 <= len p ->
    (List.length fs < fuel)%nat ->
    let buf := pre ++ encode fs ++ p in
    general_path (receive_loop fuel buf 0 (len buf)) buf (len buf)
      (fast_spec fs p d (len pre))
    = with_read (len pre + len (encode fs)) (tail_of fs p d).

Definition loop_meets_tail (fs : list Frame) : Prop :=
  forall (fuel : nat) (pre p : Buffer) (d : Dispatch),
    all_wf fs -> partial_frame p ->
    awaits d (encode fs ++ p) ->
    (1 <= fuel)%nat ->
    (expect d <= len (encode fs ++ p) -> (List.length fs + 2 <= fuel)%nat) ->
    let buf := pre ++ encode fs ++ p in
    receive_loop fuel buf 0 (len buf) (len pre) d
    = with_read (len pre + len (encode fs)) (tail_of fs p d).

(** [p] is nothing, or the first bytes of the first of the frames [fs], not
    all of them. *)
Definition head_prefix (p : Buffer) (fs : list Frame) : Prop :=
  p = [] \/
  exists f fs' rest,
    fs = f :: fs' /\ encode_frame f = p ++ rest /\ rest <> [].

(** The whole frames, then the header of the next seen. *)
Definition peeked (fs : list Frame) (p : Buffer) (d : Dispatch) : Step unit :=
  match run_frames fs d with
  | Done _ d1 => peek p d1
  | other => other
  end.

(** What a frame-by-frame run shows. *)
Definition observe_step (s : Step unit) : Observed :=
  match s with
  | Done _ d => Finished (normal d)
  | Raise e d => Failed e (set_ticks O (normal d))
  | Stuck _ => Diverged
  end.

(** Two answers in a row: a result set with a row description and no row,
    then one with a row description and one row; each with its parse and
    bind acknowledgements, its command completion and ready-for-query. *)
Definition empty_then_rows : list Frame :=
  [mkFrame 49 []; mkFrame 50 []; mkFrame 84 [0; 1; 97; 0];
   mkFrame 67 [83; 0]; mkFrame 90 [73];
   mkFrame 49 []; mkFrame 50 []; mkFrame 84 [0; 1; 98; 0];
   mkFrame 68 [0; 1; 120]; mkFrame 67 [83; 0]; mkFrame 90 [73]].

(** ** What the dispatcher keeps *)

(** A property of the state where a piece of the dispatcher ends: [Inv]
    where it ends normally, [Broken] where it throws. *)
Definition kept {A : Type} (Inv Broken : Dispatch -> Prop) (s : Step A) : Prop :=
  match s with
  | Done _ d => Inv d
  | Raise _ d => Broken d
  | Stuck _ => True
  end.

Definition kept_outcome (Inv Broken : Dispatch -> Prop) (o : Outcome) : Prop :=
  match o with
  | Next c => Inv (disp c)
  | Thrown _ c => Broken (disp c)
  | NoFuel _ => True
  end.

(** The name-consumers a trace calls, in order, and those of the queries
    issued. *)
Definition names_called (trace : list Output) : list NameHandler :=
  flat_map (fun o => match o with
                     | Names h _ => [h]
                     | _ => []
                     end) trace.

Definition issued_names (inputs : list Input) : list NameHandler :=
  flat_map (fun i => match i with
                     | Query _ nh => [nh]
                     | Data _ => []
                     end) inputs.

(** The calls of row-consumers in a trace: the consumer, and whether it is
    handed the sentinel. *)
Definition consumer_calls (trace : list Output) : list (RowDataHandler * bool) :=
  flat_map (fun o => match o with
                     | Deliver h (Some _) => [(h, false)]
                     | Deliver h None => [(h, true)]
                     | _ => []
                     end) trace.

(** [Completed t q]: the calls [t] serve the consumers [q] one after the
    other, each with some rows (possibly none) and then the sentinel,
    once. *)
Inductive Completed : list (RowDataHandler * bool) -> list RowDataHandler -> Prop :=
| Completed_nil : Completed [] []
| Completed_snoc (t : list (RowDataHandler * bool)) (q : list RowDataHandler)
    (h : RowDataHandler) (n : nat) :
    Completed t q ->
    Completed (t ++ repeat (h, false) n ++ [(h, true)]) (q ++ [h]).

(** The consumers [hs] registered from the start are those served and done
    with, then the active one, which has had rows only, then the pending
    ones, which have had no call. *)
Definition served (hs : list RowDataHandler) (d : Dispatch) : Prop :=
  exists past t n,
    hs = past ++ active_handler d ++ dataHandlers d /\
    Completed t past /\
    consumer_calls (out d) = t ++ flat_map (fun h => repeat (h, false) n)
                                    (active_handler d).

(** No consumer is called again once it has been handed the sentinel. *)
Definition silent_after_sentinel (t : list (RowDataHandler * bool)) : Prop :=
  forall l1 l2 h b, t = l1 ++ (h, true) :: l2 -> ~ In (h, b) l2.

(** ** The connection: the socket's other events and the client's methods *)

(** The values [execute] and the socket's 'connect' handler take from the
    configuration and from [defaults.ts], each standing for its chain of
    [||]: [config.preparedStatementPrefix || defaults.preparedStatementPrefix],
    [config.user || defaults.user || ''],
    [config.database || defaults.database || ''],
    [config.extraFloatDigits || 0], [config.port || defaults.port],
    [config.host || defaults.host]; and the constant [ECONNRESET] of the
    platform. *)
Variable preparedStatementPrefix : Str.
Variable user : Str.
Variable database : Str.
Variable extraFloatDigits : Z.
Variable port : Z.
Variable host : Str.
Variable ECONNRESET : Z.

(** Modelled from the spec: a [Query] of [query.ts], which is not part of
    the sources at hand, by the fields [execute] reads; [name] and [portal]
    may be undefined. *)
Record Query' := mkQuery {
  q_text : Str;
  q_args : list Value;
  q_types : list Z;
  q_name : option Str;
  q_portal : option Str
}.

(** [s || other] on strings: [undefined] and the empty string are falsy. *)
Definition or_else (s : option Str) (other : Str) : Str :=
  match s with
  | Some (x :: r) => x :: r
  | _ => other
  end.

(** The decimal digits of a number, as [String(n)] gives them for the
    integers from 0 below 10^21. *)
Fixpoint digits (u : Decimal.uint) : Str :=
  match u with
  | Decimal.Nil => []
  | Decimal.D0 u' => 48 :: digits u'
  | Decimal.D1 u' => 49 :: digits u'
  | Decimal.D2 u' => 50 :: digits u'
  | Decimal.D3 u' => 51 :: digits u'
  | Decimal.D4 u' => 52 :: digits u'
  | Decimal.D5 u' => 53 :: digits u'
  | Decimal.D6 u' => 54 :: digits u'
  | Decimal.D7 u' => 55 :: digits u'
  | Decimal.D8 u' => 56 :: digits u'
  | Decimal.D9 u' => 57 :: digits u'
  end.

Definition number_to_string (n : Z) : Str := digits (N.to_uint (Z.to_N n)).

(** [n++] on a JavaScript number that counts up from 0: past 2^53 the sum
    rounds back to the number itself. *)
Definition increment (n : Z) : Z :=
  if n <? 9007199254740992 then n + 1 else n.

(** Calls on the socket and on the [Writer] made outside [receive] and
    [flush]. *)
Inductive Call :=
| SetKeepAlive
| StreamConnect (port : Z) (host : Str)
| Startup (user database : Str) (extraFloatDigits : Z)
| WriterEnd
| Parse (name text : Str) (types : option (list Z))
| Describe (name : Str) (kind : string)
| Bind (name portal : Str)
| Execute (portal : Str)
| Sync.

(** [error.errno] is a number or a string. *)
Inductive Errno :=
| ErrnoNumber (n : Z)
| ErrnoString (s : string).

(** [error.errno === ECONNRESET]. *)
Definition is_reset (errno : Errno) : bool :=
  match errno with
  | ErrnoNumber n => n =? ECONNRESET
  | ErrnoString _ => false
  end.

(** The client with the fields the other handlers and methods use.  A call
    is logged with the number of outputs the dispatcher had made before
    it, which places it among them. *)
Record Conn := mkConn {
  client : Client;
  ending : bool;
  closed : bool;
  keepAlive : bool;
  nextPreparedStatementId : Z;
  calls : list (nat * Call)
}.

Definition with_client (c : Client) (k : Conn) : Conn :=
  mkConn c (ending k) (closed k) (keepAlive k) (nextPreparedStatementId k)
    (calls k).

Definition with_disp (g : Dispatch -> Dispatch) (k : Conn) : Conn :=
  with_client (mkClient (buffer (client k)) (offset (client k))
                 (remaining (client k)) (events (client k))
                 (g (disp (client k)))) k.

Definition call (x : Call) (k : Conn) : Conn :=
  mkConn (client k) (ending k) (closed k) (keepAlive k)
    (nextPreparedStatementId k)
    (calls k ++ [(List.length (out (disp (client k))), x)]).

(** A new [Client]: the field initialisers of the class. *)
Definition new_client : Conn := mkConn init false false true 0 [].

Definition set_closed (b : bool) (k : Conn) : Conn :=
  mkConn (client k) (ending k) b (keepAlive k) (nextPreparedStatementId k)
    (calls k).

Definition set_ending (b : bool) (k : Conn) : Conn :=
  mkConn (client k) b (closed k) (keepAlive k) (nextPreparedStatementId k)
    (calls k).

Definition set_nextPreparedStatementId (n : Z) (k : Conn) : Conn :=
  mkConn (client k) (ending k) (closed k) (keepAlive k) n (calls k).

(** The socket's 'connect', 'close', 'drain', 'error' and 'finish'
    handlers. *)
Definition on_stream_connect (k : Conn) : Conn :=
  let k1 := if keepAlive k then call SetKeepAlive k else k in
  call (Startup user database extraFloatDigits) (set_closed false k1).

Definition on_stream_close (k : Conn) : Conn := with_disp (set_ready false) k.

Definition on_stream_drain (k : Conn) : Conn :=
  with_disp (fun d => flush (set_mustDrain false d)) k.

Definition on_stream_error (errno : Errno) (k : Conn) : Conn :=
  if ending k && is_reset errno then k
  else with_disp (emit (Emit EvEnd)) k.

Definition on_stream_finish (k : Conn) : Conn :=
  with_disp (emit (Emit EvEnd)) (set_closed true k).

(** [Client.connect]; the promise it returns is the event library's
    [events.connect.once()]. *)
Definition connect (k : Conn) : Conn :=
  call (StreamConnect port host) (with_disp (set_connecting true) k).

Definition already_closed : string := "Connection already closed.".

(** [Client.end]: [inr] is the [Error] thrown. *)
Definition client_end (k : Conn) : Conn + string :=
  if closed k then inr already_closed
  else inl (with_disp flush (call WriterEnd (set_ending true k))).

(** [Client.execute]; [h] and [nh] are the two callbacks that [makeResult]
    registers for the query. *)
Definition execute (query : Query') (h : RowDataHandler) (nh : NameHandler)
  (k : Conn) : Conn :=
  let text := q_text query in
  let args := q_args query in
  let types := q_types query in
  let portal := or_else (q_portal query) [] in
  let k1 :=
    match args with
    | _ :: _ =>
        let name :=
          or_else (q_name query)
            (preparedStatementPrefix
               ++ number_to_string (nextPreparedStatementId k)) in
        let k0 :=
          if truthy (q_name query) then k
          else set_nextPreparedStatementId
                 (increment (nextPreparedStatementId k)) k in
        let k1 := call (Parse name text (Some types)) k0 in
        let k2 := call (Describe name "S") k1 in
        let k3 := call Sync k2 in
        with_disp (fun d => set_preparedStatements
                              (preparedStatements d ++ [mkPS name portal args]) d)
          k3
    | [] =>
        let name := or_else (q_name query) [] in
        let k1 := call (Parse name text None) k in
        let k2 := call (Bind name portal) k1 in
        let k3 := call (Describe portal "P") k2 in
        let k4 := call (Execute portal) k3 in
        call Sync k4
    end in
  with_disp flush (with_client (register h nh (client k1)) k1).

(** What happens to a connection: the socket's events and the calls of the
    client's methods. *)
Inductive Event :=
| StreamConnected
| StreamClosed
| StreamDrained
| StreamData (chunk : Buffer)
| StreamError (errno : Errno)
| StreamFinished
| CallConnect
| CallEnd
| CallExecute (query : Query') (h : RowDataHandler) (nh : NameHandler)
| CallOn (event : string) (callback : Callback).

(** How an event ends: the connection goes on, an [Error] is thrown, or the
    model's fuel is used up. *)
Inductive Turn :=
| Continues (k : Conn)
| Fails (e : string) (k : Conn)
| Undecided (k : Conn).

Definition handle (ev : Event) (k : Conn) : Turn :=
  match ev with
  | StreamConnected => Continues (on_stream_connect k)
  | StreamClosed => Continues (on_stream_close k)
  | StreamDrained => Continues (on_stream_drain k)
  | StreamData chunk =>
      match feed_chunk (client k) chunk with
      | Next c' => Continues (with_client c' k)
      | Thrown e c' => Fails e (with_client c' k)
      | NoFuel c' => Undecided (with_client c' k)
      end
  | StreamError errno => Continues (on_stream_error errno k)
  | StreamFinished => Continues (on_stream_finish k)
  | CallConnect => Continues (connect k)
  | CallEnd =>
      match client_end k with
      | inl k' => Continues k'
      | inr e => Fails e k
      end
  | CallExecute query h nh => Continues (execute query h nh k)
  | CallOn event callback => Continues (with_client (on event callback (client k)) k)
  end.

(** A sequence of events, up to the first [Error] thrown. *)
Fixpoint play (evs : list Event) (k : Conn) : Turn :=
  match evs with
  | [] => Continues k
  | ev :: rest =>
      match handle ev k with
      | Continues k' => play rest k'
      | other => other
      end
  end.

Definition conn_of (t : Turn) : Conn :=
  match t with
  | Continues k => k
  | Fails _ k => k
  | Undecided k => k
  end.

Definition is_drain (ev : Event) : bool :=
  match ev with
  | StreamDrained => true
  | _ => false
  end.

Definition is_data (ev : Event) : bool :=
  match ev with
  | StreamData _ => true
  | _ => false
  end.

(** The number of calls of [writer.send()] in a trace. *)
Definition send_calls (trace : list Output) : nat :=
  List.length (filter (fun o => match o with
                                | Writer WSend => true
                                | _ => false
                                end) trace).

(** The connection an event sequence ends in, when the model decides it:
    normally, or where the first [Error] is thrown. *)
Definition ends_in (t : Turn) (k' : Conn) : Prop :=
  t = Continues k' \/ exists e, t = Fails e k'.

(** A drain is awaited, [n] calls of [writer.send()] having been made. *)
Definition draining (n : nat) (d : Dispatch) : Prop :=
  mustDrain d = true /\ send_calls (out d) = n.

(** The connection is not ready, [n] calls of [writer.send()] having been
    made. *)
Definition unready (n : nat) (d : Dispatch) : Prop :=
  ready d = false /\ send_calls (out d) = n.

(** A query with arguments and no name of its own: [execute] makes up the
    name of its prepared statement. *)
Definition generates (query : Query') : bool :=
  match q_args query with
  | _ :: _ => negb (truthy (q_name query))
  | [] => false
  end.

(** Queries executed one after the other, each with its two callbacks. *)
Definition execute_all (qs : list (Query' * RowDataHandler * NameHandler))
  (k : Conn) : Conn :=
  fold_left (fun k q => execute (fst (fst q)) (snd (fst q)) (snd q) k) qs k.

(** Whether the last of the socket's 'finish' and 'connect' events in a
    sequence is a 'finish', and whether [end()] is called in it. *)
Definition finished_last (evs : list Event) (before : bool) : bool :=
  fold_left (fun b ev => match ev with
                         | StreamFinished => true
                         | StreamConnected => false
                         | _ => b
                         end) evs before.

Definition calls_end (evs : list Event) : bool :=
  existsb (fun ev => match ev with
                     | CallEnd => true
                     | _ => false
                     end) evs.

(** ** Frames as a server writes them *)

(** Several outputs in a row. *)
Definition emits (os : list Output) (d : Dispatch) : Dispatch :=
  fold_left (fun d o => emit o d) os d.

Definition be16 (n : Z) : Buffer := [n / 256 mod 256; n mod 256].

(** A null-terminated string. *)
Definition cstring (s : Str) : Buffer := s ++ [0].

Definition zero_free (s : Str) : Prop := Forall (fun x => x <> 0) s.

(** The payloads of the frames the dispatcher reads fields from: the code
    of an authentication request, the two integers of the backend key, the
    name and value of a parameter status, the status of ready-for-query,
    the count and the type identifiers of a parameter description, and the
    fields of an error or notice, each a tag byte and a string, with the
    zero byte that ends the list. *)
Definition authentication (code : Z) : Frame :=
  mkFrame Message.Authenticate (be32 code).

Definition backend_key (pid key : Z) : Frame :=
  mkFrame Message.BackendKeyData (be32 pid ++ be32 key).

Definition parameter_status (name value : Str) : Frame :=
  mkFrame Message.ParameterStatus (cstring name ++ cstring value).

Definition ready_for_query (status : Z) : Frame :=
  mkFrame Message.ReadyForQuery [status].

Definition parameter_description (oids : list Z) : Frame :=
  mkFrame Message.ParameterDescription
    (be16 (len oids) ++ flat_map be32 oids).

Definition error_fields (fs : list (Z * Str)) : Buffer :=
  flat_map (fun f => fst f :: cstring (snd f)) fs ++ [0].

Definition row_description (p : Buffer) : Frame :=
  mkFrame Message.RowDescription p.

Definition data_row (p : Buffer) : Frame := mkFrame Message.RowData p.

Definition command_complete (p : Buffer) : Frame := mkFrame Message.Close p.

(** The payload fits the length field. *)
Definition fits (p : Buffer) : Prop := len p + 4 < 2147483648.

(** The frame types that concern the queries' bookkeeping, and that
    bookkeeping: the four registries and the active delivery context. *)
Definition touches (t : Z) : bool :=
  (t =? Message.RowData) || (t =? Message.NoData) || (t =? Message.Close)
  || (t =? Message.RowDescription) || (t =? Message.ParameterDescription).

Definition bookkeeping (d : Dispatch) :=
  (dataHandlers d, nameHandlers d, rowDescriptions d, preparedStatements d,
   activeDataHandlerInfo d).

(** How a sequence of 'data' events ends when the model decides it. *)
Definition feed_ends (o : Outcome) (c' : Client) : Prop :=
  o = Next c' \/ exists e, o = Thrown e c'.

(** The queries' bookkeeping and the calls of their consumers are given
    ones. *)
Definition settled_as (B : list RowDataHandler * list NameHandler
                            * list RowDescription * list PreparedStatement
                            * option (RowDataHandler * RowDescription))
  (C : list (RowDataHandler * bool)) (N : list NameHandler) (d : Dispatch) : Prop :=
  bookkeeping d = B /\ consumer_calls (out d) = C /\ names_called (out d) = N.

(** An authentication request with the data that follows its code (a salt,
    a list of mechanisms). *)
Definition authentication_request (code : Z) (extra : Buffer) : Frame :=
  mkFrame Message.Authenticate (be32 code ++ extra).

(** ** A consumer of the async iterator *)

(** A consumer that pulls one item after the other, as [for await] does:
    it is about to call [next()], or suspended in [next()] on a
    subscriber, or has had the done signal and pulls no more. *)
Inductive Pull :=
| Idle
| Waiting (k : nat)
| Ended.

(** [position] is the [i] of the iterator's closure, [yielded] the values
    of the items it has returned, [None] standing for [undefined]. *)
Record Consumer := mkConsumer {
  position : nat;
  pull : Pull;
  yielded : list (option Row)
}.

Definition fresh_consumer : Consumer := mkConsumer O Idle [].

(** The consumer runs as far as it can: idle, it calls [next()]; suspended
    on a subscriber that has been resolved, it goes on after the [await];
    otherwise nothing happens. *)
Definition consumer_turn (p : ResultIterator) (co : Consumer)
  : ResultIterator * Consumer :=
  match pull co with
  | Idle =>
      match next p (position co) with
      | (Returned (IterValue item) i', p') =>
          (p', mkConsumer i' Idle (yielded co ++ [item]))
      | (Returned IterDone i', p') => (p', mkConsumer i' Ended (yielded co))
      | (Suspended k, p') => (p', mkConsumer (position co) (Waiting k) (yielded co))
      end
  | Waiting k =>
      match nth_error (subscribers p) k with
      | Some (Some v) =>
          match resume p (position co) v with
          | (IterValue item, i') => (p, mkConsumer i' Idle (yielded co ++ [item]))
          | (IterDone, i') => (p, mkConsumer i' Ended (yielded co))
          end
      | _ => (p, co)
      end
  | Ended => (p, co)
  end.

(** What happens to a result stream and its consumer: the dispatcher hands
    [onData] a row or the sentinel, or the consumer gets to run. *)
Inductive Occurrence :=
| Arrives (row : Row)
| Completes
| Resumes.

Definition occur (s : ResultIterator * Consumer) (o : Occurrence)
  : ResultIterator * Consumer :=
  match o with
  | Arrives row => (onData (Some row) (fst s), snd s)
  | Completes => (onData None (fst s), snd s)
  | Resumes => consumer_turn (fst s) (snd s)
  end.

Definition unfold_schedule (sched : list Occurrence)
  (s : ResultIterator * Consumer) : ResultIterator * Consumer :=
  fold_left occur sched s.

(** No row arrives after the sentinel. *)
Fixpoint well_timed (completed : bool) (sched : list Occurrence) : bool :=
  match sched with
  | [] => true
  | Arrives _ :: rest => negb completed && well_timed completed rest
  | Completes :: rest => well_timed true rest
  | Resumes :: rest => well_timed completed rest
  end.

(** What holds of a stream and its consumer all along. *)
Definition iterating (s : ResultIterator * Consumer) : Prop :=
  let p := fst s in
  let co := snd s in
  yielded co = map Some (firstn (position co) (container p)) /\
  (position co <= List.length (container p))%nat /\
  match pull co with
  | Idle => True
  | Waiting k =>
      match nth_error (subscribers p) k with
      | Some None => done p = false /\ position co = List.length (container p)
      | Some (Some false) => (position co < List.length (container p))%nat
      | Some (Some true) => done p = true
      | None => False
      end
  | Ended => done p = true
  end.

(** What holds in addition as long as no row arrives after the sentinel. *)
Definition exhausting (s : ResultIterator * Consumer) : Prop :=
  let p := fst s in
  let co := snd s in
  match pull co with
  | Idle => True
  | Waiting k =>
      nth_error (subscribers p) k = Some (Some true) ->
      position co = List.length (container p)
  | Ended => position co = List.length (container p)
  end.

(** ** What a result stream is handed *)

(** The rows a trace hands to the row-consumer [h], the names it hands
    last to the name-consumer [nh], and whether an output hands [h] the
    sentinel. *)
Definition rows_to (h : RowDataHandler) (trace : list Output) : list Row :=
  flat_map (fun o => match o with
                     | Deliver h' (Some row) => if Nat.eqb h' h then [row] else []
                     | _ => []
                     end) trace.

Definition last_names (nh : NameHandler) (trace : list Output)
  (before : option (list Str)) : option (list Str) :=
  fold_left (fun acc o => match o with
                          | Names nh' ns => if Nat.eqb nh' nh then Some ns else acc
                          | _ => acc
                          end) trace before.

Definition completes (h : RowDataHandler) (o : Output) : bool :=
  match o with
  | Deliver h' None => Nat.eqb h' h
  | _ => false
  end.

(** Calls of [next()] made one after the other without awaiting any: each
    runs up to its [await]; one that returns at once has moved the index. *)
Fixpoint pull_at_once (n : nat) (p : ResultIterator) (i : nat)
  : list NextStep * ResultIterator * nat :=
  match n with
  | O => ([], p, i)
  | S n' =>
      match next p i with
      | (Returned r i', p1) =>
          let '(steps, p2, j) := pull_at_once n' p1 i' in
          (Returned r i' :: steps, p2, j)
      | (Suspended k, p1) =>
          let '(steps, p2, j) := pull_at_once n' p1 i in
          (Suspended k :: steps, p2, j)
      end
  end.

(** The suspended calls resumed in the order of their subscribers, each
    with the value its subscriber was resolved with. *)
Fixpoint resume_all (values : list bool) (p : ResultIterator) (i : nat)
  : list IterResult * nat :=
  match values with
  | [] => ([], i)
  | v :: rest =>
      let '(r, i') := resume p i v in
      let '(rs, j) := resume_all rest p i' in
      (r :: rs, j)
  end.

(** The values the subscribers from the [k]-th on are settled with, the
    pending ones left out. *)
Definition settled_from (k : nat) (p : ResultIterator) : list bool :=
  flat_map (fun s => match s with Some v => [v] | None => [] end)
    (skipn k (subscribers p)).
(* ================================================================== *)
(** * Properties *)
(* ================================================================== *)

(** ** Buffer primitives *)

Lemma len_nonneg (b : Buffer) : 0 <= len b.
Proof. unfold len. lia. Qed.

Lemma len_app (a b : Buffer) : len (a ++ b) = len a + len b.
Proof. unfold len. rewrite length_app. lia. Qed.

Lemma get_skipn (b : Buffer) (i : Z) (x : Z) (r : list Z) :
  0 <= i -> skipn (Z.to_nat i) b = x :: r -> get b i = Some x.
Proof.
  intros Hi Hs. unfold get.
  destruct (Z.ltb_spec i 0); [lia|].
  rewrite <- (firstn_skipn (Z.to_nat i) b) at 1.
  assert (Hl : List.length (firstn (Z.to_nat i) b) = Z.to_nat i).
  { apply firstn_length_le.
    destruct (Nat.le_gt_cases (Z.to_nat i) (List.length b)) as [|Hgt]; [assumption|].
    rewrite skipn_all2 in Hs by lia. discriminate. }
  rewrite nth_error_app2 by lia.
  rewrite Hl, Nat.sub_diag, Hs. reflexivity.
Qed.

Lemma skipn_cons_tail (b : Buffer) (n : nat) (x : Z) (r : list Z) :
  skipn n b = x :: r -> skipn (S n) b = r.
Proof.
  intros H. replace (S n) with (1 + n)%nat by lia.
  rewrite <- skipn_skipn, H. reflexivity.
Qed.

Lemma skipn_nonempty_lt (b : Buffer) (n : nat) (x : Z) (r : list Z) :
  skipn n b = x :: r -> (n < List.length b)%nat.
Proof.
  intros H. destruct (Nat.le_gt_cases (List.length b) n) as [Hle|]; [|assumption].
  rewrite skipn_all2 in H by assumption. discriminate.
Qed.

Lemma find0_bound (l : list Z) (k : nat) :
  find0 l = Some k -> (k < List.length l)%nat.
Proof.
  revert k. induction l as [|x r IH]; simpl; intros k H; [discriminate|].
  destruct (x =? 0).
  - injection H as <-. lia.
  - destruct (find0 r) as [k'|]; [|discriminate].
    injection H as <-. specialize (IH k' eq_refl). lia.
Qed.

(** ** The field parser against the field list *)

Lemma set_field_components (t : Z) (v : Str) (lv cd msg : option Str) :
  set_field (Some t) v (lv, cd, msg) =
  (if t =? TAG_V then Some v else lv,
   if t =? TAG_C then Some v else cd,
   if t =? TAG_M then Some v else msg).
Proof.
  unfold TAG_V, TAG_C, TAG_M.
  destruct (Z.eqb_spec t 86) as [->|]; [reflexivity|].
  destruct (Z.eqb_spec t 67) as [->|]; [reflexivity|].
  destruct (Z.eqb_spec t 77) as [->|]; [reflexivity|].
  unfold set_field.
  destruct t as [|p|p]; try reflexivity.
  do 7 (destruct p as [p|p|]; try reflexivity); congruence.
Qed.

Lemma apply_fields_last (fs : list (Z * Str)) (lv cd msg : option Str) :
  apply_fields fs (lv, cd, msg) =
  (last_value_from TAG_V fs lv, last_value_from TAG_C fs cd,
   last_value_from TAG_M fs msg).
Proof.
  revert lv cd msg. induction fs as [|[t v] fs IH]; intros; [reflexivity|].
  unfold apply_fields, last_value_from in *. cbn [fold_left fst snd].
  rewrite set_field_components. apply IH.
Qed.

Lemma fields_from_unterminated (r : list Z) (t : Z) (v : list Z) :
  find0 r = None -> fields_from r (Some (t, v)) = [].
Proof.
  revert v. induction r as [|x r IH]; simpl; intros v H; [reflexivity|].
  destruct (x =? 0); [discriminate|].
  destruct (find0 r); [discriminate|]. apply IH. reflexivity.
Qed.

Lemma fields_from_terminated (r : list Z) (t : Z) (v : list Z) (k : nat) :
  find0 r = Some k ->
  fields_from r (Some (t, v)) =
  (t, rev v ++ firstn k r) :: fields_from (skipn (S k) r) None.
Proof.
  revert v k. induction r as [|x r IH]; simpl; intros v k H; [discriminate|].
  destruct (x =? 0).
  - injection H as <-. simpl. rewrite app_nil_r. reflexivity.
  - destruct (find0 r) as [k'|]; [|discriminate]. injection H as <-.
    rewrite (IH (x :: v) k' eq_refl). simpl.
    rewrite <- app_assoc. reflexivity.
Qed.

Lemma slice_span (b : Buffer) (i : nat) (x : Z) (r : list Z) (k : nat) :
  skipn i b = x :: r -> (k < List.length r)%nat ->
  slice b (Z.of_nat i + 1) (Z.of_nat i + Z.of_nat (S k)) = firstn k r.
Proof.
  intros Hs Hk.
  assert (Hlen : List.length b = (i + S (List.length r))%nat).
  { rewrite <- (firstn_skipn i b) at 1. rewrite length_app, Hs.
    rewrite firstn_length_le; [reflexivity|].
    apply skipn_nonempty_lt in Hs. lia. }
  unfold slice, clamp, len.
  destruct (Z.ltb_spec (Z.of_nat i + 1) 0); [lia|].
  destruct (Z.ltb_spec (Z.of_nat i + Z.of_nat (S k)) 0); [lia|].
  rewrite !Z.min_l by lia.
  replace (Z.to_nat (Z.of_nat i + 1)) with (S i) by lia.
  rewrite (skipn_cons_tail _ _ _ _ Hs). f_equal. lia.
Qed.

Lemma slice_empty_backwards (b : Buffer) (i : Z) :
  0 <= i < len b -> slice b (i + 1) i = [].
Proof.
  intros Hi. unfold slice, clamp.
  destruct (Z.ltb_spec (i + 1) 0); [lia|].
  destruct (Z.ltb_spec i 0); [lia|].
  rewrite !Z.min_l by lia.
  replace (Z.to_nat (i - (i + 1))) with O by lia. reflexivity.
Qed.

Lemma parse_loop_fields (fuel : nat) (b : Buffer) : forall (i : nat) (acc : Fields),
  (i <= List.length b)%nat -> (List.length b - i < fuel)%nat ->
  parse_loop fuel b (Z.of_nat i) acc =
  Some (apply_fields (fields (skipn i b)) acc).
Proof.
  induction fuel as [|fuel IH]; intros i acc Hi Hf; [lia|].
  simpl. unfold len.
  destruct (Z.ltb_spec (Z.of_nat i) (Z.of_nat (List.length b))) as [Hlt|Hge].
  - destruct (skipn i b) as [|x r] eqn:Hs.
    { apply (f_equal (@List.length Z)) in Hs. rewrite length_skipn in Hs.
      simpl in Hs. lia. }
    assert (Hg : get b (Z.of_nat i) = Some x).
    { apply (get_skipn _ _ _ r); [lia|]. rewrite Nat2Z.id. exact Hs. }
    unfold indexOf0. rewrite Nat2Z.id, Hs. simpl find0.
    unfold fields. simpl fields_from.
    destruct (Z.eqb_spec x 0) as [->|Hx].
    + replace (Z.of_nat i + Z.of_nat 0) with (Z.of_nat i) by lia.
      destruct (Z.ltb_spec (Z.of_nat i) 0); [lia|].
      rewrite slice_empty_backwards by (unfold len; lia).
      rewrite Hg.
      replace (Z.of_nat i + 1) with (Z.of_nat (S i)) by lia.
      rewrite IH by lia.
      rewrite (skipn_cons_tail _ _ _ _ Hs). reflexivity.
    + destruct (find0 r) as [k|] eqn:Hk.
      * destruct (Z.ltb_spec (Z.of_nat i + Z.of_nat (S k)) 0); [lia|].
        pose proof (find0_bound _ _ Hk) as Hkb.
        rewrite (slice_span b i x r k Hs Hkb), Hg.
        rewrite (fields_from_terminated r x [] k Hk). simpl rev. simpl app.
        assert (Hlen : List.length b = (i + S (List.length r))%nat).
        { rewrite <- (firstn_skipn i b) at 1. rewrite length_app, Hs.
          rewrite firstn_length_le by lia. reflexivity. }
        replace (Z.of_nat i + Z.of_nat (S k) + 1)
          with (Z.of_nat (S (S k) + i)) by lia.
        rewrite IH by lia.
        rewrite <- skipn_skipn.
        replace (S (S k)) with (S k + 1)%nat at 1 by lia.
        rewrite <- (skipn_skipn (S k) 1), Hs. reflexivity.
      * simpl. rewrite (fields_from_unterminated r x [] Hk). reflexivity.
  - assert (i = List.length b) by lia. subst i.
    rewrite skipn_all. reflexivity.
Qed.

Lemma parse_loop_whole (b : Buffer) :
  parse_loop (S (List.length b)) b 0 (None, None, None) =
  Some (last_value TAG_V (fields b), last_value TAG_C (fields b),
        last_value TAG_M (fields b)).
Proof.
  change 0 with (Z.of_nat 0).
  rewrite parse_loop_fields by lia.
  simpl skipn. rewrite apply_fields_last. reflexivity.
Qed.

Lemma parseError_cases (buffer : Buffer) :
  parseError buffer =
  match last_value TAG_V (fields buffer), last_value TAG_C (fields buffer),
        last_value TAG_M (fields buffer) with
  | Some (l0 :: l), Some (c0 :: c), Some (m0 :: m) =>
      Ok (mkError (l0 :: l) (c0 :: c) (m0 :: m))
  | _, _, _ => Throw parse_error_message
  end.
Proof.
  unfold parseError. rewrite parse_loop_whole.
  destruct (last_value TAG_V (fields buffer)) as [[|l0 l]|];
    destruct (last_value TAG_C (fields buffer)) as [[|c0 c]|];
    destruct (last_value TAG_M (fields buffer)) as [[|m0 m]|];
    reflexivity.
Qed.

(** C5.  On every byte slice the field parser either returns an error
    record whose severity, SQL state code and message text are all
    populated (non-empty, and the values the payload's field list carries
    for 'V', 'C' and 'M'), or it throws; it never runs on without an answer.
    When one of the three tags is absent from the field list it throws. *)
Theorem parseError_populated_or_throws (buffer : Buffer) :
  ((exists e, parseError buffer = Ok e /\
              level e <> [] /\ code e <> [] /\ message e <> [] /\
              last_value TAG_V (fields buffer) = Some (level e) /\
              last_value TAG_C (fields buffer) = Some (code e) /\
              last_value TAG_M (fields buffer) = Some (message e))
   \/ parseError buffer = Throw parse_error_message)
  /\ ((last_value TAG_V (fields buffer) = None \/
       last_value TAG_C (fields buffer) = None \/
       last_value TAG_M (fields buffer) = None) ->
      parseError buffer = Throw parse_error_message).
Proof.
  rewrite parseError_cases.
  destruct (last_value TAG_V (fields buffer)) as [[|l0 l]|];
    destruct (last_value TAG_C (fields buffer)) as [[|c0 c]|];
    destruct (last_value TAG_M (fields buffer)) as [[|m0 m]|];
    (split; [ first [ right; reflexivity
                    | left; eexists; repeat split; simpl; congruence ]
            | intros [H|[H|H]]; first [reflexivity | discriminate H] ]).
Qed.

(** C10.  When the 'V', 'C' and 'M' tags are all present but the value of
    at least one of them is the empty string, the field parser throws: a
    present-but-empty required field is treated like an absent one. *)
Theorem parseError_empty_field_throws
  (buffer : Buffer) (lv cd msg : Str) :
  last_value TAG_V (fields buffer) = Some lv ->
  last_value TAG_C (fields buffer) = Some cd ->
  last_value TAG_M (fields buffer) = Some msg ->
  lv = [] \/ cd = [] \/ msg = [] ->
  parseError buffer = Throw parse_error_message.
Proof.
  intros Hv Hc Hm Hempty. rewrite parseError_cases, Hv, Hc, Hm.
  destruct Hempty as [ -> | [ -> | -> ] ]; [reflexivity| |].
  - destruct lv; reflexivity.
  - destruct lv; [reflexivity|]. destruct cd; reflexivity.
Qed.

(** Severity "S", an empty code, message "x". *)
Lemma parseError_empty_field_throws_witness :
  last_value TAG_C (fields [86; 83; 0; 67; 0; 77; 120; 0]) = Some [] /\
  parseError [86; 83; 0; 67; 0; 77; 120; 0] = Throw parse_error_message.
Proof.
  split; [reflexivity|].
  apply (parseError_empty_field_throws
           [86; 83; 0; 67; 0; 77; 120; 0] [83] [] [120]);
    [reflexivity | reflexivity | reflexivity | right; left; reflexivity].
Defined.

(** ** Slices and copies *)

Lemma slice_in_range (b : Buffer) (s e : Z) :
  0 <= s <= e -> e <= len b ->
  slice b s e = firstn (Z.to_nat (e - s)) (skipn (Z.to_nat s) b).
Proof.
  intros Hs He. unfold slice, clamp.
  destruct (Z.ltb_spec s 0); [lia|]. destruct (Z.ltb_spec e 0); [lia|].
  rewrite !Z.min_l by lia. reflexivity.
Qed.

Lemma slice_length (b : Buffer) (s e : Z) :
  0 <= s <= e -> e <= len b -> len (slice b s e) = e - s.
Proof.
  intros Hs He. rewrite slice_in_range by assumption.
  unfold len in *. rewrite length_firstn, length_skipn. lia.
Qed.

Lemma slice_middle (a b c : Buffer) :
  slice (a ++ b ++ c) (len a) (len a + len b) = b.
Proof.
  pose proof (len_nonneg a). pose proof (len_nonneg b). pose proof (len_nonneg c).
  rewrite slice_in_range by (rewrite ?len_app; lia).
  unfold len. rewrite Nat2Z.id.
  rewrite skipn_app, skipn_all, Nat.sub_diag. simpl.
  replace (Z.to_nat (Z.of_nat (List.length a) + Z.of_nat (List.length b)
                     - Z.of_nat (List.length a))) with (List.length b) by lia.
  rewrite firstn_app, firstn_all, Nat.sub_diag. simpl. apply app_nil_r.
Qed.

Lemma slice_middle_at (a b c : Buffer) (s e : Z) :
  s = len a -> e = s + len b -> slice (a ++ b ++ c) s e = b.
Proof. intros -> ->. apply slice_middle. Qed.

Lemma slice_empty_region (b : Buffer) (s : Z) :
  0 <= s <= len b -> slice b s s = [].
Proof.
  intros Hs. rewrite slice_in_range by lia.
  rewrite Z.sub_diag. reflexivity.
Qed.

Lemma slice_all (b : Buffer) : slice b 0 (len b) = b.
Proof.
  pose proof (len_nonneg b).
  rewrite slice_in_range by lia. simpl.
  unfold len. rewrite Z.sub_0_r, Nat2Z.id. apply firstn_all.
Qed.

Lemma slice_prefix (a b : Buffer) (n : Z) :
  n = len a -> slice (a ++ b) 0 n = a.
Proof.
  intros ->. change (a ++ b) with ([] ++ a ++ b).
  change 0 with (len []) at 1.
  replace (len a) with (len [] + len a) by (unfold len; simpl; lia).
  apply slice_middle.
Qed.

Lemma copy_fits (src target : Buffer) (t : Z) :
  0 <= t -> t + len src <= len target ->
  copy src target t 0 (len src) =
  Some (firstn (Z.to_nat t) target ++ src
          ++ skipn (Z.to_nat t + List.length src) target).
Proof.
  intros Ht Hfit. unfold copy. pose proof (len_nonneg src).
  destruct (Z.ltb_spec t 0); [lia|].
  destruct (Z.ltb_spec (len src) 0); [lia|]. simpl.
  rewrite slice_all.
  rewrite (@firstn_all2 _ (Z.to_nat (len target - t)) src)
    by (unfold len in *; lia).
  reflexivity.
Qed.

Lemma copy_length (src target out : Buffer) (t s e : Z) :
  copy src target t s e = Some out -> len out = len target.
Proof.
  unfold copy. intros H.
  destruct (Z.ltb_spec t 0); [discriminate|].
  destruct (s <? 0); [discriminate|].
  destruct (e <? 0); [discriminate|]. simpl in H.
  injection H as <-.
  set (src' := firstn (Z.to_nat (len target - t)) (slice src s e)).
  assert (Hs : (List.length src' <= Z.to_nat (len target - t))%nat).
  { unfold src'. rewrite length_firstn. lia. }
  unfold len in *. rewrite !length_app, length_firstn, length_skipn. lia.
Qed.

Lemma copy_into_fresh (buf : Buffer) (o r l : Z) :
  0 <= o -> 0 <= r -> 0 <= l -> o + r <= len buf ->
  copy buf (repeat junk (Z.to_nat (l + r))) 0 o (o + r) =
  Some (slice buf o (o + r) ++ repeat junk (Z.to_nat l)).
Proof.
  intros Ho Hr Hl Hfit. unfold copy.
  destruct (Z.ltb_spec o 0); [lia|].
  destruct (Z.ltb_spec (o + r) 0); [lia|]. simpl orb. cbv iota.
  assert (Hsl : List.length (slice buf o (o + r)) = Z.to_nat r).
  { pose proof (slice_length buf o (o + r) ltac:(lia) ltac:(lia)) as H1.
    unfold len in H1. lia. }
  unfold len. rewrite repeat_length.
  replace (Z.to_nat (Z.of_nat (Z.to_nat (l + r)) - 0)) with (Z.to_nat l + Z.to_nat r)%nat by lia.
  rewrite (@firstn_all2 _ _ (slice buf o (o + r))) by lia.
  rewrite Hsl. simpl.
  replace (Z.to_nat (l + r)) with (Z.to_nat r + Z.to_nat l)%nat by lia.
  rewrite repeat_app, skipn_app, repeat_length, Nat.sub_diag.
  rewrite skipn_all2 by (rewrite repeat_length; lia). reflexivity.
Qed.

Lemma firstn_plus {A : Type} (n m : nat) (l : list A) :
  firstn (n + m) l = firstn n l ++ firstn m (skipn n l).
Proof.
  revert l. induction n as [|n IH]; intros l; [reflexivity|].
  destruct l as [|x l]; simpl.
  - rewrite firstn_nil. reflexivity.
  - f_equal. apply IH.
Qed.

Lemma firstn_split_region (buf : Buffer) (o r : Z) :
  0 <= o -> 0 <= r -> o + r <= len buf ->
  firstn (Z.to_nat (o + r)) buf = firstn (Z.to_nat o) buf ++ slice buf o (o + r).
Proof.
  intros Ho Hr Hfit. rewrite slice_in_range by lia.
  replace (Z.to_nat (o + r)) with (Z.to_nat o + Z.to_nat (o + r - o))%nat by lia.
  apply firstn_plus.
Qed.

Lemma in_place_region (buf chunk : Buffer) (o r : Z) :
  0 <= o -> 0 <= r -> o + r <= len buf ->
  slice (firstn (Z.to_nat (o + r)) buf ++ chunk
           ++ skipn (Z.to_nat (o + r) + List.length chunk) buf)
        o (o + (r + len chunk)) =
  slice buf o (o + r) ++ chunk.
Proof.
  intros Ho Hr Hfit.
  rewrite firstn_split_region by assumption.
  rewrite <- !app_assoc.
  rewrite (app_assoc (slice buf o (o + r)) chunk).
  assert (Ha : len (firstn (Z.to_nat o) buf) = o).
  { unfold len in *. rewrite length_firstn. lia. }
  assert (Hb : len (slice buf o (o + r) ++ chunk) = r + len chunk).
  { rewrite len_app, slice_length by lia. lia. }
  apply slice_middle_at; lia.
Qed.

(** What the reassembly comes to, case by case. *)
Lemma reassemble_cases (c : Client) (chunk : Buffer) :
  wf_region c ->
  exists buf' off',
    reassemble c chunk = Some (buf', off') /\
    slice buf' off' (off' + (remaining c + len chunk)) = unread c ++ chunk /\
    (buffer c = None \/ remaining c = 0 -> buf' = chunk /\ off' = 0) /\
    (forall buf, buffer c = Some buf -> 0 < remaining c ->
       let free := len buf - offset c - remaining c in
       let tail := Z.to_nat (offset c + remaining c) in
       (free < len chunk ->
          buf' = unread c ++ chunk /\ off' = 0 /\
          len buf' = remaining c + len chunk) /\
       (len chunk <= free ->
          buf' = firstn tail buf ++ chunk
                   ++ skipn (tail + List.length chunk) buf /\
          off' = offset c /\ len buf' = len buf)).
Proof.
  intros Hwf. unfold wf_region, reassemble, unread in *.
  pose proof (len_nonneg chunk) as HL.
  destruct (buffer c) as [buf|] eqn:Hbuf.
  - destruct Hwf as (Ho & Hr & Hfit).
    destruct (Z.eqb_spec (remaining c) 0) as [Hz|Hnz].
    + exists chunk, 0. rewrite Hz.
      rewrite Z.add_0_r, slice_empty_region by lia. simpl.
      rewrite slice_all.
      repeat split; try reflexivity; intros; lia.
    + destruct (Z.ltb_spec (len buf - offset c - remaining c) (len chunk)) as [Hlt|Hge].
      * unfold allocUnsafe.
        destruct (Z.ltb_spec (len chunk + remaining c) 0); [lia|].
        rewrite copy_into_fresh by lia.
        assert (Hsl : len (slice buf (offset c) (offset c + remaining c))
                      = remaining c).
        { rewrite slice_length by lia. lia. }
        assert (Hrep : len (repeat junk (Z.to_nat (len chunk))) = len chunk).
        { unfold len. rewrite repeat_length. lia. }
        rewrite copy_fits by (rewrite ?len_app, ?Hsl, ?Hrep; lia).
        assert (Hn : Z.to_nat (remaining c)
                     = List.length (slice buf (offset c) (offset c + remaining c))).
        { unfold len in Hsl. lia. }
        rewrite Hn, firstn_app, firstn_all, Nat.sub_diag. simpl firstn.
        rewrite app_nil_r.
        rewrite skipn_all2
          by (rewrite length_app, repeat_length; unfold len in HL |- *; lia).
        rewrite app_nil_r.
        eexists _, 0. split; [reflexivity|].
        split.
        { replace (0 + (remaining c + len chunk))
            with (len (slice buf (offset c) (offset c + remaining c) ++ chunk))
            by (rewrite len_app; lia).
          apply slice_all. }
        split; [intros [H0|H0]; [discriminate|lia]|].
        intros buf0 Hb0 Hpos. injection Hb0 as <-. simpl.
        split; [intros _|intros; lia].
        repeat split. rewrite len_app. lia.
      * rewrite copy_fits by lia.
        eexists _, (offset c). split; [reflexivity|].
        split; [apply in_place_region; assumption|].
        split; [intros [H0|H0]; [discriminate|lia]|].
        intros buf0 Hb0 Hpos. injection Hb0 as <-. simpl.
        split; [intros; lia|intros _].
        repeat split.
        rewrite !len_app. unfold len in *.
        rewrite length_firstn, length_skipn. lia.
  - exists chunk, 0. rewrite Hwf. simpl. rewrite slice_all.
    repeat split; try reflexivity; intros; discriminate.
Qed.



(** ** The registries *)

(** C3, as the code has it.  Shifting the empty row-consumer registry on a
    "row data" or "no data" frame throws "Unexpected data received.", and
    shifting the empty row-description registry on a "row data" frame
    throws "Row description expected.".  Shifting the empty
    prepared-statement registry on a parameter-description frame, and the
    empty name-consumer registry on a row-description frame, throws
    nothing: the frame is dealt with and the dispatcher goes on. *)
Theorem empty_registry_pops
  (fuel : nat) (buffer : Buffer) (size frame read start length : Z)
  (d : Dispatch) :
  (dataHandlers d = [] ->
   forall mtype, readInt8 buffer frame = Some mtype ->
     mtype = Message.RowData \/ mtype = Message.NoData ->
     fast_path (S fuel) buffer size frame read None d
     = Raise unexpected_data d) /\
  (rowDescriptions d = [] ->
   forall h q, dataHandlers d = h :: q ->
     readInt8 buffer frame = Some Message.RowData ->
     fast_path (S fuel) buffer size frame read None d
     = Raise description_expected (set_dataHandlers q d)) /\
  (preparedStatements d = [] ->
   forall n, readInt16BE buffer start = Some n ->
     dispatch Message.ParameterDescription buffer start length d = Done tt d) /\
  (nameHandlers d = [] ->
   dispatch Message.RowDescription buffer start length d
   = Done tt (set_rowDescriptions
                (rowDescriptions d
                   ++ [readRowDescription (slice buffer start (start + length))])
                d)).
Proof.
  repeat split.
  - intros Hq mtype Hm [-> | ->]; simpl; unfold fast_frame; rewrite Hm; simpl;
      unfold activate; rewrite Hq; reflexivity.
  - intros Hr h q Hq Hm. simpl. unfold fast_frame. rewrite Hm. simpl.
    unfold activate. rewrite Hq. simpl. rewrite Hr. reflexivity.
  - intros Hp n Hn. unfold dispatch. simpl. rewrite Hn, Hp. reflexivity.
  - intros Hn. unfold dispatch. simpl. rewrite Hn. reflexivity.
Qed.

(** ** The header test of the fast path *)

Lemma fast_frame_consumed (buffer : Buffer) (size frame read : Z)
  (info info1 : Info) (d d2 : Dispatch) (frame' read' : Z) :
  fast_frame buffer size frame read info d = Done (Consumed frame' read' info1) d2 ->
  frame' - read' = frame - read.
Proof.
  unfold fast_frame. intros H.
  destruct (readInt8 buffer frame) as [mtype|]; [|discriminate].
  destruct (negb (mtype =? Message.RowData) && negb (mtype =? Message.NoData));
    [discriminate|].
  destruct (activate _ info d) as [info2 d1| |]; try discriminate.
  destruct (readInt32BE buffer (frame + 1)) as [n|]; [|discriminate].
  destruct info2 as [[h desc]|].
  - destruct (size <? n + 1 + read); [discriminate|].
    injection H as <- <- _ _. lia.
  - injection H as <- <- _ _. lia.
Qed.

Lemma reassemble_offset (c : Client) (chunk buf : Buffer) (off : Z) :
  coherent c ->
  reassemble c chunk = Some (buf, off) ->
  expect (disp c) <= len chunk + remaining c ->
  off = 0.
Proof.
  intros [Hbuf Hexp] Hre Henter. unfold reassemble in Hre.
  destruct (buffer c) as [b|].
  - destruct (remaining c =? 0); [congruence|].
    destruct (Z.ltb_spec (len b - offset c - remaining c) (len chunk)) as [|Hge].
    + destruct (allocUnsafe junk _); [|discriminate].
      destruct (copy b _ _ _ _); [|discriminate].
      destruct (copy chunk _ _ _ _); [|discriminate]. congruence.
    + lia.
  - congruence.
Qed.

(** C2.  In a 'data' event of a client whose buffer ends with its unread
    region, once a turn of the fast path has consumed a frame the loop
    returns with [expect] set to 5 exactly when fewer than 5 of the [size]
    unread bytes remain after the [read'] consumed so far; with 5 or more
    it goes on to the next frame. *)
Theorem fast_path_header_test
  (c : Client) (chunk buf : Buffer) (off : Z)
  (fuel : nat) (frame read frame' read' : Z) (info info1 : Info)
  (d d2 : Dispatch) :
  let size := len chunk + remaining c in
  coherent c ->
  reassemble c chunk = Some (buf, off) ->
  expect (disp c) <= size ->
  frame = off + read ->
  fast_frame buf size frame read info d = Done (Consumed frame' read' info1) d2 ->
  (size - read' < 5 ->
   fast_path (S fuel) buf size frame read info d
   = Done (FReturn read') (set_expect 5 d2)) /\
  (5 <= size - read' ->
   fast_path (S fuel) buf size frame read info d
   = fast_path fuel buf size frame' read' info1 d2).
Proof.
  intros size Hc Hre Henter Hframe Hff.
  pose proof (reassemble_offset _ _ _ _ Hc Hre Henter) as ->.
  pose proof (fast_frame_consumed _ _ _ _ _ _ _ _ _ _ Hff) as Hpos.
  simpl. rewrite Hff.
  split; intros Hrem.
  - destruct (Z.ltb_spec size (frame' + 5)); [reflexivity|lia].
  - destruct (Z.ltb_spec size (frame' + 5)); [lia|reflexivity].
Qed.

(** ** What the dispatcher leaves for the next 'data' event *)

Lemma fast_frame_return (buffer : Buffer) (size frame read : Z) (info : Info)
  (d d' : Dispatch) (r : Z) :
  fast_frame buffer size frame read info d = Done (Leave (FReturn r)) d' ->
  r = read /\ size - read < expect d'.
Proof.
  unfold fast_frame. intros H.
  destruct (readInt8 buffer frame) as [mtype|]; [|discriminate].
  destruct (negb (mtype =? Message.RowData) && negb (mtype =? Message.NoData));
    [discriminate|].
  destruct (activate _ info d) as [info2 d1| |]; try discriminate.
  destruct (readInt32BE buffer (frame + 1)) as [n|]; [|discriminate].
  destruct info2 as [[h desc]|]; [|discriminate].
  destruct (Z.ltb_spec size (n + 1 + read)); [|discriminate].
  injection H as <- <-. simpl. lia.
Qed.

Lemma fast_frame_break (buffer : Buffer) (size frame read : Z) (info : Info)
  (d d' : Dispatch) (m f r : Z) :
  fast_frame buffer size frame read info d = Done (Leave (FBreak m f r)) d' ->
  f = frame /\ r = read /\ d' = d /\ readInt8 buffer frame = Some m.
Proof.
  unfold fast_frame. intros H.
  destruct (readInt8 buffer frame) as [mtype|]; [|discriminate].
  destruct (negb (mtype =? Message.RowData) && negb (mtype =? Message.NoData)).
  - injection H as <- <- <- <-. auto.
  - destruct (activate _ info d) as [info2 d1| |]; try discriminate.
    destruct (readInt32BE buffer (frame + 1)) as [n|]; [|discriminate].
    destruct info2 as [[h desc]|]; [|discriminate].
    destruct (size <? n + 1 + read); discriminate.
Qed.

Lemma fast_path_return (buffer : Buffer) (size : Z) (fuel : nat) :
  forall (frame read : Z) (info : Info) (d d' : Dispatch) (r : Z),
  frame = read ->
  fast_path fuel buffer size frame read info d = Done (FReturn r) d' ->
  size - r < expect d'.
Proof.
  induction fuel as [|fuel IH]; intros frame read info d d' r Hpos H;
    [discriminate|].
  simpl in H.
  destruct (fast_frame buffer size frame read info d) as [[e|f1 r1 i1] d1| |] eqn:Hff;
    try discriminate.
  - injection H as -> ->.
    apply fast_frame_return in Hff. lia.
  - pose proof (fast_frame_consumed _ _ _ _ _ _ _ _ _ _ Hff) as Hp.
    destruct (Z.ltb_spec size (f1 + 5)).
    + injection H as <- <-. simpl. lia.
    + apply (IH f1 r1 i1 d1); [lia|exact H].
Qed.

Lemma fast_path_break (buffer : Buffer) (size : Z) (fuel : nat) :
  forall (frame read : Z) (info : Info) (d d' : Dispatch) (m f r : Z),
  fast_path fuel buffer size frame read info d = Done (FBreak m f r) d' ->
  f - r = frame - read.
Proof.
  induction fuel as [|fuel IH]; intros frame read info d d' m f r H;
    [discriminate|].
  simpl in H.
  destruct (fast_frame buffer size frame read info d) as [[e|f1 r1 i1] d1| |] eqn:Hff;
    try discriminate.
  - injection H as -> ->.
    apply fast_frame_break in Hff. lia.
  - pose proof (fast_frame_consumed _ _ _ _ _ _ _ _ _ _ Hff) as Hp.
    destruct (size <? f1 + 5); [discriminate|].
    apply IH in H. lia.
Qed.

Lemma receive_loop_exit (buffer : Buffer) (size : Z) (fuel : nat) :
  forall (read : Z) (d d' : Dispatch) (r : Z),
  receive_loop fuel buffer 0 size read d = Done r d' ->
  size - r < expect d'.
Proof.
  induction fuel as [|fuel IH]; intros read d d' r H; [discriminate|].
  simpl in H.
  destruct (Z.leb_spec (expect d + read) size) as [Hle|Hgt].
  - unfold general_path in H.
    destruct (fast_path fuel buffer size read read (activeDataHandlerInfo d) d)
      as [[r1|m f1 r1] d1| |] eqn:Hfp; try discriminate.
    + injection H as <- <-.
      apply (fast_path_return _ _ _ _ _ _ _ _ _ eq_refl Hfp).
    + destruct (readInt32BE buffer (f1 + 1)) as [n|]; [|discriminate].
      destruct (Z.ltb_spec size (n - 4 + 5 + r1)).
      * injection H as <- <-. simpl. lia.
      * destruct (dispatch m buffer (f1 + 5) (n - 4) d1) as [[] d2| |];
          try discriminate.
        apply IH in H. exact H.
  - injection H as <- <-. lia.
Qed.

Lemma reassemble_length (c : Client) (chunk buf : Buffer) (off : Z) :
  coherent c ->
  reassemble c chunk = Some (buf, off) ->
  len buf = off + (len chunk + remaining c).
Proof.
  intros [Hbuf Hexp] Hre. unfold reassemble in Hre.
  destruct (buffer c) as [b|].
  - destruct (Z.eqb_spec (remaining c) 0) as [Hz|Hnz].
    + injection Hre as <- <-. lia.
    + destruct (Z.ltb_spec (len b - offset c - remaining c) (len chunk)) as [|Hge].
      * unfold allocUnsafe in Hre.
        destruct (Z.ltb_spec (len chunk + remaining c) 0); [discriminate|].
        destruct (copy b _ _ _ _) as [nb|] eqn:H1; [|discriminate].
        destruct (copy chunk _ _ _ _) as [nb'|] eqn:H2; [|discriminate].
        injection Hre as <- <-.
        apply copy_length in H1, H2. rewrite H2, H1.
        unfold len in *. rewrite repeat_length. lia.
      * destruct (copy chunk _ _ _ _) as [nb|] eqn:H1; [|discriminate].
        injection Hre as <- <-. apply copy_length in H1.
        pose proof (len_nonneg chunk). lia.
  - injection Hre as <- <-. lia.
Qed.

(** The coherence of a client is kept by every 'data' event that returns,
    whatever the bytes. *)
Lemma on_data_coherent (c c' : Client) (chunk : Buffer) :
  coherent c -> on_data c chunk = Next c' -> coherent c'.
Proof.
  intros Hc H. unfold on_data in H.
  destruct (reassemble c chunk) as [[buf off]|] eqn:Hre; [|discriminate].
  pose proof (reassemble_length _ _ _ _ Hc Hre) as Hlen.
  destruct (receive buf off (len chunk + remaining c) (disp c))
    as [read d| |] eqn:Hrcv; try discriminate.
  injection H as <-. unfold coherent. simpl.
  split; [lia|].
  destruct (Z.le_gt_cases (expect (disp c)) (len chunk + remaining c)) as [Hin|Hout].
  - pose proof (reassemble_offset _ _ _ _ Hc Hre Hin) as ->.
    apply receive_loop_exit in Hrcv. lia.
  - unfold receive in Hrcv. simpl in Hrcv.
    destruct (Z.leb_spec (expect (disp c) + 0) (len chunk + remaining c)); [lia|].
    injection Hrcv as <- <-. lia.
Qed.

Lemma init_coherent : coherent init.
Proof. unfold coherent, init. simpl. lia. Qed.

(** ** Event registration *)

Lemma on_data_events (c : Client) (chunk : Buffer) :
  events (client_of (on_data c chunk)) = events c.
Proof.
  unfold on_data.
  destruct (reassemble c chunk) as [[buf off]|]; [|reflexivity].
  destruct (receive buf off _ (disp c)); reflexivity.
Qed.

Lemma feed_chunk_events (c : Client) (chunk : Buffer) :
  events (client_of (feed_chunk c chunk)) = events c.
Proof.
  unfold feed_chunk. pose proof (on_data_events c chunk) as H.
  destruct (on_data c chunk); exact H.
Qed.

Lemma feed_events (chunks : list Buffer) :
  forall c, events (client_of (feed c chunks)) = events c.
Proof.
  induction chunks as [|chunk rest IH]; intros c; [reflexivity|].
  simpl. pose proof (feed_chunk_events c chunk) as H.
  destruct (feed_chunk c chunk) as [c'| |]; try exact H.
  rewrite IH. exact H.
Qed.

Lemma invocations_listener (ev : Events) (trace : list Output)
  (cb : Callback) (e : EventData) :
  In (cb, e) (invocations ev trace) -> In cb (listeners ev e).
Proof.
  unfold invocations. rewrite in_flat_map.
  intros [o [_ Ho]]. destruct o as [| |e'| |]; try contradiction.
  rewrite in_map_iff in Ho. destruct Ho as [cb' [Heq Hin]].
  injection Heq as -> ->. exact Hin.
Qed.

(** C9.  Registering a callback through [on] with the event name
    'parameter' changes nothing: the client is the same, so every later
    run is the same, and the callback is called with a parameter event
    only if it was among the parameter listeners before (which [on] never
    adds to). *)
Theorem on_parameter_is_noop
  (c : Client) (callback : Callback) (chunks : list Buffer) :
  on "parameter" callback c = c /\
  feed (on "parameter" callback c) chunks = feed c chunks /\
  (forall event cb, ev_parameter (events (on event cb c)) = ev_parameter (events c)) /\
  (forall name value,
     let after := client_of (feed (on "parameter" callback c) chunks) in
     In (callback, EvParameter name value)
        (invocations (events after) (out (disp after))) ->
     In callback (ev_parameter (events c))).
Proof.
  assert (Hnoop : on "parameter" callback c = c) by reflexivity.
  split; [exact Hnoop|]. split; [rewrite Hnoop; reflexivity|].
  split.
  - intros event cb. unfold on.
    destruct (String.eqb event "connect"); [reflexivity|].
    destruct (String.eqb event "end"); [reflexivity|].
    destruct (String.eqb event "error"); [reflexivity|].
    destruct (String.eqb event "notice"); reflexivity.
  - intros name value after Hin. subst after.
    apply invocations_listener in Hin. simpl in Hin.
    rewrite Hnoop, feed_events in Hin. exact Hin.
Qed.

(** ** The result stream *)

Lemma next_done (p : ResultIterator) (i : nat) :
  done p = true ->
  next p i =
  if (List.length (container p) <=? i)%nat then (Returned IterDone i, p)
  else (Returned (IterValue (nth_error (container p) i)) (S i), p).
Proof. intros H. unfold next. rewrite H. reflexivity. Qed.

Lemma skipn_nth_error {A : Type} (l : list A) (i : nat) (x : A) :
  nth_error l i = Some x -> skipn i l = x :: skipn (S i) l.
Proof.
  revert i. induction l as [|y l IH]; intros [|i] H; try discriminate.
  - injection H as ->. reflexivity.
  - simpl in H. apply IH in H. exact H.
Qed.

Lemma drain_done (p : ResultIterator) (fuel : nat) :
  done p = true ->
  forall i, (i <= List.length (container p))%nat ->
  (List.length (container p) - i < fuel)%nat ->
  drain fuel p i = (map Some (skipn i (container p)), DrainDone).
Proof.
  intros Hd. induction fuel as [|fuel IH]; intros i Hi Hf; [lia|].
  simpl. rewrite (next_done p i Hd).
  destruct (Nat.leb_spec (List.length (container p)) i) as [Hle|Hlt].
  - simpl. rewrite skipn_all2 by lia. reflexivity.
  - simpl. rewrite IH by lia.
    destruct (nth_error (container p) i) as [x|] eqn:Hn.
    + rewrite (skipn_nth_error _ _ _ Hn). reflexivity.
    + apply nth_error_None in Hn. lia.
Qed.

Lemma notify_settles (v : bool) (p : ResultIterator) (k : nat) :
  (k < List.length (subscribers p))%nat ->
  exists x, nth_error (subscribers (notify v p)) k = Some (Some x).
Proof.
  intros Hk. simpl. rewrite nth_error_map.
  destruct (nth_error (subscribers p) k) as [s|] eqn:Hn.
  - destruct s as [x|]; simpl; eauto.
  - apply nth_error_None in Hn. lia.
Qed.

(** C8.  On a result stream that has seen the end-of-stream sentinel, a
    consumer that starts iterating gets every buffered row once, in order,
    then the done signal, and no call of [next()] suspends or subscribes.
    A further sentinel leaves the stream completed with the same rows and
    the same resolved result, and still calls every subscriber there is,
    so that none is left pending. *)
Theorem completed_stream_never_suspends (p : ResultIterator) :
  done p = true ->
  (forall fuel, (List.length (container p) < fuel)%nat ->
     drain fuel p 0 = (map Some (container p), DrainDone)) /\
  (forall i, exists r i', next p i = (Returned r i', p)) /\
  (forall v, done (notify v p) = true) /\
  (done (onData None p) = true /\
   container (onData None p) = container p /\
   (forall ns, promise p = Some ns -> promise (onData None p) = Some ns)) /\
  (notify_calls true p
   = map (fun k => (k, true)) (seq 0 (List.length (subscribers p))) /\
   List.length (subscribers (onData None p)) = List.length (subscribers p) /\
   forall k, (k < List.length (subscribers p))%nat ->
     exists x, nth_error (subscribers (onData None p)) k = Some (Some x)).
Proof.
  intros Hd. repeat split.
  - intros fuel Hf. rewrite (drain_done p fuel Hd 0%nat) by lia. reflexivity.
  - intros i. rewrite (next_done p i Hd).
    destruct (List.length (container p) <=? i)%nat; eauto.
  - intros v. simpl. rewrite Hd. destruct v; reflexivity.
  - intros ns Hp. simpl. rewrite Hp. reflexivity.
  - simpl. apply length_map.
  - intros k Hk. unfold onData. apply notify_settles. exact Hk.
Qed.

(** ** A chunk after everything has been read *)

Lemma reassemble_nothing_unread (c : Client) (chunk : Buffer) :
  remaining c = 0 -> reassemble c chunk = Some (chunk, 0).
Proof.
  intros H. unfold reassemble. rewrite H.
  destruct (buffer c); reflexivity.
Qed.

(** ** Deliveries follow the registry *)



























(** ** The dispatcher as seen from outside

    The pieces of the dispatcher neither read the trace nor the pending
    ticks, and only [receive] reads [expect]: they commute with [normal]. *)

Lemma sync_output_app (t1 t2 : list Output) :
  sync_output (t1 ++ t2) = sync_output t1 ++ sync_output t2.
Proof. unfold sync_output. apply filter_app. Qed.

Lemma connects_app (t1 t2 : list Output) :
  connects (t1 ++ t2) = (connects t1 + connects t2)%nat.
Proof. unfold connects. rewrite filter_app, length_app. reflexivity. Qed.

Lemma connects_sync_output (t : list Output) : connects (sync_output t) = O.
Proof.
  unfold connects, sync_output. induction t as [|o t IH]; [reflexivity|].
  simpl. destruct (is_connect o) eqn:Ho; simpl; [exact IH|].
  rewrite Ho. exact IH.
Qed.

Lemma sync_output_idem (t : list Output) :
  sync_output (sync_output t) = sync_output t.
Proof.
  unfold sync_output. induction t as [|o t IH]; [reflexivity|].
  simpl. destruct (is_connect o) eqn:Ho; simpl; [exact IH|].
  rewrite Ho. simpl. f_equal. exact IH.
Qed.

Lemma normal_idem (d : Dispatch) : normal (normal d) = normal d.
Proof.
  unfold normal. simpl.
  rewrite connects_sync_output, sync_output_idem, Nat.add_0_r. reflexivity.
Qed.

Lemma normal_emit (o : Output) (d : Dispatch) :
  is_connect o = false -> normal (emit o d) = emit o (normal d).
Proof.
  intros Ho. unfold normal, emit. simpl.
  rewrite sync_output_app, connects_app.
  unfold sync_output at 2, connects at 2. simpl. rewrite Ho. simpl.
  rewrite Nat.add_0_r. reflexivity.
Qed.

Lemma normal_set_expect (e : Z) (d : Dispatch) : normal (set_expect e d) = normal d.
Proof. reflexivity. Qed.

Lemma normal_flush (d : Dispatch) : normal (flush d) = flush (normal d).
Proof.
  unfold flush. simpl.
  destruct (negb (ready d) || mustDrain d); [reflexivity|].
  destruct (send_result (sends d)).
  - change (normal (set_mustDrain true (set_sends (S (sends d)) (emit (Writer WSend) d))))
      with (set_mustDrain true (set_sends (S (sends d)) (normal (emit (Writer WSend) d)))).
    rewrite normal_emit by reflexivity. reflexivity.
  - change (normal (set_sends (S (sends d)) (emit (Writer WSend) d)))
      with (set_sends (S (sends d)) (normal (emit (Writer WSend) d))).
    rewrite normal_emit by reflexivity. reflexivity.
Qed.

Ltac push_normal :=
  repeat first
    [ rewrite normal_flush
    | rewrite normal_emit by reflexivity ];
  try reflexivity.

Lemma activate_normal (isNoData : bool) (info : Info) (d : Dispatch) :
  activate isNoData info (normal d) = step_map normal (activate isNoData info d).
Proof.
  unfold activate. destruct info as [i|]; [reflexivity|]. simpl.
  destruct (dataHandlers d) as [|h rest]; [reflexivity|].
  destruct isNoData; simpl.
  - f_equal. rewrite normal_emit by reflexivity. reflexivity.
  - destruct (rowDescriptions d); reflexivity.
Qed.

Lemma dispatch_normal (mtype : Z) (buffer : Buffer) (start length : Z)
  (d : Dispatch) :
  dispatch mtype buffer start length (normal d)
  = step_map normal (dispatch mtype buffer start length d).
Proof.
  unfold dispatch.
  repeat match goal with
         | |- context [if ?b then _ else _] => destruct b
         end.
  - destruct (readInt32BE buffer start) as [[|p|p]|]; simpl; try reflexivity.
    destruct p as [[|[]|]|[]|]; simpl; try reflexivity.
    f_equal. push_normal.
  - destruct (readInt32BE buffer start), (readInt32BE buffer (start + 4));
      reflexivity.
  - reflexivity.
  - simpl. destruct (activeDataHandlerInfo d) as [[h desc]|]; simpl; [|reflexivity].
    f_equal.
    change (normal (set_active None (emit (Deliver h None) d)))
      with (set_active None (normal (emit (Deliver h None) d))).
    push_normal.
  - reflexivity.
  - destruct (parseError _); simpl; try reflexivity. f_equal. push_normal.
  - destruct (parseError _); simpl; try reflexivity. f_equal. push_normal.
  - reflexivity.
  - destruct (readInt16BE buffer start) as [n|]; [|reflexivity]. simpl.
    destruct (preparedStatements d) as [|ps rest]; [reflexivity|].
    destruct (n <? 0); [reflexivity|].
    destruct (read_types buffer (start + 2) (Z.to_nat n)); [|reflexivity].
    simpl. f_equal. rewrite normal_flush. f_equal.
    destruct (ps_portal ps); push_normal.
  - simpl. f_equal. push_normal.
  - destruct (readInt8 buffer start); simpl; [|reflexivity].
    f_equal. rewrite normal_flush. reflexivity.
  - simpl. destruct (nameHandlers d); simpl; [reflexivity|].
    f_equal.
    match goal with
    | |- _ = normal (emit ?o ?x) => rewrite (normal_emit o x) by reflexivity
    end.
    reflexivity.
  - simpl. f_equal. push_normal.
Qed.

Lemma alike_refl (d : Dispatch) : alike d d.
Proof. reflexivity. Qed.

Lemma alike_sym (d d' : Dispatch) : alike d d' -> alike d' d.
Proof. unfold alike. congruence. Qed.

Lemma alike_trans (d1 d2 d3 : Dispatch) : alike d1 d2 -> alike d2 d3 -> alike d1 d3.
Proof. unfold alike. congruence. Qed.

Lemma alike_normal (d : Dispatch) : alike (normal d) d.
Proof. apply normal_idem. Qed.

Lemma alike_set_expect (e : Z) (d : Dispatch) : alike (set_expect e d) d.
Proof. reflexivity. Qed.

Lemma alike_active (d d' : Dispatch) :
  alike d d' -> activeDataHandlerInfo d = activeDataHandlerInfo d'.
Proof. intros H. apply (f_equal activeDataHandlerInfo) in H. exact H. Qed.

Lemma alike_emit (o : Output) (d d' : Dispatch) :
  is_connect o = false -> alike d d' -> alike (emit o d) (emit o d').
Proof.
  unfold alike. intros Ho H. rewrite !normal_emit by exact Ho. congruence.
Qed.

Lemma activate_alike (isNoData : bool) (d d' : Dispatch) :
  alike d d' ->
  step_map normal (activate isNoData (activeDataHandlerInfo d) d)
  = step_map normal (activate isNoData (activeDataHandlerInfo d') d').
Proof.
  intros H. rewrite <- (alike_active _ _ H).
  rewrite <- !activate_normal. rewrite H. reflexivity.
Qed.

Lemma step_frame_normal (f : Frame) (d : Dispatch) :
  step_map normal (step_frame f (normal d)) = step_map normal (step_frame f d).
Proof.
  unfold step_frame. destruct (rowish (tag f)).
  - change (activeDataHandlerInfo (normal d)) with (activeDataHandlerInfo d).
    rewrite activate_normal.
    destruct (activate _ (activeDataHandlerInfo d) d) as [[[h desc]|] d1| |];
      simpl; try reflexivity.
    + f_equal. rewrite !normal_emit by reflexivity. rewrite normal_idem.
      reflexivity.
    + rewrite normal_idem. reflexivity.
    + rewrite normal_idem. reflexivity.
    + rewrite normal_idem. reflexivity.
  - rewrite dispatch_normal.
    destruct (dispatch (tag f) (payload f) 0 (len (payload f)) d) as [[] d1| |];
      simpl; rewrite ?normal_set_expect, normal_idem; reflexivity.
Qed.

Lemma step_frame_alike (f : Frame) (d d' : Dispatch) :
  alike d d' ->
  step_map normal (step_frame f d) = step_map normal (step_frame f d').
Proof.
  intros H. rewrite <- (step_frame_normal f d), <- (step_frame_normal f d').
  rewrite H. reflexivity.
Qed.

Lemma run_frames_alike (fs : list Frame) :
  forall d d', alike d d' ->
  step_map normal (run_frames fs d) = step_map normal (run_frames fs d').
Proof.
  induction fs as [|f fs IH]; intros d d' H; simpl.
  - f_equal. exact H.
  - pose proof (step_frame_alike f d d' H) as Hs.
    destruct (step_frame f d) as [[] d1| |], (step_frame f d') as [[] d1'| |];
      simpl in Hs; try discriminate Hs; try exact Hs.
    apply IH. apply (f_equal state_of) in Hs. exact Hs.
Qed.

Lemma peek_alike (p : Buffer) (d d' : Dispatch) :
  alike d d' -> step_map normal (peek p d) = step_map normal (peek p d').
Proof.
  intros H. unfold peek. destruct p as [|t p]; [simpl; f_equal; exact H|].
  destruct ((5 <=? len (t :: p)) && rowish t); [|simpl; f_equal; exact H].
  pose proof (activate_alike (t =? Message.NoData) d d' H) as Ha.
  destruct (activate _ (activeDataHandlerInfo d) d) as [i1 d1| |],
           (activate _ (activeDataHandlerInfo d') d') as [i1' d1'| |];
    simpl in Ha; try discriminate Ha; simpl;
    apply (f_equal state_of) in Ha as Hst; simpl in Hst;
    first [ rewrite Hst; reflexivity
          | injection Ha as He _; rewrite He, Hst; reflexivity ].
Qed.

Lemma run_frames_app (fs1 fs2 : list Frame) (d : Dispatch) :
  run_frames (fs1 ++ fs2) d =
  match run_frames fs1 d with
  | Done _ d1 => run_frames fs2 d1
  | other => other
  end.
Proof.
  revert d. induction fs1 as [|f fs1 IH]; intros d; simpl; [reflexivity|].
  destruct (step_frame f d) as [[] d1| |]; [apply IH|reflexivity|reflexivity].
Qed.

(** ** Reading inside a frame *)

Lemma get_app_r (pre l : Buffer) (i : Z) :
  0 <= i -> get (pre ++ l) (len pre + i) = get l i.
Proof.
  intros Hi. unfold get, len.
  destruct (Z.ltb_spec (Z.of_nat (List.length pre) + i) 0); [lia|].
  destruct (Z.ltb_spec i 0); [lia|].
  rewrite nth_error_app2 by lia. f_equal. lia.
Qed.

Lemma get_app_l (l post : Buffer) (i : Z) :
  i < len l -> get (l ++ post) i = get l i.
Proof.
  intros Hi. unfold get, len in *.
  destruct (Z.ltb_spec i 0); [reflexivity|].
  apply nth_error_app1. lia.
Qed.

Lemma get_inside (pre l post : Buffer) (i : Z) :
  0 <= i < len l -> get (pre ++ l ++ post) (len pre + i) = get l i.
Proof.
  intros Hi. rewrite get_app_r by lia. apply get_app_l. lia.
Qed.

Lemma readInt8_inside (pre l post : Buffer) (i : Z) :
  0 <= i -> i + 1 <= len l ->
  readInt8 (pre ++ l ++ post) (len pre + i) = readInt8 l i.
Proof.
  intros H0 H1. unfold readInt8. rewrite get_inside by lia. reflexivity.
Qed.

Lemma readInt16BE_inside (pre l post : Buffer) (i : Z) :
  0 <= i -> i + 2 <= len l ->
  readInt16BE (pre ++ l ++ post) (len pre + i) = readInt16BE l i.
Proof.
  intros H0 H1. unfold readInt16BE.
  rewrite <- Z.add_assoc. rewrite !get_inside by lia. reflexivity.
Qed.

Lemma readInt32BE_inside (pre l post : Buffer) (i : Z) :
  0 <= i -> i + 4 <= len l ->
  readInt32BE (pre ++ l ++ post) (len pre + i) = readInt32BE l i.
Proof.
  intros H0 H1. unfold readInt32BE.
  rewrite <- !Z.add_assoc. rewrite !get_inside by lia. reflexivity.
Qed.

Lemma read_types_inside (pre l post : Buffer) (n : nat) :
  forall i, 0 <= i -> i + 4 * Z.of_nat n <= len l ->
  read_types (pre ++ l ++ post) (len pre + i) n = read_types l i n.
Proof.
  induction n as [|n IH]; intros i H0 H1; [reflexivity|].
  simpl. rewrite readInt32BE_inside by lia.
  rewrite <- Z.add_assoc. rewrite IH by lia. reflexivity.
Qed.

Lemma be32_digits (n : Z) :
  0 <= n < 2147483648 ->
  ((n / 16777216 mod 256 * 256 + n / 65536 mod 256) * 256
   + n / 256 mod 256) * 256 + n mod 256 = n.
Proof.
  intros Hn.
  assert (H3 : n / 16777216 mod 256 = n / 16777216).
  { apply Z.mod_small. split; [apply Z.div_pos; lia|].
    apply Z.div_lt_upper_bound; lia. }
  rewrite H3.
  pose proof (Z.div_mod n 256 ltac:(lia)) as E0.
  pose proof (Z.div_mod (n / 256) 256 ltac:(lia)) as E1.
  pose proof (Z.div_mod (n / 256 / 256) 256 ltac:(lia)) as E2.
  rewrite Z.div_div in E1, E2 by lia.
  rewrite Z.div_div in E2 by lia.
  change (256 * 256) with 65536 in *.
  change (65536 * 256) with 16777216 in *.
  lia.
Qed.

Lemma be32_read (n : Z) :
  0 <= n < 2147483648 -> readInt32BE (be32 n) 0 = Some n.
Proof.
  intros Hn. unfold readInt32BE, be32, get. simpl.
  rewrite (be32_digits n Hn).
  destruct (Z.leb_spec 2147483648 n); [lia|reflexivity].
Qed.

Lemma be32_length (n : Z) : len (be32 n) = 4.
Proof. reflexivity. Qed.

Lemma encode_frame_length (f : Frame) :
  len (encode_frame f) = 5 + len (payload f).
Proof.
  unfold encode_frame, len. cbn [be32 app List.length]. lia.
Qed.

Lemma wf_frame_tag (f : Frame) : wf_frame f = true -> 0 <= tag f < 128.
Proof.
  unfold wf_frame. rewrite !andb_true_iff. intros [[[H1 H2] _] _]. lia.
Qed.

Lemma wf_frame_size (f : Frame) :
  wf_frame f = true -> 0 <= 4 + len (payload f) < 2147483648.
Proof.
  unfold wf_frame. rewrite !andb_true_iff. intros [[_ H] _].
  pose proof (len_nonneg (payload f)). lia.
Qed.

(** The header of a frame, read in place. *)
Lemma read_header (pre rest : Buffer) (t n : Z) :
  0 <= t < 128 -> 0 <= n < 2147483648 ->
  readInt8 (pre ++ t :: be32 n ++ rest) (len pre) = Some t /\
  readInt32BE (pre ++ t :: be32 n ++ rest) (len pre + 1) = Some n.
Proof.
  intros Ht Hn. split.
  - unfold readInt8. rewrite <- (Z.add_0_r (len pre)), get_app_r by lia.
    unfold get. simpl. destruct (Z.leb_spec 128 t); [lia|reflexivity].
  - change (pre ++ t :: be32 n ++ rest) with (pre ++ [t] ++ be32 n ++ rest).
    rewrite app_assoc.
    replace (len pre + 1) with (len (pre ++ [t]) + 0)
      by (rewrite len_app; unfold len; simpl; lia).
    rewrite readInt32BE_inside by (rewrite ?be32_length; lia).
    apply be32_read. exact Hn.
Qed.

Lemma skipn_inside (pre l post : Buffer) (i : nat) :
  (i <= List.length l)%nat ->
  skipn (List.length pre + i) (pre ++ l ++ post) = skipn i l ++ post.
Proof.
  intros Hi. rewrite skipn_app.
  rewrite skipn_all2 by lia. simpl.
  replace (List.length pre + i - List.length pre)%nat with i by lia.
  rewrite skipn_app.
  replace (i - List.length l)%nat with O by lia. reflexivity.
Qed.

Lemma slice_inside (pre l post : Buffer) (a b : Z) :
  0 <= a <= b -> b <= len l ->
  slice (pre ++ l ++ post) (len pre + a) (len pre + b) = slice l a b.
Proof.
  intros Ha Hb. pose proof (len_nonneg pre). pose proof (len_nonneg post).
  rewrite !slice_in_range by (rewrite ?len_app; lia).
  replace (Z.to_nat (len pre + a)) with (List.length pre + Z.to_nat a)%nat
    by (unfold len; lia).
  rewrite skipn_inside by (unfold len in *; lia).
  replace (len pre + b - (len pre + a)) with (b - a) by lia.
  rewrite firstn_app.
  replace (Z.to_nat (b - a) - List.length (skipn (Z.to_nat a) l))%nat with O
    by (rewrite length_skipn; unfold len in *; lia).
  simpl. apply app_nil_r.
Qed.

Lemma slice_payload (pre l post : Buffer) :
  slice (pre ++ l ++ post) (len pre) (len pre + len l) = l.
Proof. apply slice_middle. Qed.

Lemma find0_app (l post : list Z) (k : nat) :
  find0 l = Some k -> find0 (l ++ post) = Some k.
Proof.
  revert k. induction l as [|x l IH]; simpl; intros k H; [discriminate|].
  destruct (x =? 0); [exact H|].
  destruct (find0 l) as [k'|]; [|discriminate].
  rewrite (IH k' eq_refl). exact H.
Qed.

Lemma indexOf0_inside (pre l post : Buffer) (i : Z) (k : nat) :
  0 <= i <= len l ->
  find0 (skipn (Z.to_nat i) l) = Some k ->
  indexOf0 (pre ++ l ++ post) (len pre + i) = len pre + i + Z.of_nat k /\
  indexOf0 l i = i + Z.of_nat k.
Proof.
  intros Hi Hk. unfold indexOf0. rewrite Hk.
  replace (Z.to_nat (len pre + i)) with (List.length pre + Z.to_nat i)%nat
    by (unfold len; lia).
  rewrite skipn_inside by (unfold len in *; lia).
  rewrite (find0_app _ post k Hk). auto.
Qed.

Lemma two_strings_inv (b : Buffer) :
  two_strings b = true ->
  exists i j, find0 b = Some i /\ find0 (skipn (S i) b) = Some j.
Proof.
  unfold two_strings. destruct (find0 b) as [i|]; [|discriminate].
  destruct (find0 (skipn (S i) b)) as [j|] eqn:Hj; [|discriminate].
  intros _. exists i, j. split; [reflexivity|exact Hj].
Qed.

(** The switch of the general path reads a well-formed frame's payload
    and nothing else. *)
Lemma dispatch_inside (f : Frame) (pre post : Buffer) (d : Dispatch) :
  wf_frame f = true ->
  dispatch (tag f) (pre ++ payload f ++ post) (len pre) (len (payload f)) d
  = dispatch (tag f) (payload f) 0 (len (payload f)) d.
Proof.
  intros Hwf. unfold wf_frame in Hwf. rewrite !andb_true_iff in Hwf.
  destruct Hwf as [_ Hwf].
  pose proof (len_nonneg (payload f)) as Hlen.
  assert (Hsl : slice (pre ++ payload f ++ post) (len pre)
                  (len pre + len (payload f))
                = slice (payload f) 0 (0 + len (payload f))).
  { rewrite slice_payload. simpl. rewrite slice_all. reflexivity. }
  assert (H32 : 4 <= len (payload f) ->
                readInt32BE (pre ++ payload f ++ post) (len pre)
                = readInt32BE (payload f) 0).
  { intros. rewrite <- (Z.add_0_r (len pre)). apply readInt32BE_inside; lia. }
  unfold dispatch. rewrite Hsl.
  destruct (Z.eqb_spec (tag f) Message.Authenticate) as [E|_].
  { apply Z.leb_le in Hwf. rewrite H32 by lia. reflexivity. }
  destruct (Z.eqb_spec (tag f) Message.BackendKeyData) as [E|_].
  { apply Z.leb_le in Hwf. rewrite H32 by lia.
    rewrite readInt32BE_inside by lia. reflexivity. }
  destruct (tag f =? Message.BindComplete); [reflexivity|].
  destruct (tag f =? Message.Close); [reflexivity|].
  destruct (tag f =? Message.CloseComplete); [reflexivity|].
  destruct (tag f =? Message.Error); [reflexivity|].
  destruct (tag f =? Message.Notice); [reflexivity|].
  destruct (tag f =? Message.ParseComplete); [reflexivity|].
  destruct (Z.eqb_spec (tag f) Message.ParameterDescription) as [E|_].
  { rewrite E in Hwf.
    change (Message.ParameterDescription =? Message.NoData) with false in Hwf.
    cbv iota in Hwf.
    destruct (readInt16BE (payload f) 0) as [n|] eqn:Hn; [|discriminate].
    rewrite andb_true_iff in Hwf. destruct Hwf as [Hn0 Hn1].
    apply Z.leb_le in Hn0, Hn1.
    assert (2 <= len (payload f)) by lia.
    rewrite <- (Z.add_0_r (len pre)) at 1.
    rewrite readInt16BE_inside by lia. rewrite Hn.
    destruct (preparedStatements d); [reflexivity|].
    destruct (n <? 0); [reflexivity|].
    rewrite read_types_inside by lia. reflexivity. }
  destruct (Z.eqb_spec (tag f) Message.ParameterStatus) as [E|_].
  { rewrite E in Hwf.
    change (Message.ParameterStatus =? Message.NoData) with false in Hwf.
    cbv iota in Hwf.
    destruct (two_strings_inv _ Hwf) as (i & j & Hi & Hj).
    pose proof (find0_bound _ _ Hi) as Hib.
    pose proof (find0_bound _ _ Hj) as Hjb. rewrite length_skipn in Hjb.
    destruct (indexOf0_inside pre (payload f) post 0 i ltac:(lia) Hi)
      as [Ha Hb].
    rewrite Z.add_0_r in Ha. rewrite Ha, Hb.
    destruct (indexOf0_inside pre (payload f) post (0 + Z.of_nat i + 1) j)
      as [Hc Hd].
    { unfold len. lia. }
    { replace (Z.to_nat (0 + Z.of_nat i + 1)) with (S i) by lia. exact Hj. }
    replace (len pre + Z.of_nat i + 1) with (len pre + (0 + Z.of_nat i + 1))
      by lia.
    rewrite Hc, Hd.
    rewrite <- (Z.add_0_r (len pre)) at 1.
    rewrite slice_inside by (unfold len in *; lia).
    replace (len pre + (0 + Z.of_nat i + 1) + Z.of_nat j)
      with (len pre + (0 + Z.of_nat i + 1 + Z.of_nat j)) by lia.
    rewrite slice_inside by (unfold len in *; lia).
    reflexivity. }
  destruct (Z.eqb_spec (tag f) Message.ReadyForQuery) as [E|_].
  { rewrite E in Hwf.
    change (Message.ReadyForQuery =? Message.NoData) with false in Hwf.
    cbv iota in Hwf. apply Z.leb_le in Hwf.
    rewrite <- (Z.add_0_r (len pre)).
    rewrite readInt8_inside by lia. reflexivity. }
  destruct (tag f =? Message.RowDescription); reflexivity.
Qed.

(** ** The fast path, frame by frame *)

Lemma activate_info (isNoData : bool) (d d1 : Dispatch) (info1 : Info) :
  activate isNoData (activeDataHandlerInfo d) d = Done info1 d1 ->
  info1 = activeDataHandlerInfo d1.
Proof.
  unfold activate.
  destruct (activeDataHandlerInfo d) as [i|] eqn:Hact.
  - intros H. injection H as <- <-. symmetry. exact Hact.
  - destruct (dataHandlers d) as [|h rest]; [discriminate|].
    destruct isNoData.
    + intros H. injection H as <- <-. simpl. symmetry. exact Hact.
    + simpl. destruct (rowDescriptions d) as [|desc descs]; [discriminate|].
      intros H. injection H as <- <-. reflexivity.
Qed.

Lemma activate_active (isNoData : bool) (d : Dispatch) :
  activeDataHandlerInfo d <> None ->
  activate isNoData (activeDataHandlerInfo d) d = Done (activeDataHandlerInfo d) d.
Proof.
  unfold activate. destruct (activeDataHandlerInfo d); [reflexivity|congruence].
Qed.

Lemma rowish_cases (t : Z) :
  rowish t = true -> t = Message.RowData \/ t = Message.NoData.
Proof.
  unfold rowish. rewrite orb_true_iff, !Z.eqb_eq. auto.
Qed.

Lemma wf_no_data (f : Frame) :
  wf_frame f = true -> tag f = Message.NoData -> payload f = [].
Proof.
  unfold wf_frame. rewrite !andb_true_iff. intros [_ H] E.
  rewrite E in H. simpl in H. apply Z.eqb_eq in H.
  destruct (payload f); [reflexivity|]. unfold len in H. simpl in H. lia.
Qed.

(** A whole row or "no data" frame at the front. *)
Lemma fast_frame_whole (f : Frame) (pre rest : Buffer) (d : Dispatch) :
  wf_frame f = true -> rowish (tag f) = true ->
  let buf := pre ++ encode_frame f ++ rest in
  fast_frame buf (len buf) (len pre) (len pre) (activeDataHandlerInfo d) d
  = match step_frame f d with
    | Done _ d1 =>
        Done (Consumed (len pre + len (encode_frame f))
                (len pre + len (encode_frame f)) (activeDataHandlerInfo d1)) d1
    | Raise e d1 => Raise e d1
    | Stuck d1 => Stuck d1
    end.
Proof.
  intros Hwf Hrow buf.
  pose proof (wf_frame_tag f Hwf) as Htag.
  pose proof (wf_frame_size f Hwf) as Hsize.
  pose proof (len_nonneg (payload f)) as Hp.
  pose proof (len_nonneg pre) as Hpre. pose proof (len_nonneg rest) as Hrest.
  assert (Hbuf : buf = pre ++ tag f :: be32 (4 + len (payload f))
                         ++ (payload f ++ rest)).
  { unfold buf, encode_frame. rewrite <- app_comm_cons, <- app_assoc.
    reflexivity. }
  destruct (read_header pre (payload f ++ rest) (tag f) (4 + len (payload f))
              Htag Hsize) as [H8 H32].
  rewrite <- Hbuf in H8, H32.
  unfold fast_frame, step_frame. rewrite H8, Hrow.
  assert (Hneg : negb (tag f =? Message.RowData) && negb (tag f =? Message.NoData)
                 = false).
  { unfold rowish in Hrow. destruct (tag f =? Message.RowData),
      (tag f =? Message.NoData); simpl in *; congruence. }
  rewrite Hneg.
  destruct (activate (tag f =? Message.NoData) (activeDataHandlerInfo d) d)
    as [info1 d1| |] eqn:Hact; try reflexivity.
  pose proof (activate_info _ _ _ _ Hact) as Hinfo.
  rewrite H32, encode_frame_length.
  assert (Hlen : len buf = len pre + (5 + len (payload f)) + len rest).
  { unfold buf. rewrite !len_app, encode_frame_length. lia. }
  destruct info1 as [[h desc]|].
  - destruct (Z.ltb_spec (len buf) (4 + len (payload f) + 1 + len pre)); [lia|].
    assert (Hsl : slice buf (len pre + 5) (len pre + (4 + len (payload f) + 1))
                  = payload f).
    { unfold buf, encode_frame.
      change (pre ++ (tag f :: be32 (4 + len (payload f)) ++ payload f) ++ rest)
        with (pre ++ ((tag f :: be32 (4 + len (payload f))) ++ payload f) ++ rest).
      rewrite <- (app_assoc _ (payload f) rest), app_assoc.
      apply slice_middle_at.
      - rewrite len_app. unfold len. simpl. lia.
      - lia. }
    rewrite Hsl. cbn [activeDataHandlerInfo emit]. rewrite <- Hinfo.
    replace (len pre + (4 + len (payload f) + 1))
      with (len pre + (5 + len (payload f))) by lia.
    reflexivity.
  - rewrite <- Hinfo.
    replace (len pre + (4 + len (payload f) + 1))
      with (len pre + (5 + len (payload f))) by lia.
    reflexivity.
Qed.

Lemma partial_header (p rest : Buffer) (f : Frame) :
  encode_frame f = p ++ rest -> 5 <= len p ->
  exists p', p = tag f :: be32 (4 + len (payload f)) ++ p' /\
             payload f = p' ++ rest.
Proof.
  unfold encode_frame. generalize (4 + len (payload f)). intros n.
  unfold be32. intros H Hlen.
  destruct p as [|x0 [|x1 [|x2 [|x3 [|x4 p']]]]];
    try (unfold len in Hlen; cbn [List.length] in Hlen; lia).
  cbn [app] in H. injection H as E0 E1 E2 E3 E4 H.
  exists p'. split; [|exact H].
  cbn [app]. congruence.
Qed.

Lemma frame_size_header (t n : Z) (rest : Buffer) :
  0 <= n < 2147483648 -> frame_size (t :: be32 n ++ rest) = n + 1.
Proof.
  intros Hn. unfold frame_size.
  change (t :: be32 n ++ rest) with ([t] ++ be32 n ++ rest).
  change 1 with (len [t] + 0).
  rewrite readInt32BE_inside by (rewrite ?be32_length; lia).
  rewrite be32_read by exact Hn. reflexivity.
Qed.

(** The header of a row whose rest has not arrived. *)
Lemma fast_frame_partial (f : Frame) (pre p rest : Buffer) (d : Dispatch) :
  wf_frame f = true -> rowish (tag f) = true ->
  encode_frame f = p ++ rest -> rest <> [] -> 5 <= len p ->
  let buf := pre ++ p in
  fast_frame buf (len buf) (len pre) (len pre) (activeDataHandlerInfo d) d
  = match peek p d with
    | Done _ d1 => Done (Leave (FReturn (len pre))) (set_expect (frame_size p) d1)
    | Raise e d1 => Raise e d1
    | Stuck d1 => Stuck d1
    end.
Proof.
  intros Hwf Hrow Henc Hrest Hlen buf.
  pose proof (wf_frame_tag f Hwf) as Htag.
  pose proof (wf_frame_size f Hwf) as Hsize.
  destruct (partial_header p rest f Henc Hlen) as (p' & Hp & Hpay).
  assert (Hlp : len (payload f) = len p' + len rest)
    by (rewrite Hpay, len_app; reflexivity).
  assert (Hrl : 0 < len rest).
  { destruct rest; [congruence|]. unfold len. simpl. lia. }
  pose proof (len_nonneg p') as Hp'.
  destruct (rowish_cases _ Hrow) as [Erow|Enod].
  2:{ rewrite (wf_no_data f Hwf Enod) in Hlp. unfold len at 1 in Hlp.
      simpl in Hlp. lia. }
  destruct (read_header pre p' (tag f) (4 + len (payload f)) Htag Hsize)
    as [H8 H32].
  rewrite <- Hp in H8, H32. fold buf in H8, H32.
  unfold fast_frame. rewrite H8.
  unfold peek. rewrite Hp at 1.
  assert (H5 : (5 <=? len p) = true) by (apply Z.leb_le; exact Hlen).
  rewrite H5, Hrow. cbn [andb].
  rewrite Erow.
  change (negb (Message.RowData =? Message.RowData)
          && negb (Message.RowData =? Message.NoData)) with false.
  cbv iota.
  destruct (activate (Message.RowData =? Message.NoData)
              (activeDataHandlerInfo d) d) as [info1 d1| |] eqn:Hact;
    try reflexivity.
  rewrite H32.
  assert (Hfs : frame_size p = 4 + len (payload f) + 1).
  { rewrite Hp. apply frame_size_header. exact Hsize. }
  rewrite Hfs.
  assert (Hpl : len p = 5 + len p').
  { rewrite Hp. unfold len. cbn [be32 app List.length]. lia. }
  destruct info1 as [[h desc]|].
  - destruct (Z.ltb_spec (len buf) (4 + len (payload f) + 1 + len pre));
      [reflexivity|].
    unfold buf in *. rewrite len_app in *. lia.
  - exfalso. unfold activate in Hact.
    destruct (activeDataHandlerInfo d); [discriminate|].
    destruct (dataHandlers d); [discriminate|].
    change (Message.RowData =? Message.NoData) with false in Hact.
    cbv iota in Hact.
    destruct (rowDescriptions _); discriminate.
Qed.

(** A frame of the general path at the front. *)
Lemma fast_frame_general (pre rest : Buffer) (t n : Z) (info : Info)
  (d : Dispatch) (size : Z) :
  0 <= t < 128 -> 0 <= n < 2147483648 -> rowish t = false ->
  fast_frame (pre ++ t :: be32 n ++ rest) size (len pre) (len pre) info d
  = Done (Leave (FBreak t (len pre) (len pre))) d.
Proof.
  intros Ht Hn Hrow.
  destruct (read_header pre rest t n Ht Hn) as [H8 _].
  unfold fast_frame. rewrite H8.
  unfold rowish in Hrow. apply orb_false_iff in Hrow. destruct Hrow as [-> ->].
  reflexivity.
Qed.

Lemma encode_cons (f : Frame) (fs : list Frame) :
  encode (f :: fs) = encode_frame f ++ encode fs.
Proof. reflexivity. Qed.

Lemma encode_app (fs1 fs2 : list Frame) :
  encode (fs1 ++ fs2) = encode fs1 ++ encode fs2.
Proof. unfold encode. apply flat_map_app. Qed.

Lemma encode_length (fs : list Frame) :
  5 * Z.of_nat (List.length fs) <= len (encode fs).
Proof.
  induction fs as [|f fs IH]; [unfold len; simpl; lia|].
  rewrite encode_cons, len_app, encode_frame_length.
  pose proof (len_nonneg (payload f)). simpl List.length. lia.
Qed.

(** The fast path does what [fast_spec] says. *)
Lemma fast_path_spec (fs : list Frame) :
  forall (fuel : nat) (pre p : Buffer) (d : Dispatch),
  all_wf fs -> partial_frame p ->
  fs <> [] \/ 5 <= len p ->
  (List.length fs < fuel)%nat ->
  let buf := pre ++ encode fs ++ p in
  fast_path fuel buf (len buf) (len pre) (len pre) (activeDataHandlerInfo d) d
  = fast_spec fs p d (len pre).
Proof.
  induction fs as [|f fs IH]; intros fuel pre p d Hwf Hpart Hhead Hfuel buf.
  - destruct Hhead as [Hne|H5]; [congruence|].
    destruct fuel as [|fuel]; [simpl in Hfuel; lia|].
    destruct Hpart as [->|(f & rest & Hf & Henc & Hrest)];
      [unfold len in H5; simpl in H5; lia|].
    destruct (partial_header p rest f Henc H5) as (p' & Hp & Hpay).
    unfold buf. cbn [encode flat_map app fast_path].
    destruct (rowish (tag f)) eqn:Hrow.
    + rewrite (fast_frame_partial f pre p rest d Hf Hrow Henc Hrest H5).
      subst p. cbn [fast_spec]. rewrite Hrow.
      destruct (peek _ d) as [[] d1| |]; reflexivity.
    + subst p. cbn [fast_spec].
      rewrite (fast_frame_general pre p' (tag f) _ _ d _
                 (wf_frame_tag f Hf) (wf_frame_size f Hf) Hrow).
      rewrite Hrow. reflexivity.
  - destruct fuel as [|fuel]; [simpl in Hfuel; lia|].
    inversion Hwf as [|? ? Hf Hwf']; subst.
    cbn [fast_path fast_spec].
    destruct (rowish (tag f)) eqn:Hrow.
    + unfold buf. rewrite encode_cons, <- app_assoc.
      pose proof (fast_frame_whole f pre (encode fs ++ p) d Hf Hrow) as Hff.
      cbv zeta in Hff. rewrite Hff.
      destruct (step_frame f d) as [[] d1| |]; try reflexivity.
      assert (Hlen : len (pre ++ encode_frame f ++ encode fs ++ p)
                     = len pre + len (encode_frame f) + len (encode fs ++ p)).
      { rewrite !len_app. lia. }
      rewrite Hlen.
      destruct (Z.ltb_spec (len pre + len (encode_frame f)
                            + len (encode fs ++ p))
                           (len pre + len (encode_frame f) + 5)) as [Hs|Hs];
        destruct (Z.ltb_spec (len (encode fs ++ p)) 5) as [Hs'|Hs'];
        try lia; [reflexivity|].
      specialize (IH fuel (pre ++ encode_frame f) p d1 Hwf' Hpart).
      cbv zeta in IH.
      rewrite <- !app_assoc, !len_app in IH.
      rewrite <- Hlen. rewrite !len_app.
      apply IH.
      * destruct fs as [|g fs]; [right|left; discriminate].
        simpl in Hs'. exact Hs'.
      * simpl in Hfuel. lia.
    + assert (Hb : buf = pre ++ tag f :: be32 (4 + len (payload f))
                             ++ (payload f ++ encode fs ++ p)).
      { unfold buf. rewrite encode_cons. unfold encode_frame.
        rewrite <- app_assoc, <- app_comm_cons, <- app_assoc. reflexivity. }
      rewrite Hb.
      rewrite (fast_frame_general pre _ (tag f) _ _ d _
                 (wf_frame_tag f Hf) (wf_frame_size f Hf) Hrow).
      reflexivity.
Qed.

(** ** The general path and the outer loop, frame by frame *)

Lemma set_expect_same (d : Dispatch) (e : Z) :
  expect d = e -> set_expect e d = d.
Proof. destruct d. simpl. intros ->. reflexivity. Qed.

(** A whole frame of the general path at the front. *)
Lemma general_whole (f : Frame) (pre rest : Buffer) (d : Dispatch)
  (continue : Z -> Dispatch -> Step Z) :
  wf_frame f = true ->
  let buf := pre ++ encode_frame f ++ rest in
  general_path continue buf (len buf)
    (Done (FBreak (tag f) (len pre) (len pre)) d)
  = match dispatch (tag f) (payload f) 0 (len (payload f)) d with
    | Raise e d2 => Raise e d2
    | Stuck d2 => Stuck d2
    | Done _ d2 => continue (len pre + len (encode_frame f)) (set_expect 5 d2)
    end.
Proof.
  intros Hwf buf.
  pose proof (wf_frame_tag f Hwf) as Htag.
  pose proof (wf_frame_size f Hwf) as Hsize.
  pose proof (len_nonneg (payload f)) as Hp.
  pose proof (len_nonneg rest) as Hrest.
  assert (Hbuf : buf = pre ++ tag f :: be32 (4 + len (payload f))
                         ++ (payload f ++ rest)).
  { unfold buf, encode_frame. rewrite <- app_comm_cons, <- app_assoc.
    reflexivity. }
  destruct (read_header pre (payload f ++ rest) (tag f) (4 + len (payload f))
              Htag Hsize) as [_ H32].
  rewrite <- Hbuf in H32.
  unfold general_path. rewrite H32.
  replace (4 + len (payload f) - 4) with (len (payload f)) by lia.
  assert (Hlen : len buf = len pre + (5 + len (payload f)) + len rest).
  { unfold buf. rewrite !len_app, encode_frame_length. lia. }
  destruct (Z.ltb_spec (len buf) (len (payload f) + 5 + len pre)); [lia|].
  assert (Hd : dispatch (tag f) buf (len pre + 5) (len (payload f)) d
               = dispatch (tag f) (payload f) 0 (len (payload f)) d).
  { assert (Hb2 : buf = (pre ++ tag f :: be32 (4 + len (payload f)))
                          ++ payload f ++ rest).
    { rewrite Hbuf. rewrite <- app_assoc. reflexivity. }
    rewrite Hb2.
    replace (len pre + 5)
      with (len (pre ++ tag f :: be32 (4 + len (payload f))))
      by (rewrite len_app; unfold len; cbn [be32 List.length]; lia).
    apply dispatch_inside. exact Hwf. }
  rewrite Hd, encode_frame_length.
  replace (len pre + (len (payload f) + 5)) with (len pre + (5 + len (payload f)))
    by lia.
  reflexivity.
Qed.

(** The header of a frame of the general path, the frame not being
    whole. *)
Lemma general_partial (f : Frame) (pre p rest : Buffer) (d : Dispatch)
  (continue : Z -> Dispatch -> Step Z) :
  wf_frame f = true ->
  encode_frame f = p ++ rest -> rest <> [] -> 5 <= len p ->
  let buf := pre ++ p in
  general_path continue buf (len buf)
    (Done (FBreak (tag f) (len pre) (len pre)) d)
  = Done (len pre) (set_expect (frame_size p) d).
Proof.
  intros Hwf Henc Hrest Hlen buf.
  pose proof (wf_frame_tag f Hwf) as Htag.
  pose proof (wf_frame_size f Hwf) as Hsize.
  destruct (partial_header p rest f Henc Hlen) as (p' & Hp & Hpay).
  assert (Hlp : len (payload f) = len p' + len rest)
    by (rewrite Hpay, len_app; reflexivity).
  assert (Hrl : 0 < len rest).
  { destruct rest; [congruence|]. unfold len. simpl. lia. }
  pose proof (len_nonneg p') as Hp'.
  destruct (read_header pre p' (tag f) (4 + len (payload f)) Htag Hsize)
    as [_ H32].
  rewrite <- Hp in H32. fold buf in H32.
  unfold general_path. rewrite H32.
  assert (Hfs : frame_size p = 4 + len (payload f) + 1).
  { rewrite Hp. apply frame_size_header. exact Hsize. }
  assert (Hpl : len p = 5 + len p').
  { rewrite Hp. unfold len. cbn [be32 app List.length]. lia. }
  rewrite Hfs.
  replace (4 + len (payload f) - 4 + 5) with (4 + len (payload f) + 1) by lia.
  destruct (Z.ltb_spec (len buf) (4 + len (payload f) + 1 + len pre));
    [reflexivity|].
  unfold buf in *. rewrite len_app in *. lia.
Qed.

Lemma tail_of_cons (f : Frame) (fs : list Frame) (p : Buffer) (d : Dispatch) :
  tail_of (f :: fs) p d =
  match step_frame f d with
  | Done _ d1 => tail_of fs p d1
  | other => other
  end.
Proof.
  unfold tail_of. simpl.
  destruct (step_frame f d) as [[] d1| |]; reflexivity.
Qed.

Lemma frame_size_whole (f : Frame) (rest : Buffer) :
  wf_frame f = true ->
  frame_size (encode_frame f ++ rest) = len (encode_frame f).
Proof.
  intros Hwf. unfold encode_frame.
  rewrite <- app_comm_cons, <- app_assoc.
  rewrite frame_size_header by (apply wf_frame_size; exact Hwf).
  change (tag f :: be32 (4 + len (payload f)) ++ payload f)
    with (encode_frame f).
  rewrite encode_frame_length. lia.
Qed.

Lemma short_stream (fs : list Frame) (p : Buffer) :
  len (encode fs ++ p) < 5 -> fs = [].
Proof.
  intros H. destruct fs as [|f fs]; [reflexivity|].
  rewrite encode_cons, !len_app, encode_frame_length in H.
  pose proof (len_nonneg (payload f)). pose proof (len_nonneg (encode fs)).
  pose proof (len_nonneg p). lia.
Qed.

Lemma general_meets_tail_nil : general_meets_tail [].
Proof.
  intros fuel pre p d _ Hpart [Hne|H5] _ buf; [congruence|].
  destruct Hpart as [->|(f & rest & Hf & Henc & Hrest)];
    [unfold len in H5; simpl in H5; lia|].
  destruct (partial_header p rest f Henc H5) as (p' & Hp & Hpay).
  unfold buf. cbn [encode flat_map app].
  unfold tail_of. cbn [run_frames]. unfold finish.
  destruct (Z.ltb_spec (len p) 5); [lia|].
  change (len []) with 0. rewrite Z.add_0_r.
  destruct (rowish (tag f)) eqn:Hrow.
  - assert (Hfs : fast_spec [] p d (len pre)
                  = match peek p d with
                    | Done _ d1 =>
                        Done (FReturn (len pre)) (set_expect (frame_size p) d1)
                    | Raise e d1 => Raise e d1
                    | Stuck d1 => Stuck d1
                    end).
    { rewrite Hp at 1. cbn [fast_spec]. rewrite Hrow. rewrite <- Hp.
      reflexivity. }
    rewrite Hfs.
    destruct (peek p d) as [[] d1| |]; reflexivity.
  - assert (Hpk : peek p d = Done tt d).
    { rewrite Hp. unfold peek. rewrite Hrow, andb_false_r. reflexivity. }
    rewrite Hpk. cbn [with_read].
    assert (Hfs : fast_spec [] p d (len pre)
                  = Done (FBreak (tag f) (len pre) (len pre)) d).
    { rewrite Hp. cbn [fast_spec]. rewrite Hrow. reflexivity. }
    rewrite Hfs.
    apply (general_partial f pre p rest d _ Hf Henc Hrest H5).
Qed.

Lemma loop_of_general (fs : list Frame) :
  general_meets_tail fs -> loop_meets_tail fs.
Proof.
  intros K fuel pre p d Hwf Hpart Haw Hfuel1 Hfuel buf.
  destruct fuel as [|fuel]; [lia|].
  cbn [receive_loop].
  assert (Hlen : len buf = len pre + len (encode fs ++ p)).
  { unfold buf. rewrite !len_app. reflexivity. }
  rewrite Hlen at 1.
  destruct (Z.leb_spec (expect d + len pre) (len pre + len (encode fs ++ p)))
    as [Hin|Hout].
  - assert (H5 : 5 <= len (encode fs ++ p)).
    { destruct Haw as [He|(H5 & _)]; lia. }
    assert (Hhead : fs <> [] \/ 5 <= len p).
    { destruct fs; [right; exact H5|left; discriminate]. }
    specialize (Hfuel ltac:(lia)).
    rewrite Z.add_0_l.
    pose proof (fast_path_spec fs fuel pre p d Hwf Hpart Hhead ltac:(lia))
      as Hfp.
    cbv zeta in Hfp. fold buf in Hfp. rewrite Hfp.
    apply K; auto. lia.
  - assert (Hnil : fs = []).
    { destruct Haw as [He|(H5 & He & _)].
      - apply (short_stream fs p). lia.
      - destruct fs as [|f fs]; [reflexivity|]. exfalso.
        inversion Hwf as [|? ? Hf _]; subst.
        rewrite encode_cons, <- app_assoc in He, Hout, H5.
        rewrite frame_size_whole in He by exact Hf.
        rewrite len_app in Hout.
        pose proof (len_nonneg (encode fs ++ p)). lia. }
    subst fs. cbn [encode flat_map app] in *.
    change (len []) with 0. rewrite Z.add_0_r.
    unfold tail_of. cbn [run_frames]. unfold finish.
    destruct Haw as [He|(H5 & He & Hact)].
    + destruct (Z.ltb_spec (len p) 5); [|lia].
      rewrite (set_expect_same d 5 He). reflexivity.
    + destruct (Z.ltb_spec (len p) 5); [lia|].
      assert (Hpk : peek p d = Done tt d).
      { unfold peek. destruct p as [|t p0]; [reflexivity|].
        destruct ((5 <=? len (t :: p0)) && rowish t) eqn:Hc; [|reflexivity].
        apply andb_true_iff in Hc. destruct Hc as [_ Hrow].
        rewrite (activate_active _ d (Hact t p0 eq_refl Hrow)). reflexivity. }
      rewrite Hpk. cbn [with_read].
      rewrite (set_expect_same d _ He). reflexivity.
Qed.

Lemma general_meets_tail_cons (f : Frame) (fs : list Frame) :
  general_meets_tail fs -> loop_meets_tail fs ->
  general_meets_tail (f :: fs).
Proof.
  intros K R fuel pre p d Hwf Hpart _ Hfuel buf.
  inversion Hwf as [|? ? Hf Hwf']; subst.
  simpl in Hfuel.
  assert (Hbuf : buf = (pre ++ encode_frame f) ++ encode fs ++ p).
  { unfold buf. rewrite encode_cons, <- !app_assoc. reflexivity. }
  assert (Hpos : len (pre ++ encode_frame f) = len pre + len (encode_frame f))
    by apply len_app.
  assert (Hend : len pre + len (encode (f :: fs))
                 = len (pre ++ encode_frame f) + len (encode fs)).
  { rewrite encode_cons, !len_app. lia. }
  rewrite tail_of_cons. cbn [fast_spec].
  destruct (rowish (tag f)) eqn:Hrow.
  - destruct (step_frame f d) as [[] d1| |] eqn:Hstep; try reflexivity.
    destruct (Z.ltb_spec (len (encode fs ++ p)) 5) as [Hshort|Hlong].
    + pose proof (short_stream fs p Hshort) as ->.
      cbn [encode flat_map app] in *.
      unfold tail_of. cbn [run_frames]. unfold finish.
      destruct (Z.ltb_spec (len p) 5); [|lia].
      cbn [general_path with_read].
      rewrite app_nil_r. reflexivity.
    + rewrite Hend, <- Hpos. rewrite Hbuf.
      apply K; auto.
      * destruct fs; [right; exact Hlong|left; discriminate].
      * lia.
  - unfold step_frame. rewrite Hrow.
    pose proof (general_whole f pre (encode fs ++ p) d
                  (receive_loop fuel buf 0 (len buf)) Hf) as Hg.
    cbv zeta in Hg.
    assert (Hb3 : pre ++ encode_frame f ++ encode fs ++ p = buf).
    { unfold buf. rewrite encode_cons, <- !app_assoc. reflexivity. }
    rewrite Hb3 in Hg. rewrite Hg.
    destruct (dispatch (tag f) (payload f) 0 (len (payload f)) d)
      as [[] d2| |]; try reflexivity.
    cbn [with_read]. rewrite Hend, <- Hpos. rewrite Hbuf.
    apply R; auto.
    + left. reflexivity.
    + lia.
    + intros _. lia.
Qed.

(** The outer loop on whole frames followed by the beginning of one. *)
Lemma loop_spec (fs : list Frame) : general_meets_tail fs /\ loop_meets_tail fs.
Proof.
  induction fs as [|f fs [K R]].
  - split; [|apply loop_of_general]; apply general_meets_tail_nil.
  - pose proof (general_meets_tail_cons f fs K R) as K'.
    split; [exact K'|apply loop_of_general; exact K'].
Qed.

(** ** Streams cut into chunks *)

Lemma head_prefix_partial (p : Buffer) (fs : list Frame) :
  all_wf fs -> head_prefix p fs -> partial_frame p.
Proof.
  intros Hwf [->|(f & fs' & rest & -> & Henc & Hrest)]; [left; reflexivity|].
  right. exists f, rest. inversion Hwf; subst. auto.
Qed.

(** A prefix of a stream of frames is some whole frames and the beginning
    of the next. *)
Lemma split_stream (fs : list Frame) :
  forall (u rest : Buffer),
  u ++ rest = encode fs ->
  exists fs1 fs2 p,
    fs = fs1 ++ fs2 /\ u = encode fs1 ++ p /\ p ++ rest = encode fs2 /\
    head_prefix p fs2.
Proof.
  induction fs as [|f fs IH]; intros u rest H.
  - apply app_eq_nil in H. destruct H as [-> ->].
    exists [], [], []. repeat split. left. reflexivity.
  - rewrite encode_cons in H.
    apply app_eq_app in H. destruct H as [l [[Hu Hr]|[Hf Hr]]].
    + destruct (IH l rest (eq_sym Hr)) as (fs1 & fs2 & p & -> & -> & Hp & Hhp).
      exists (f :: fs1), fs2, p. repeat split; auto.
      rewrite Hu, encode_cons, app_assoc. reflexivity.
    + destruct l as [|x l].
      * rewrite app_nil_r in Hf. simpl in Hr. subst rest.
        exists [f], fs, []. repeat split.
        -- rewrite <- Hf. unfold encode. simpl. rewrite !app_nil_r.
           reflexivity.
        -- left. reflexivity.
      * exists [], (f :: fs), u. repeat split.
        -- rewrite encode_cons, Hf, Hr, <- app_assoc. reflexivity.
        -- destruct u as [|y u]; [left; reflexivity|].
           right. exists f, fs, (x :: l). repeat split; [exact Hf|discriminate].
Qed.

(** ** Seeing a header ahead of its frame *)

Lemma peek_short (p : Buffer) (d : Dispatch) :
  len p < 5 -> peek p d = Done tt d.
Proof.
  intros H. unfold peek. destruct p as [|t p]; [reflexivity|].
  destruct (Z.leb_spec 5 (len (t :: p))); [lia|reflexivity].
Qed.

Lemma finish_normal (p : Buffer) (d : Dispatch) :
  step_map normal (finish p d) = step_map normal (peek p d).
Proof.
  unfold finish. destruct (Z.ltb_spec (len p) 5).
  - rewrite peek_short by assumption. reflexivity.
  - destruct (peek p d) as [[] d1| |]; reflexivity.
Qed.

Lemma tail_of_normal (fs : list Frame) (p : Buffer) (d : Dispatch) :
  step_map normal (tail_of fs p d) = step_map normal (peeked fs p d).
Proof.
  unfold tail_of, peeked.
  destruct (run_frames fs d) as [[] d1| |]; try reflexivity.
  apply finish_normal.
Qed.

Lemma peeked_alike (fs : list Frame) (p : Buffer) (d d' : Dispatch) :
  alike d d' ->
  step_map normal (peeked fs p d) = step_map normal (peeked fs p d').
Proof.
  intros H. unfold peeked.
  pose proof (run_frames_alike fs d d' H) as Hr.
  destruct (run_frames fs d) as [[] d1| |], (run_frames fs d') as [[] d1'| |];
    simpl in Hr; try discriminate Hr; try exact Hr.
  apply peek_alike. apply (f_equal state_of) in Hr. exact Hr.
Qed.

(** A strict prefix of five bytes or more of a row-path frame belongs to a
    row, not to "no data". *)
Lemma prefix_row (p rest : Buffer) (f : Frame) :
  wf_frame f = true -> encode_frame f = p ++ rest -> rest <> [] ->
  5 <= len p -> rowish (tag f) = true -> tag f = Message.RowData.
Proof.
  intros Hwf Henc Hrest H5 Hrow.
  destruct (rowish_cases _ Hrow) as [E|E]; [exact E|exfalso].
  pose proof (wf_no_data f Hwf E) as Hpay.
  apply (f_equal len) in Henc.
  rewrite encode_frame_length, Hpay, len_app in Henc.
  destruct rest; [congruence|]. unfold len in Henc at 1 3. simpl in Henc. lia.
Qed.

Lemma peek_head (p rest : Buffer) (f : Frame) (d : Dispatch) :
  wf_frame f = true -> encode_frame f = p ++ rest -> rest <> [] ->
  5 <= len p ->
  peek p d =
  if rowish (tag f) then
    match activate false (activeDataHandlerInfo d) d with
    | Done _ d1 => Done tt d1
    | Raise e d1 => Raise e d1
    | Stuck d1 => Stuck d1
    end
  else Done tt d.
Proof.
  intros Hwf Henc Hrest H5.
  destruct (partial_header p rest f Henc H5) as (p' & Hp & _).
  pose proof (prefix_row p rest f Hwf Henc Hrest H5) as Hrd.
  subst p. cbn [peek].
  destruct (Z.leb_spec 5 (len (tag f :: be32 (4 + len (payload f)) ++ p')));
    [|lia].
  cbn [andb].
  destruct (rowish (tag f)) eqn:Hrow; [|reflexivity].
  rewrite (Hrd eq_refl). reflexivity.
Qed.

Lemma activate_row_active (d d1 : Dispatch) (info1 : Info) :
  activate false (activeDataHandlerInfo d) d = Done info1 d1 ->
  activeDataHandlerInfo d1 <> None.
Proof.
  unfold activate.
  destruct (activeDataHandlerInfo d) as [i|] eqn:Hact.
  - intros H. injection H as _ <-. congruence.
  - destruct (dataHandlers d); [discriminate|].
    destruct (rowDescriptions _); [discriminate|].
    intros H. injection H as _ <-. simpl. discriminate.
Qed.

Lemma finish_awaits (p : Buffer) (d d' : Dispatch) :
  partial_frame p ->
  finish p d = Done tt d' -> awaits d' p.
Proof.
  intros Hpart. unfold finish.
  destruct (Z.ltb_spec (len p) 5) as [Hs|H5].
  - intros H. injection H as <-. left. reflexivity.
  - destruct Hpart as [->|(f & rest & Hf & Henc & Hrest)];
      [unfold len in H5; simpl in H5; lia|].
    rewrite (peek_head p rest f d Hf Henc Hrest H5).
    destruct (partial_header p rest f Henc H5) as (p' & Hp & _).
    destruct (rowish (tag f)) eqn:Hrow.
    + destruct (activate false (activeDataHandlerInfo d) d) as [i1 d1| |] eqn:Ha;
        try discriminate.
      intros H. injection H as <-. right.
      split; [exact H5|]. split; [reflexivity|].
      intros t rest0 _ _. simpl.
      apply (activate_row_active d d1 i1 Ha).
    + intros H. injection H as <-. right.
      split; [exact H5|]. split; [reflexivity|].
      intros t rest0 Ht Hr. rewrite Hp in Ht. injection Ht as <- _.
      congruence.
Qed.

(** The frame whose header was seen ahead does what it would have done. *)
Lemma step_frame_after_peek (p rest : Buffer) (f : Frame) (d : Dispatch) :
  wf_frame f = true -> encode_frame f = p ++ rest -> rest <> [] ->
  match peek p d with
  | Done _ dp => step_frame f dp = step_frame f d
  | Raise e d' => step_frame f d = Raise e d'
  | Stuck d' => step_frame f d = Stuck d'
  end.
Proof.
  intros Hwf Henc Hrest.
  destruct (Z.ltb_spec (len p) 5) as [Hs|H5].
  { rewrite peek_short by exact Hs. reflexivity. }
  rewrite (peek_head p rest f d Hwf Henc Hrest H5).
  destruct (rowish (tag f)) eqn:Hrow; [|reflexivity].
  pose proof (prefix_row p rest f Hwf Henc Hrest H5 Hrow) as Etag.
  unfold step_frame. rewrite Hrow, Etag.
  change (Message.RowData =? Message.NoData) with false.
  destruct (activate false (activeDataHandlerInfo d) d) as [i1 d1| |] eqn:Ha;
    try reflexivity.
  pose proof (activate_row_active d d1 i1 Ha) as Hne.
  pose proof (activate_info _ _ _ _ Ha) as Hi.
  rewrite (activate_active false d1 Hne). rewrite <- Hi. reflexivity.
Qed.

(** Seeing the header again changes nothing. *)
Lemma peek_again (p p' rest rest' : Buffer) (f : Frame) (d dp : Dispatch) :
  wf_frame f = true ->
  encode_frame f = p ++ rest -> rest <> [] ->
  encode_frame f = p' ++ rest' -> rest' <> [] ->
  len p <= len p' ->
  peek p d = Done tt dp -> peek p' dp = peek p' d.
Proof.
  intros Hwf Henc Hrest Henc' Hrest' Hle.
  destruct (Z.ltb_spec (len p) 5) as [Hs|H5].
  { rewrite peek_short by exact Hs. intros H. injection H as <-. reflexivity. }
  assert (H5' : 5 <= len p') by lia.
  rewrite (peek_head p rest f d Hwf Henc Hrest H5).
  rewrite !(peek_head p' rest' f _ Hwf Henc' Hrest' H5').
  destruct (rowish (tag f)) eqn:Hrow.
  - destruct (activate false (activeDataHandlerInfo d) d) as [i1 d1| |] eqn:Ha;
      try discriminate.
    intros H. injection H as <-.
    rewrite (activate_active false d1 (activate_row_active d d1 i1 Ha)).
    reflexivity.
  - intros H. injection H as <-. reflexivity.
Qed.

Lemma prefix_of_both (p ch p' rest : Buffer) (f : Frame) :
  p ++ ch = p' -> encode_frame f = p' ++ rest ->
  encode_frame f = p ++ (ch ++ rest) /\ len p <= len p'.
Proof.
  intros <- H. rewrite <- app_assoc in H. split; [exact H|].
  rewrite len_app. pose proof (len_nonneg ch). lia.
Qed.

(** What was done on seeing a header ahead is absorbed by what follows. *)
Lemma absorb (fs1 fs2 : list Frame) (p ch p' : Buffer) (d dp : Dispatch) :
  all_wf (fs1 ++ fs2) ->
  head_prefix p (fs1 ++ fs2) ->
  p ++ ch = encode fs1 ++ p' ->
  head_prefix p' fs2 ->
  peek p d = Done tt dp ->
  peeked fs1 p' dp = peeked fs1 p' d.
Proof.
  intros Hwf Hhp Hsplit Hhp' Hpeek.
  destruct Hhp as [->|(f & fs' & rest & Hfs & Henc & Hrest)].
  { simpl in Hpeek. injection Hpeek as <-. reflexivity. }
  destruct fs1 as [|g fs1].
  - simpl in Hfs, Hsplit. unfold peeked. cbn [run_frames].
    destruct Hhp' as [->|(f' & fs'' & rest' & Hfs' & Henc' & Hrest')].
    + destruct p; [|discriminate Hsplit].
      simpl in Hpeek. injection Hpeek as <-. reflexivity.
    + rewrite Hfs in Hfs'. injection Hfs' as <- <-.
      rewrite Hfs in Hwf. pose proof (Forall_inv Hwf) as Hf. simpl in Hf.
      destruct (prefix_of_both p ch p' rest' f Hsplit Henc') as [_ Hle].
      apply (peek_again p p' rest rest' f d dp Hf Henc Hrest Henc' Hrest' Hle
               Hpeek).
  - simpl in Hfs. injection Hfs as <- <-.
    pose proof (Forall_inv Hwf) as Hf. simpl in Hf.
    unfold peeked. cbn [run_frames].
    pose proof (step_frame_after_peek p rest g d Hf Henc Hrest) as Hs.
    rewrite Hpeek in Hs. rewrite Hs. reflexivity.
Qed.

Lemma peek_fails_frame (p : Buffer) (f : Frame) (fs : list Frame) (d : Dispatch) :
  all_wf (f :: fs) -> head_prefix p (f :: fs) ->
  match peek p d with
  | Done _ _ => True
  | Raise e d' => run_frames (f :: fs) d = Raise e d'
  | Stuck d' => run_frames (f :: fs) d = Stuck d'
  end.
Proof.
  intros Hwf [->|(g & fs' & rest & Hfs & Henc & Hrest)]; [exact I|].
  injection Hfs as <- <-. pose proof (Forall_inv Hwf) as Hf. simpl in Hf.
  pose proof (step_frame_after_peek p rest f d Hf Henc Hrest) as Hs.
  destruct (peek p d) as [[] dp| |]; [exact I| |]; simpl; rewrite Hs;
    reflexivity.
Qed.

(** ** A 'data' event, frame by frame *)

Lemma frame_size_app (p ch : Buffer) :
  5 <= len p -> frame_size (p ++ ch) = frame_size p.
Proof.
  intros H5. unfold frame_size, readInt32BE.
  rewrite !get_app_l by lia. reflexivity.
Qed.

Lemma awaits_extend (d : Dispatch) (p ch : Buffer) :
  awaits d p -> awaits d (p ++ ch).
Proof.
  intros [He|(H5 & He & Hact)]; [left; exact He|right].
  pose proof (len_nonneg ch).
  split; [rewrite len_app; lia|].
  split; [rewrite frame_size_app by exact H5; exact He|].
  intros t rest Ht Hr. destruct p as [|t0 p0];
    [unfold len in H5; simpl in H5; lia|].
  simpl in Ht. injection Ht as <- _. apply (Hact t0 p0 eq_refl Hr).
Qed.

Lemma slice_suffix (b x y : Buffer) (s e : Z) :
  0 <= s -> s <= e -> e <= len b ->
  slice b s e = x ++ y -> slice b (s + len x) e = y.
Proof.
  intros Hs He Hb H.
  assert (Hl : len (x ++ y) = e - s) by (rewrite <- H; apply slice_length; lia).
  rewrite len_app in Hl.
  pose proof (len_nonneg x). pose proof (len_nonneg y).
  rewrite slice_in_range in H by lia.
  rewrite slice_in_range by lia.
  replace (Z.to_nat (s + len x)) with (List.length x + Z.to_nat s)%nat
    by (unfold len; lia).
  rewrite <- skipn_skipn.
  rewrite firstn_skipn_comm.
  replace (List.length x + Z.to_nat (e - (s + len x)))%nat
    with (Z.to_nat (e - s)) by (unfold len in *; lia).
  rewrite H, skipn_app, skipn_all, Nat.sub_diag. reflexivity.
Qed.

Lemma unread_length (c : Client) : wf_region c -> len (unread c) = remaining c.
Proof.
  unfold wf_region, unread. destruct (buffer c) as [buf|].
  - intros (Ho & Hr & Hfit). rewrite slice_length by lia. lia.
  - intros ->. reflexivity.
Qed.

Lemma reassemble_offset_cases (c : Client) (chunk buf : Buffer) (off : Z) :
  wf_region c -> reassemble c chunk = Some (buf, off) -> 0 <= off.
Proof.
  unfold wf_region, reassemble. destruct (buffer c) as [b|].
  - intros (Ho & Hr & Hfit).
    destruct (remaining c =? 0); [intros H; injection H as _ <-; lia|].
    destruct (len b - offset c - remaining c <? len chunk).
    + destruct (allocUnsafe junk _); [|discriminate].
      destruct (copy b _ _ _ _); [|discriminate].
      destruct (copy chunk _ _ _ _); [|discriminate].
      intros H; injection H as _ <-; lia.
    + destruct (copy chunk _ _ _ _); [|discriminate].
      intros H; injection H as _ <-; lia.
  - intros _ H. injection H as _ <-. lia.
Qed.

Lemma receive_not_entered (buf : Buffer) (off size : Z) (d : Dispatch) :
  size < expect d -> receive buf off size d = Done 0 d.
Proof.
  intros H. unfold receive. cbn [receive_loop].
  destruct (Z.leb_spec (expect d + 0) size); [lia|reflexivity].
Qed.

(** [receive] on whole frames followed by the beginning of one. *)
Lemma receive_spec (fs : list Frame) (p : Buffer) (d : Dispatch) :
  all_wf fs -> partial_frame p -> awaits d (encode fs ++ p) ->
  receive (encode fs ++ p) 0 (len (encode fs ++ p)) d
  = with_read (len (encode fs)) (tail_of fs p d).
Proof.
  intros Hwf Hpart Haw. unfold receive.
  destruct (loop_spec fs) as [_ R].
  specialize (R (S (Z.to_nat (len (encode fs ++ p)))) [] p d Hwf Hpart Haw).
  cbv zeta in R. cbn [app] in R. change (len []) with 0 in R.
  rewrite Z.add_0_l in R. apply R; [lia|].
  intros Hin.
  assert (H5 : 5 <= len (encode fs ++ p)).
  { destruct Haw as [He|(H5 & _)]; lia. }
  pose proof (encode_length fs) as Hel.
  rewrite len_app in *. pose proof (len_nonneg p). lia.
Qed.

(** A 'data' event whose bytes complete the frames [fs] and begin the next
    with [p]. *)
Lemma on_data_spec (c : Client) (chunk : Buffer) (fs : list Frame) (p : Buffer) :
  coherent c -> wf_region c -> awaits (disp c) (unread c) ->
  all_wf fs -> partial_frame p ->
  unread c ++ chunk = encode fs ++ p ->
  match tail_of fs p (disp c) with
  | Done _ d' =>
      exists c', on_data c chunk = Next c' /\ disp c' = d' /\
                 unread c' = p /\ coherent c' /\ wf_region c' /\ awaits d' p
  | Raise e d' => exists c', on_data c chunk = Thrown e c' /\ disp c' = d'
  | Stuck d' => exists c', on_data c chunk = NoFuel c' /\ disp c' = d'
  end.
Proof.
  intros Hc Hwfr Haw Hwf Hpart Hu.
  destruct (reassemble_cases c chunk Hwfr) as (buf & off & Hre & Hslice & _).
  pose proof (reassemble_length c chunk buf off Hc Hre) as Hlen.
  pose proof (reassemble_offset_cases c chunk buf off Hwfr Hre) as Hoff.
  pose proof (unread_length c Hwfr) as Hul.
  set (size := len chunk + remaining c) in *.
  assert (Hsize : len (encode fs ++ p) = size).
  { rewrite <- Hu, len_app, Hul. unfold size. lia. }
  pose proof (awaits_extend _ _ chunk Haw) as Haw'. rewrite Hu in Haw'.
  assert (Hr : receive buf off size (disp c)
               = with_read (len (encode fs)) (tail_of fs p (disp c))).
  { rewrite <- (receive_spec fs p (disp c) Hwf Hpart Haw').
    destruct (Z.le_gt_cases (expect (disp c)) size) as [Hin|Hout].
    - pose proof (reassemble_offset c chunk buf off Hc Hre Hin) as ->.
      replace (remaining c + len chunk) with (len buf) in Hslice
        by (unfold size in Hlen; lia).
      simpl in Hslice. rewrite slice_all in Hslice.
      rewrite Hslice, Hu, Hsize. reflexivity.
    - rewrite !receive_not_entered by lia. reflexivity. }
  pose proof (len_nonneg (encode fs)) as Hef. pose proof (len_nonneg p) as Hp.
  unfold on_data. rewrite Hre. fold size. rewrite Hr.
  destruct (tail_of fs p (disp c)) as [[] d'| |] eqn:Htail; cbn [with_read].
  - eexists. split; [reflexivity|]. cbn [disp]. split; [reflexivity|].
    assert (Hun : unread (mkClient (Some buf) (off + len (encode fs))
                            (size - len (encode fs)) (events c) d') = p).
    { unfold unread. cbn [buffer offset remaining].
      replace (off + len (encode fs) + (size - len (encode fs)))
        with (off + size) by lia.
      assert (0 <= size) by (rewrite <- Hsize; apply len_nonneg).
      apply (slice_suffix buf (encode fs) p off (off + size)); try lia.
      rewrite <- Hu. rewrite <- Hslice. f_equal. unfold size. lia. }
    split; [exact Hun|].
    split.
    { apply (on_data_coherent c _ chunk Hc).
      unfold on_data. rewrite Hre. fold size. rewrite Hr. reflexivity. }
    split.
    { unfold wf_region. cbn [buffer offset remaining].
      rewrite len_app in Hsize. lia. }
    unfold tail_of in Htail.
    destruct (run_frames fs (disp c)) as [[] d1| |]; try discriminate.
    apply (finish_awaits p d1 d' Hpart Htail).
  - eexists. split; reflexivity.
  - eexists. split; reflexivity.
Qed.

(** ** Runs of 'data' events *)

Lemma connects_repeat (n : nat) : connects (repeat (Emit EvConnect) n) = n.
Proof.
  unfold connects. induction n as [|n IH]; [reflexivity|].
  simpl. rewrite IH. reflexivity.
Qed.

Lemma sync_output_repeat (n : nat) : sync_output (repeat (Emit EvConnect) n) = [].
Proof. unfold sync_output. induction n as [|n IH]; [reflexivity|exact IH]. Qed.

Lemma alike_run_ticks (d : Dispatch) : alike (run_ticks d) d.
Proof.
  unfold alike, normal, run_ticks. simpl.
  rewrite connects_app, connects_repeat, sync_output_app, sync_output_repeat.
  rewrite app_nil_r. f_equal. lia.
Qed.

Lemma encode_nil_inv (fs : list Frame) : encode fs = [] -> fs = [].
Proof.
  destruct fs as [|f fs]; [reflexivity|]. intros H.
  rewrite encode_cons in H. unfold encode_frame in H.
  rewrite <- app_comm_cons in H. discriminate H.
Qed.

Lemma dispatch_not_stuck (mtype : Z) (buffer : Buffer) (start length : Z)
  (d d' : Dispatch) :
  dispatch mtype buffer start length d <> Stuck d'.
Proof.
  unfold dispatch.
  repeat match goal with
         | |- context [if ?b then _ else _] => destruct b
         end;
    repeat match goal with
           | |- context [parseError ?b] =>
               rewrite (parseError_cases b);
               destruct (last_value TAG_V (fields b)) as [[|? ?]|];
               destruct (last_value TAG_C (fields b)) as [[|? ?]|];
               destruct (last_value TAG_M (fields b)) as [[|? ?]|]
           | |- context [match ?x with _ => _ end] => destruct x
           end;
    discriminate.
Qed.

Lemma step_frame_not_stuck (f : Frame) (d d' : Dispatch) :
  step_frame f d <> Stuck d'.
Proof.
  unfold step_frame. destruct (rowish (tag f)).
  - unfold activate.
    destruct (activeDataHandlerInfo d) as [[h desc]|]; [discriminate|].
    destruct (dataHandlers d); [discriminate|].
    destruct (tag f =? Message.NoData); [discriminate|]. simpl.
    destruct (rowDescriptions d); discriminate.
  - pose proof (dispatch_not_stuck (tag f) (payload f) 0 (len (payload f)) d).
    destruct (dispatch (tag f) (payload f) 0 (len (payload f)) d);
      congruence.
Qed.

Lemma run_frames_not_stuck (fs : list Frame) :
  forall d d', run_frames fs d <> Stuck d'.
Proof.
  induction fs as [|f fs IH]; intros d d'; simpl; [discriminate|].
  pose proof (step_frame_not_stuck f d).
  destruct (step_frame f d) as [[] d1| |]; [apply IH|discriminate|congruence].
Qed.

Lemma tick_keeps (c : Client) (p : Buffer) :
  (coherent c -> coherent (tick c)) /\
  (wf_region c -> wf_region (tick c)) /\
  unread (tick c) = unread c /\
  (awaits (disp c) p -> awaits (disp (tick c)) p) /\
  alike (disp (tick c)) (disp c).
Proof.
  split; [intros H; exact H|]. split; [intros H; exact H|].
  split; [reflexivity|]. split; [intros H; exact H|].
  apply alike_run_ticks.
Qed.

(** A run of 'data' events shows what the frames, taken one by one, come
    to. *)
Lemma feed_spec (chunks : list Buffer) :
  forall (c : Client) (fs : list Frame) (p : Buffer) (dspec dp : Dispatch),
  coherent c -> wf_region c -> unread c = p -> awaits (disp c) p ->
  all_wf fs -> head_prefix p fs -> p ++ List.concat chunks = encode fs ->
  peek p dspec = Done tt dp -> alike (disp c) dp ->
  observe (feed c chunks) = observe_step (run_frames fs dspec).
Proof.
  induction chunks as [|ch rest IH];
    intros c fs p dspec dp Hc Hwfr Hun Haw Hwf Hhp Hstream Hpeek Hal.
  - simpl in Hstream. rewrite app_nil_r in Hstream.
    assert (Hfs : fs = [] /\ p = []).
    { destruct Hhp as [->|(f & fs' & r & -> & Henc & Hr)].
      - split; [|reflexivity]. apply encode_nil_inv. symmetry. exact Hstream.
      - exfalso. rewrite encode_cons, Henc in Hstream.
        apply (f_equal len) in Hstream. rewrite !len_app in Hstream.
        pose proof (len_nonneg (encode fs')).
        destruct r; [congruence|]. unfold len in Hstream at 3.
        simpl in Hstream. lia. }
    destruct Hfs as [-> ->]. simpl in Hpeek. injection Hpeek as <-.
    simpl. f_equal. exact Hal.
  - simpl in Hstream. rewrite app_assoc in Hstream.
    destruct (split_stream fs (p ++ ch) (List.concat rest) Hstream)
      as (fs1 & fs2 & p' & Hfs & Hsplit & Hrest & Hhp').
    subst fs. apply Forall_app in Hwf as Hwf12. destruct Hwf12 as [Hwf1 Hwf2].
    pose proof (head_prefix_partial p' fs2 Hwf2 Hhp') as Hpart'.
    rewrite <- Hun in Hsplit.
    pose proof (on_data_spec c ch fs1 p' Hc Hwfr
                  ltac:(rewrite Hun; exact Haw) Hwf1 Hpart' Hsplit) as Hod.
    rewrite Hun in Hsplit.
    assert (Hn : step_map normal (tail_of fs1 p' (disp c))
                 = step_map normal (peeked fs1 p' dspec)).
    { rewrite tail_of_normal, (peeked_alike fs1 p' _ _ Hal).
      rewrite (absorb fs1 fs2 p ch p' dspec dp Hwf Hhp Hsplit Hhp' Hpeek).
      reflexivity. }
    rewrite run_frames_app. cbn [feed]. unfold feed_chunk.
    unfold peeked in Hn.
    destruct (tail_of fs1 p' (disp c)) as [[] d'|e d'|d'].
    + destruct Hod as (c' & Hod & Hd & Hun' & Hc' & Hwfr' & Haw').
      rewrite Hod.
      destruct (run_frames fs1 dspec) as [[] d1| |]; try discriminate Hn.
      destruct (peek p' d1) as [[] dq| |] eqn:Hpq; try discriminate Hn.
      apply (f_equal state_of) in Hn. simpl in Hn.
      destruct (tick_keeps c' p') as (Tc & Tw & Tu & Ta & Tal).
      subst d'.
      apply (IH (tick c') fs2 p' d1 dq); auto.
      unfold alike in *. rewrite Tal. exact Hn.
    + destruct Hod as (c' & Hod & Hd). rewrite Hod. cbn [observe].
      subst d'.
      destruct (run_frames fs1 dspec) as [[] d1| |]; try discriminate Hn.
      * destruct fs2 as [|f2 fs2].
        { destruct Hhp' as [->|(? & ? & ? & Hx & _)]; [|discriminate Hx].
          simpl in Hn. discriminate Hn. }
        pose proof (peek_fails_frame p' f2 fs2 d1 Hwf2 Hhp') as Hpf.
        destruct (peek p' d1) as [[] dq| |]; try discriminate Hn.
        rewrite Hpf. cbn [observe_step].
        apply (f_equal state_of) in Hn as Hst. simpl in Hst.
        injection Hn as He _. rewrite He, Hst. reflexivity.
      * cbn [observe_step].
        apply (f_equal state_of) in Hn as Hst. simpl in Hst.
        injection Hn as He _. rewrite He, Hst. reflexivity.
    + destruct Hod as (c' & Hod & Hd). rewrite Hod. cbn [observe].
      destruct (run_frames fs1 dspec) as [[] d1| |]; try discriminate Hn.
      * destruct fs2 as [|f2 fs2].
        { destruct Hhp' as [->|(? & ? & ? & Hx & _)]; [|discriminate Hx].
          simpl in Hn. discriminate Hn. }
        pose proof (peek_fails_frame p' f2 fs2 d1 Hwf2 Hhp') as Hpf.
        destruct (peek p' d1) as [[] dq| |]; try discriminate Hn.
        rewrite Hpf. reflexivity.
      * reflexivity.
Qed.

Lemma observe_feed_nothing_unread (c : Client) (chunks : list Buffer) :
  remaining c = 0 ->
  observe (feed c chunks)
  = observe (feed (mkClient None 0 0 (events c) (disp c)) chunks).
Proof.
  intros Hrem. destruct chunks as [|ch rest]; [reflexivity|].
  cbn [feed]. unfold feed_chunk, on_data.
  rewrite !reassemble_nothing_unread by (try exact Hrem; reflexivity).
  cbn [remaining events disp]. rewrite Hrem. reflexivity.
Qed.

Lemma observe_feed_frames (c : Client) (fs : list Frame) (chunks : list Buffer) :
  remaining c = 0 -> expect (disp c) = 5 -> all_wf fs ->
  List.concat chunks = encode fs ->
  observe (feed c chunks) = observe_step (run_frames fs (disp c)).
Proof.
  intros Hrem Hexp Hwf Hcat.
  rewrite (observe_feed_nothing_unread c chunks Hrem).
  apply (feed_spec chunks (mkClient None 0 0 (events c) (disp c)) fs []
           (disp c) (disp c)).
  - split; [reflexivity|]. cbn [remaining disp]. lia.
  - reflexivity.
  - reflexivity.
  - left. exact Hexp.
  - exact Hwf.
  - left. reflexivity.
  - exact Hcat.
  - reflexivity.
  - apply alike_refl.
Qed.


(** ** The "no data" path *)


(** ** Properties kept by [receive], whatever the bytes *)

Lemma fast_frame_info (buffer : Buffer) (size frame read : Z) (d d2 : Dispatch)
  (f r : Z) (info1 : Info) :
  fast_frame buffer size frame read (activeDataHandlerInfo d) d
  = Done (Consumed f r info1) d2 ->
  info1 = activeDataHandlerInfo d2.
Proof.
  unfold fast_frame.
  destruct (readInt8 buffer frame) as [mtype|]; [|discriminate].
  destruct (negb (mtype =? Message.RowData) && negb (mtype =? Message.NoData));
    [discriminate|].
  destruct (activate (mtype =? Message.NoData) (activeDataHandlerInfo d) d)
    as [info' d1|e d1|d1] eqn:Ha; try discriminate.
  apply activate_info in Ha.
  destruct (readInt32BE buffer (frame + 1)) as [n|]; [|discriminate].
  destruct info' as [[h desc]|].
  - destruct (size <? n + 1 + read); [discriminate|].
    intros H. injection H as _ _ Hi Hd. subst. simpl. exact Ha.
  - intros H. injection H as _ _ Hi Hd. subst. exact Ha.
Qed.

Section Keeps.

Variables Inv Broken : Dispatch -> Prop.

Hypothesis Inv_broken : forall d, Inv d -> Broken d.
Hypothesis Inv_expect : forall e d, Inv d -> Inv (set_expect e d).
Hypothesis Inv_activate : forall isNoData d,
  Inv d -> kept Inv Broken (activate isNoData (activeDataHandlerInfo d) d).
Hypothesis Inv_row : forall h desc row d,
  activeDataHandlerInfo d = Some (h, desc) ->
  Inv d -> Inv (emit (Deliver h (Some row)) d).
Hypothesis Inv_dispatch : forall mtype buffer start length d,
  Inv d -> kept Inv Broken (dispatch mtype buffer start length d).

Lemma kept_fast_frame (buffer : Buffer) (size frame read : Z) (d : Dispatch) :
  Inv d ->
  kept Inv Broken (fast_frame buffer size frame read (activeDataHandlerInfo d) d).
Proof.
  intros Hd. unfold fast_frame.
  destruct (readInt8 buffer frame) as [mtype|]; [|simpl; auto].
  destruct (negb (mtype =? Message.RowData) && negb (mtype =? Message.NoData));
    [simpl; auto|].
  pose proof (Inv_activate (mtype =? Message.NoData) d Hd) as Hk.
  destruct (activate (mtype =? Message.NoData) (activeDataHandlerInfo d) d)
    as [info' d1|e d1|d1] eqn:Ha; simpl in Hk |- *; auto.
  apply activate_info in Ha.
  destruct (readInt32BE buffer (frame + 1)) as [n|]; [|simpl; auto].
  destruct info' as [[h desc]|]; [|simpl; auto].
  destruct (size <? n + 1 + read); simpl.
  - apply Inv_expect. exact Hk.
  - apply (Inv_row h desc); [symmetry; exact Ha | exact Hk].
Qed.

Lemma kept_fast_path (buffer : Buffer) (size : Z) (fuel : nat) :
  forall (frame read : Z) (d : Dispatch),
  Inv d ->
  kept Inv Broken (fast_path fuel buffer size frame read (activeDataHandlerInfo d) d).
Proof.
  induction fuel as [|fuel IH]; intros frame read d Hd; simpl; [exact I|].
  pose proof (kept_fast_frame buffer size frame read d Hd) as Hk.
  destruct (fast_frame buffer size frame read (activeDataHandlerInfo d) d)
    as [[e|frame' read' info1] d1|e d1|d1] eqn:Hf; simpl in Hk |- *; auto.
  apply fast_frame_info in Hf. subst info1.
  destruct (size <? frame' + 5); simpl.
  - apply Inv_expect. exact Hk.
  - apply IH. exact Hk.
Qed.

Lemma kept_general_path (continue : Z -> Dispatch -> Step Z) (buffer : Buffer)
  (size : Z) (fast : Step FastExit) :
  (forall r d, Inv d -> kept Inv Broken (continue r d)) ->
  kept Inv Broken fast ->
  kept Inv Broken (general_path continue buffer size fast).
Proof.
  intros Hc Hk. unfold general_path.
  destruct fast as [[read1|mtype frame1 read1] d1|e d1|d1]; simpl in Hk |- *; auto.
  destruct (readInt32BE buffer (frame1 + 1)) as [n|]; [|simpl; auto].
  destruct (size <? n - 4 + 5 + read1); simpl.
  - apply Inv_expect. exact Hk.
  - pose proof (Inv_dispatch mtype buffer (frame1 + 5) (n - 4) d1 Hk) as Hd.
    destruct (dispatch mtype buffer (frame1 + 5) (n - 4) d1) as [u d2|e d2|d2];
      simpl in Hd |- *; auto.
Qed.

Lemma kept_receive_loop (buffer : Buffer) (offset size : Z) (fuel : nat) :
  forall (read : Z) (d : Dispatch),
  Inv d -> kept Inv Broken (receive_loop fuel buffer offset size read d).
Proof.
  induction fuel as [|fuel IH]; intros read d Hd; simpl; [exact I|].
  destruct (expect d + read <=? size); [|simpl; exact Hd].
  apply kept_general_path.
  - intros r d' Hd'. apply IH. exact Hd'.
  - apply kept_fast_path. exact Hd.
Qed.

Lemma kept_on_data (c : Client) (chunk : Buffer) :
  Inv (disp c) -> kept_outcome Inv Broken (on_data c chunk).
Proof.
  intros Hd. unfold on_data.
  destruct (reassemble c chunk) as [[buf off]|]; [|simpl; auto].
  pose proof (kept_receive_loop buf off (len chunk + remaining c)
                (S (Z.to_nat (len chunk + remaining c))) 0 (disp c) Hd) as Hk.
  unfold receive.
  destruct (receive_loop (S (Z.to_nat (len chunk + remaining c))) buf off
              (len chunk + remaining c) 0 (disp c)); simpl in Hk |- *; exact Hk.
Qed.

Hypothesis Inv_ticks : forall d, Inv d -> Inv (run_ticks d).

Lemma kept_feed_chunk (c : Client) (chunk : Buffer) :
  Inv (disp c) -> kept_outcome Inv Broken (feed_chunk c chunk).
Proof.
  intros Hd. unfold feed_chunk.
  pose proof (kept_on_data c chunk Hd) as Hk.
  destruct (on_data c chunk) as [c'|e c'|c']; simpl in Hk |- *; auto.
Qed.

End Keeps.

(** ** The order of name deliveries *)

Lemma names_called_app (t1 t2 : list Output) :
  names_called (t1 ++ t2) = names_called t1 ++ names_called t2.
Proof. unfold names_called. apply flat_map_app. Qed.

Lemma names_called_repeat_connect (n : nat) :
  names_called (repeat (Emit EvConnect) n) = [].
Proof. induction n as [|n IH]; simpl; auto. Qed.

Ltac same_names :=
  first
    [ assumption
    | exact I
    | simpl; rewrite ?names_called_app; simpl; rewrite ?app_nil_r; assumption ].

Lemma names_flush (hs : list NameHandler) (d : Dispatch) :
  names_called (out d) ++ nameHandlers d = hs ->
  names_called (out (flush d)) ++ nameHandlers (flush d) = hs.
Proof.
  intros H. unfold flush.
  destruct (negb (ready d) || mustDrain d); [exact H|].
  destruct (send_result (sends d)); same_names.
Qed.

Lemma names_activate (hs : list NameHandler) (isNoData : bool) (d : Dispatch) :
  names_called (out d) ++ nameHandlers d = hs ->
  let Inv := fun d' => names_called (out d') ++ nameHandlers d' = hs in
  kept Inv Inv (activate isNoData (activeDataHandlerInfo d) d).
Proof.
  intros H Inv. unfold activate.
  destruct (activeDataHandlerInfo d) as [[h desc]|]; [exact H|].
  destruct (dataHandlers d) as [|handler rest]; [exact H|].
  destruct isNoData; unfold kept, Inv.
  - same_names.
  - simpl. destruct (rowDescriptions d); same_names.
Qed.

Lemma names_dispatch (hs : list NameHandler) (mtype : Z) (buffer : Buffer)
  (start length : Z) (d : Dispatch) :
  names_called (out d) ++ nameHandlers d = hs ->
  let Inv := fun d' => names_called (out d') ++ nameHandlers d' = hs in
  kept Inv Inv (dispatch mtype buffer start length d).
Proof.
  intros H Inv. unfold dispatch, Inv.
  repeat match goal with
         | |- context [if ?b then _ else _] => destruct b
         end.
  - destruct (readInt32BE buffer start) as [[|p|p]|]; simpl; try same_names.
    destruct p as [[|[]|]|[]|]; simpl; same_names.
  - destruct (readInt32BE buffer start), (readInt32BE buffer (start + 4));
      simpl; same_names.
  - exact H.
  - destruct (activeDataHandlerInfo d) as [[h desc]|]; simpl; same_names.
  - exact H.
  - destruct (parseError _); simpl; same_names.
  - destruct (parseError _); simpl; same_names.
  - exact H.
  - destruct (readInt16BE buffer start) as [n|]; [|exact H].
    destruct (preparedStatements d) as [|ps rest]; [exact H|].
    destruct (n <? 0); [simpl; same_names|].
    destruct (read_types buffer (start + 2) (Z.to_nat n)); [|simpl; same_names].
    simpl. apply names_flush.
    destruct (ps_portal ps); same_names.
  - simpl. same_names.
  - destruct (readInt8 buffer start); simpl; [|exact H].
    apply names_flush. same_names.
  - simpl. destruct (nameHandlers d) as [|handler rest] eqn:Hn; simpl.
    + rewrite Hn. exact H.
    + rewrite names_called_app. simpl. rewrite <- app_assoc. exact H.
  - simpl. same_names.
Qed.

Lemma names_feed_chunk (hs : list NameHandler) (c : Client) (chunk : Buffer) :
  names_called (out (disp c)) ++ nameHandlers (disp c) = hs ->
  let Inv := fun d' => names_called (out d') ++ nameHandlers d' = hs in
  kept_outcome Inv Inv (feed_chunk c chunk).
Proof.
  intros H Inv.
  apply kept_feed_chunk; unfold Inv; auto.
  - intros isNoData d Hd. apply (names_activate hs isNoData d Hd).
  - intros h desc row d _ Hd. same_names.
  - intros mtype buffer start length d Hd.
    apply (names_dispatch hs mtype buffer start length d Hd).
  - intros d Hd. simpl. rewrite names_called_app, names_called_repeat_connect.
    rewrite app_nil_r. exact Hd.
Qed.

(** X1.  Whatever bytes arrive and whenever queries are issued, as long as
    no handler throws, the name-consumers called so far followed by those
    still pending are the ones registered, in the order of registration:
    each is called at most once and none is skipped or overtaken. *)
Theorem names_follow_registry (inputs : list Input) :
  forall (c c' : Client),
  run c inputs = Next c' ->
  names_called (out (disp c')) ++ nameHandlers (disp c')
  = names_called (out (disp c)) ++ nameHandlers (disp c) ++ issued_names inputs.
Proof.
  induction inputs as [|[chunk|h nh] rest IH]; intros c c' Hrun; simpl in *.
  - injection Hrun as <-. rewrite app_nil_r. reflexivity.
  - pose proof (names_feed_chunk _ c chunk eq_refl) as H. simpl in H.
    destruct (feed_chunk c chunk) as [c1|e c1|c1]; try discriminate.
    simpl in H. rewrite (IH c1 c' Hrun). rewrite app_assoc, H.
    rewrite <- app_assoc. reflexivity.
  - rewrite (IH _ c' Hrun). simpl. rewrite <- !app_assoc. reflexivity.
Qed.

(** ** Rows first, then one sentinel *)

Lemma consumer_calls_app (t1 t2 : list Output) :
  consumer_calls (t1 ++ t2) = consumer_calls t1 ++ consumer_calls t2.
Proof. unfold consumer_calls. apply flat_map_app. Qed.

Lemma consumer_calls_repeat_connect (n : nat) :
  consumer_calls (repeat (Emit EvConnect) n) = [].
Proof. induction n as [|n IH]; simpl; auto. Qed.

Lemma served_same (hs : list RowDataHandler) (d d' : Dispatch) :
  activeDataHandlerInfo d' = activeDataHandlerInfo d ->
  dataHandlers d' = dataHandlers d ->
  consumer_calls (out d') = consumer_calls (out d) ->
  served hs d -> served hs d'.
Proof.
  intros Ha Hq Hc (past & t & n & Hhs & Ht & Hcalls).
  exists past, t, n. unfold active_handler in *.
  rewrite Ha, Hq, Hc. auto.
Qed.

Ltac same_calls :=
  first
    [ assumption
    | exact I
    | eapply served_same; [ | | | eassumption ];
      simpl; rewrite ?consumer_calls_app; simpl; rewrite ?app_nil_r; reflexivity ].

Lemma served_flush (hs : list RowDataHandler) (d : Dispatch) :
  served hs d -> served hs (flush d).
Proof.
  intros H. unfold flush.
  destruct (negb (ready d) || mustDrain d); [exact H|].
  destruct (send_result (sends d)); same_calls.
Qed.

Lemma served_activate (hs : list RowDataHandler) (isNoData : bool) (d : Dispatch) :
  served hs d ->
  kept (served hs) (fun _ => True) (activate isNoData (activeDataHandlerInfo d) d).
Proof.
  intros (past & t & n & Hhs & Ht & Hcalls). unfold activate.
  unfold active_handler in Hhs, Hcalls.
  destruct (activeDataHandlerInfo d) as [[h desc]|] eqn:Hact.
  - simpl. exists past, t, n. unfold active_handler. rewrite Hact. auto.
  - destruct (dataHandlers d) as [|handler rest] eqn:Hq; [exact I|].
    simpl in Hhs, Hcalls.
    destruct isNoData; simpl.
    + exists (past ++ [handler]), (t ++ repeat (handler, false) 0 ++ [(handler, true)]), O.
      unfold active_handler. simpl. rewrite Hact. simpl.
      split; [rewrite <- app_assoc; exact Hhs|].
      split; [apply (Completed_snoc t past handler 0 Ht)|].
      rewrite consumer_calls_app, Hcalls. simpl. rewrite !app_nil_r. reflexivity.
    + destruct (rowDescriptions d) as [|description descs]; simpl; [exact I|].
      exists past, t, O. unfold active_handler. simpl.
      split; [exact Hhs|]. split; [exact Ht|].
      rewrite Hcalls. reflexivity.
Qed.

Lemma served_row (hs : list RowDataHandler) (d : Dispatch)
  (h : RowDataHandler) (desc : RowDescription) (row : Row) :
  activeDataHandlerInfo d = Some (h, desc) ->
  served hs d -> served hs (emit (Deliver h (Some row)) d).
Proof.
  intros Hact (past & t & n & Hhs & Ht & Hcalls).
  exists past, t, (S n). unfold active_handler in *. simpl.
  rewrite Hact in *. simpl in *.
  split; [exact Hhs|]. split; [exact Ht|].
  rewrite consumer_calls_app, Hcalls. simpl. rewrite !app_nil_r.
  rewrite <- app_assoc. f_equal. symmetry. apply repeat_cons.
Qed.

Lemma served_close (hs : list RowDataHandler) (d : Dispatch)
  (h : RowDataHandler) (desc : RowDescription) :
  activeDataHandlerInfo d = Some (h, desc) ->
  served hs d -> served hs (set_active None (emit (Deliver h None) d)).
Proof.
  intros Hact (past & t & n & Hhs & Ht & Hcalls).
  exists (past ++ [h]), (t ++ repeat (h, false) n ++ [(h, true)]), O.
  unfold active_handler in *. simpl. rewrite Hact in *. simpl in *.
  split; [rewrite <- app_assoc; exact Hhs|].
  split; [apply Completed_snoc; exact Ht|].
  rewrite consumer_calls_app, Hcalls. simpl. rewrite !app_nil_r.
  rewrite <- app_assoc. reflexivity.
Qed.

Lemma served_dispatch (hs : list RowDataHandler) (mtype : Z) (buffer : Buffer)
  (start length : Z) (d : Dispatch) :
  served hs d ->
  kept (served hs) (fun _ => True) (dispatch mtype buffer start length d).
Proof.
  intros H. unfold dispatch.
  repeat match goal with
         | |- context [if ?b then _ else _] => destruct b
         end.
  - destruct (readInt32BE buffer start) as [[|p|p]|]; simpl; try same_calls.
    destruct p as [[|[]|]|[]|]; simpl; same_calls.
  - destruct (readInt32BE buffer start), (readInt32BE buffer (start + 4));
      simpl; same_calls.
  - exact H.
  - destruct (activeDataHandlerInfo d) as [[h desc]|] eqn:Hact; simpl.
    + apply (served_close hs d h desc Hact H).
    + exact H.
  - exact H.
  - destruct (parseError _); simpl; same_calls.
  - destruct (parseError _); simpl; same_calls.
  - exact H.
  - destruct (readInt16BE buffer start) as [n|]; [|exact I].
    destruct (preparedStatements d) as [|ps rest]; [exact H|].
    destruct (n <? 0); [exact I|].
    destruct (read_types buffer (start + 2) (Z.to_nat n)); [|exact I].
    simpl. apply served_flush.
    destruct (ps_portal ps); same_calls.
  - simpl. same_calls.
  - destruct (readInt8 buffer start); simpl; [|exact I].
    apply served_flush. same_calls.
  - simpl. destruct (nameHandlers d); simpl; same_calls.
  - simpl. same_calls.
Qed.

Lemma served_feed_chunk (hs : list RowDataHandler) (c : Client) (chunk : Buffer) :
  served hs (disp c) ->
  kept_outcome (served hs) (fun _ => True) (feed_chunk c chunk).
Proof.
  intros H.
  apply kept_feed_chunk; auto.
  - intros isNoData d Hd. apply (served_activate hs isNoData d Hd).
  - intros h desc row d Hact Hd. apply (served_row hs d h desc row Hact Hd).
  - intros mtype buffer start length d Hd.
    apply (served_dispatch hs mtype buffer start length d Hd).
  - intros d Hd. eapply served_same; [ | | | exact Hd]; simpl; auto.
    rewrite consumer_calls_app, consumer_calls_repeat_connect.
    apply app_nil_r.
Qed.

Lemma served_register (hs : list RowDataHandler) (c : Client)
  (h : RowDataHandler) (nh : NameHandler) :
  served hs (disp c) -> served (hs ++ [h]) (disp (register h nh c)).
Proof.
  intros (past & t & n & Hhs & Ht & Hcalls).
  exists past, t, n. unfold active_handler in *. simpl.
  split; [|auto]. rewrite Hhs, <- !app_assoc. reflexivity.
Qed.

Lemma served_run (inputs : list Input) :
  forall (hs : list RowDataHandler) (c c' : Client),
  served hs (disp c) -> run c inputs = Next c' ->
  served (hs ++ issued inputs) (disp c').
Proof.
  induction inputs as [|[chunk|h nh] rest IH]; intros hs c c' H Hrun; simpl in *.
  - injection Hrun as <-. rewrite app_nil_r. exact H.
  - pose proof (served_feed_chunk hs c chunk H) as Hk.
    destruct (feed_chunk c chunk) as [c1|e c1|c1]; try discriminate.
    apply (IH hs c1 c' Hk Hrun).
  - change (h :: issued rest) with ([h] ++ issued rest). rewrite app_assoc.
    apply (IH _ _ c' (served_register hs c h nh H) Hrun).
Qed.

Lemma Completed_In (t : list (RowDataHandler * bool)) (q : list RowDataHandler) :
  Completed t q -> forall x, In x t -> In (fst x) q.
Proof.
  induction 1 as [|t q h n Hc IH]; intros x Hx; [destruct Hx|].
  apply in_app_or in Hx. apply in_or_app. destruct Hx as [Hx|Hx].
  - left. apply IH. exact Hx.
  - right. apply in_app_or in Hx. destruct Hx as [Hx|Hx].
    + apply repeat_spec in Hx. subst x. simpl. auto.
    + destruct Hx as [<-|[]]. simpl. auto.
Qed.

Lemma silent_app (t ext : list (RowDataHandler * bool)) :
  silent_after_sentinel t ->
  silent_after_sentinel ext ->
  (forall h b, In (h, true) t -> ~ In (h, b) ext) ->
  silent_after_sentinel (t ++ ext).
Proof.
  intros Ht Hext Hno l1 l2 h b Heq Hin.
  apply app_eq_app in Heq. destruct Heq as (l & [[H1 H2]|[H1 H2]]).
  - destruct l as [|x l].
    + rewrite app_nil_r in H1. subst l1. simpl in H2.
      apply (Hext [] l2 h b); [symmetry; exact H2 | exact Hin].
    + simpl in H2. injection H2 as Hx H2. subst x l2.
      apply in_app_or in Hin. destruct Hin as [Hin|Hin].
      * apply (Ht l1 l h b H1 Hin).
      * apply (Hno h b); [|exact Hin].
        rewrite H1. apply in_or_app. right. left. reflexivity.
  - apply (Hext l l2 h b H2 Hin).
Qed.

Lemma silent_block (h : RowDataHandler) (n : nat) :
  silent_after_sentinel (repeat (h, false) n ++ [(h, true)]).
Proof.
  intros l1 l2 h' b. revert l1.
  induction n as [|n IH]; intros l1 Heq; simpl in Heq.
  - destruct l1 as [|x l1]; simpl in Heq.
    + injection Heq as _ <-. intros [].
    + injection Heq as _ Heq. destruct l1; discriminate.
  - destruct l1 as [|x l1]; simpl in Heq.
    + discriminate.
    + injection Heq as _ Heq. apply (IH l1 Heq).
Qed.

Lemma silent_rows (h : RowDataHandler) (n : nat) :
  silent_after_sentinel (repeat (h, false) n).
Proof.
  intros l1 l2 h' b Heq.
  assert (Hin : In (h', true) (repeat (h, false) n)).
  { rewrite Heq. apply in_or_app. right. left. reflexivity. }
  apply repeat_spec in Hin. discriminate.
Qed.

Lemma Completed_silent (t : list (RowDataHandler * bool)) (q : list RowDataHandler) :
  Completed t q -> NoDup q -> silent_after_sentinel t.
Proof.
  induction 1 as [|t q h n Hc IH]; intros Hnd.
  - intros l1 l2 h b Heq. destruct l1; discriminate.
  - apply NoDup_remove in Hnd. rewrite app_nil_r in Hnd. destruct Hnd as [Hnd Hh].
    apply silent_app; [apply IH; exact Hnd | apply silent_block |].
    intros h' b Hin Hext.
    apply (Completed_In _ _ Hc) in Hin. simpl in Hin.
    assert (h' = h).
    { apply in_app_or in Hext. destruct Hext as [Hext|[Hext|[]]].
      - apply repeat_spec in Hext. congruence.
      - congruence. }
    subst h'. apply Hh. exact Hin.
Qed.

Lemma served_silent (hs : list RowDataHandler) (d : Dispatch) :
  served hs d -> NoDup hs -> silent_after_sentinel (consumer_calls (out d)).
Proof.
  intros (past & t & n & Hhs & Ht & Hcalls) Hnd. rewrite Hcalls. subst hs.
  apply silent_app.
  - apply (Completed_silent _ _ Ht). apply NoDup_app_remove_r in Hnd. exact Hnd.
  - unfold active_handler. destruct (activeDataHandlerInfo d) as [[h desc]|]; simpl.
    + rewrite app_nil_r. apply silent_rows.
    + intros l1 l2 h b Heq. destruct l1; discriminate.
  - intros h b Hin Hext.
    apply (Completed_In _ _ Ht) in Hin. simpl in Hin.
    unfold active_handler in *.
    destruct (activeDataHandlerInfo d) as [[ha desc]|]; simpl in Hext; [|exact Hext].
    rewrite app_nil_r in Hext. apply repeat_spec in Hext.
    injection Hext as -> _.
    simpl in Hnd. apply NoDup_remove_2 in Hnd. apply Hnd.
    apply in_or_app. left. exact Hin.
Qed.

(** X2.  Whatever bytes arrive and whenever queries are issued, as long as
    no handler throws: the consumers done with were each handed some rows
    and then the sentinel, once; the active one has had rows only; the
    pending ones have had no call.  So, the consumers being distinct, none
    is called again after its sentinel. *)
Theorem consumers_served_in_turn (inputs : list Input) (c c' : Client) :
  consumer_calls (out (disp c)) = [] ->
  run c inputs = Next c' ->
  let consumers :=
    active_handler (disp c) ++ dataHandlers (disp c) ++ issued inputs in
  served consumers (disp c') /\
  (NoDup consumers -> silent_after_sentinel (consumer_calls (out (disp c')))).
Proof.
  intros Hnone Hrun consumers.
  assert (H0 : served (active_handler (disp c) ++ dataHandlers (disp c)) (disp c)).
  { exists [], [], O. simpl. split; [reflexivity|]. split; [constructor|].
    rewrite Hnone. unfold active_handler.
    destruct (activeDataHandlerInfo (disp c)) as [[h desc]|]; reflexivity. }
  assert (H : served consumers (disp c')).
  { subst consumers. rewrite app_assoc. apply (served_run inputs _ c c' H0 Hrun). }
  split; [exact H|]. intros Hnd. apply (served_silent _ _ H Hnd).
Qed.

(** ** When [writer.send()] is called *)

Lemma send_calls_app (t1 t2 : list Output) :
  send_calls (t1 ++ t2) = (send_calls t1 + send_calls t2)%nat.
Proof. unfold send_calls. rewrite filter_app, length_app. reflexivity. Qed.

Lemma send_calls_repeat_connect (n : nat) :
  send_calls (repeat (Emit EvConnect) n) = O.
Proof. induction n as [|n IH]; simpl; auto. Qed.

Lemma flush_waits (d : Dispatch) :
  mustDrain d = true \/ ready d = false -> flush d = d.
Proof.
  intros [H|H]; unfold flush; rewrite H; [|reflexivity].
  rewrite orb_true_r. reflexivity.
Qed.

Ltac same_sends :=
  first
    [ assumption
    | exact I
    | match goal with
      | H : _ /\ _ |- _ /\ _ =>
          destruct H; split; simpl; rewrite ?send_calls_app; simpl;
          rewrite ?Nat.add_0_r; assumption
      end ].

Lemma draining_flush (n : nat) (d : Dispatch) :
  draining n d -> draining n (flush d).
Proof.
  intros H. rewrite flush_waits; [exact H|]. left. apply H.
Qed.

Lemma draining_activate (n : nat) (isNoData : bool) (d : Dispatch) :
  draining n d ->
  kept (draining n) (draining n) (activate isNoData (activeDataHandlerInfo d) d).
Proof.
  intros H. unfold activate.
  destruct (activeDataHandlerInfo d) as [[h desc]|]; [exact H|].
  destruct (dataHandlers d) as [|handler rest]; [exact H|].
  destruct isNoData; unfold kept, draining in *.
  - same_sends.
  - simpl. destruct (rowDescriptions d); same_sends.
Qed.

Lemma draining_dispatch (n : nat) (mtype : Z) (buffer : Buffer) (start length : Z)
  (d : Dispatch) :
  draining n d ->
  kept (draining n) (draining n) (dispatch mtype buffer start length d).
Proof.
  intros H. unfold dispatch.
  repeat match goal with
         | |- context [if ?b then _ else _] => destruct b
         end; unfold draining in *.
  - destruct (readInt32BE buffer start) as [[|p|p]|]; simpl; try same_sends.
    destruct p as [[|[]|]|[]|]; simpl; same_sends.
  - destruct (readInt32BE buffer start), (readInt32BE buffer (start + 4));
      simpl; same_sends.
  - exact H.
  - destruct (activeDataHandlerInfo d) as [[h desc]|]; simpl; same_sends.
  - exact H.
  - destruct (parseError _); simpl; same_sends.
  - destruct (parseError _); simpl; same_sends.
  - exact H.
  - destruct (readInt16BE buffer start) as [m|]; [|exact H].
    destruct (preparedStatements d) as [|ps rest]; [exact H|].
    destruct (m <? 0); [simpl; same_sends|].
    destruct (read_types buffer (start + 2) (Z.to_nat m)); [|simpl; same_sends].
    simpl. apply draining_flush. unfold draining.
    destruct (ps_portal ps); same_sends.
  - simpl. same_sends.
  - destruct (readInt8 buffer start); simpl; [|exact H].
    apply draining_flush. unfold draining. same_sends.
  - simpl. destruct (nameHandlers d); simpl; same_sends.
  - simpl. same_sends.
Qed.

Lemma draining_feed_chunk (n : nat) (c : Client) (chunk : Buffer) :
  draining n (disp c) ->
  kept_outcome (draining n) (draining n) (feed_chunk c chunk).
Proof.
  intros H.
  apply kept_feed_chunk; auto.
  - intros isNoData d Hd. apply (draining_activate n isNoData d Hd).
  - intros h desc row d _ Hd. unfold draining in *. same_sends.
  - intros mtype buffer start length d Hd.
    apply (draining_dispatch n mtype buffer start length d Hd).
  - intros d [Hm Hs]. split; [exact Hm|]. simpl.
    rewrite send_calls_app, send_calls_repeat_connect, Nat.add_0_r. exact Hs.
Qed.

Lemma unready_flush (n : nat) (d : Dispatch) :
  unready n d -> unready n (flush d).
Proof.
  intros H. rewrite flush_waits; [exact H|]. right. apply H.
Qed.

Lemma draining_handle (n : nat) (ev : Event) (k k' : Conn) :
  is_drain ev = false ->
  draining n (disp (client k)) ->
  ends_in (handle ev k) k' ->
  draining n (disp (client k')).
Proof.
  intros Hev H Hend.
  destruct ev; simpl in Hev; try discriminate; simpl in Hend.
  - destruct Hend as [Heq|[e Heq]]; [|discriminate].
    injection Heq as <-. unfold on_stream_connect.
    destruct (keepAlive k); exact H.
  - destruct Hend as [Heq|[e Heq]]; [|discriminate].
    injection Heq as <-. unfold draining in *. simpl. same_sends.
  - pose proof (draining_feed_chunk n (client k) chunk H) as Hk.
    destruct (feed_chunk (client k) chunk) as [c1|e1 c1|c1];
      destruct Hend as [Heq|[e Heq]]; try discriminate;
      inversion Heq; subst; exact Hk.
  - destruct Hend as [Heq|[e Heq]]; [|discriminate].
    injection Heq as <-. unfold on_stream_error.
    destruct (ending k && is_reset errno); [exact H|].
    unfold draining in *. simpl. same_sends.
  - destruct Hend as [Heq|[e Heq]]; [|discriminate].
    injection Heq as <-. unfold draining in *. simpl. same_sends.
  - destruct Hend as [Heq|[e Heq]]; [|discriminate].
    injection Heq as <-. unfold draining in *. simpl. same_sends.
  - unfold client_end in Hend. destruct (closed k).
    + destruct Hend as [Heq|[e Heq]]; [discriminate|].
      injection Heq as _ <-. exact H.
    + destruct Hend as [Heq|[e Heq]]; [|discriminate].
      injection Heq as <-. simpl. apply draining_flush. exact H.
  - destruct Hend as [Heq|[e Heq]]; [|discriminate].
    injection Heq as <-. unfold execute. simpl.
    apply draining_flush.
    destruct (q_args query); simpl;
      [|destruct (truthy (q_name query)); simpl];
      unfold draining in *; simpl; exact H.
  - destruct Hend as [Heq|[e Heq]]; [|discriminate].
    injection Heq as <-. simpl. unfold on.
    repeat match goal with
           | |- context [if ?b then _ else _] => destruct b
           end; exact H.
Qed.

Lemma unready_handle (n : nat) (ev : Event) (k k' : Conn) :
  is_data ev = false ->
  unready n (disp (client k)) ->
  ends_in (handle ev k) k' ->
  unready n (disp (client k')).
Proof.
  intros Hev H Hend.
  destruct ev; simpl in Hev; try discriminate; simpl in Hend.
  - destruct Hend as [Heq|[e Heq]]; [|discriminate].
    injection Heq as <-. unfold on_stream_connect.
    destruct (keepAlive k); exact H.
  - destruct Hend as [Heq|[e Heq]]; [|discriminate].
    injection Heq as <-. unfold unready in *. simpl. same_sends.
  - destruct Hend as [Heq|[e Heq]]; [|discriminate].
    injection Heq as <-. simpl. apply unready_flush.
    unfold unready in *. simpl. exact H.
  - destruct Hend as [Heq|[e Heq]]; [|discriminate].
    injection Heq as <-. unfold on_stream_error.
    destruct (ending k && is_reset errno); [exact H|].
    unfold unready in *. simpl. same_sends.
  - destruct Hend as [Heq|[e Heq]]; [|discriminate].
    injection Heq as <-. unfold unready in *. simpl. same_sends.
  - destruct Hend as [Heq|[e Heq]]; [|discriminate].
    injection Heq as <-. unfold unready in *. simpl. same_sends.
  - unfold client_end in Hend. destruct (closed k).
    + destruct Hend as [Heq|[e Heq]]; [discriminate|].
      injection Heq as _ <-. exact H.
    + destruct Hend as [Heq|[e Heq]]; [|discriminate].
      injection Heq as <-. simpl. apply unready_flush. exact H.
  - destruct Hend as [Heq|[e Heq]]; [|discriminate].
    injection Heq as <-. unfold execute. simpl.
    apply unready_flush.
    destruct (q_args query); simpl;
      [|destruct (truthy (q_name query)); simpl];
      unfold unready in *; simpl; exact H.
  - destruct Hend as [Heq|[e Heq]]; [|discriminate].
    injection Heq as <-. simpl. unfold on.
    repeat match goal with
           | |- context [if ?b then _ else _] => destruct b
           end; exact H.
Qed.

Lemma play_invariant (P : Conn -> Prop) (allowed : Event -> bool) :
  (forall ev k k', allowed ev = true -> P k -> ends_in (handle ev k) k' -> P k') ->
  forall evs k k',
    forallb allowed evs = true -> P k -> ends_in (play evs k) k' -> P k'.
Proof.
  intros Hstep. induction evs as [|ev rest IH]; intros k k' Hall Hk Hend.
  - destruct Hend as [Heq|[e Heq]]; [|discriminate].
    injection Heq as <-. exact Hk.
  - simpl in Hall. apply andb_prop in Hall. destruct Hall as [Hev Hall].
    simpl in Hend.
    destruct (handle ev k) as [k1|e1 k1|k1] eqn:Hh.
    + apply (IH k1 k' Hall); [|exact Hend].
      apply (Hstep ev k k1 Hev Hk). rewrite Hh. left. reflexivity.
    + apply (Hstep ev k k' Hev Hk). rewrite Hh. exact Hend.
    + destruct Hend as [Heq|[e Heq]]; discriminate.
Qed.

(** X3.  [writer.send()] is called only on a ready connection that awaits
    no drain.  While a drain is awaited, no event other than the socket's
    'drain' leads to a call: data, queries, [end()] and the rest leave the
    number of calls as it is.  While the connection is not ready, no event
    other than incoming data leads to a call. *)
Theorem send_waits (evs : list Event) (k k' : Conn) (n : nat) :
  ends_in (play evs k) k' ->
  (draining n (disp (client k)) ->
   forallb (fun ev => negb (is_drain ev)) evs = true ->
   draining n (disp (client k'))) /\
  (unready n (disp (client k)) ->
   forallb (fun ev => negb (is_data ev)) evs = true ->
   unready n (disp (client k'))).
Proof.
  intros Hend. split; intros H Hall.
  - apply (play_invariant (fun k => draining n (disp (client k)))
             (fun ev => negb (is_drain ev))) with (evs := evs) (k := k); auto.
    intros ev k1 k2 Hev. apply draining_handle.
    apply negb_true_iff. exact Hev.
  - apply (play_invariant (fun k => unready n (disp (client k)))
             (fun ev => negb (is_data ev))) with (evs := evs) (k := k); auto.
    intros ev k1 k2 Hev. apply unready_handle.
    apply negb_true_iff. exact Hev.
Qed.

(** ** [execute] *)

Lemma digits_inj (u v : Decimal.uint) : digits u = digits v -> u = v.
Proof.
  revert v. induction u; destruct v; simpl; intros H;
    try discriminate; try reflexivity;
    injection H as H; f_equal; apply IHu; exact H.
Qed.

Lemma number_to_string_inj (n m : Z) :
  0 <= n -> 0 <= m -> number_to_string n = number_to_string m -> n = m.
Proof.
  intros Hn Hm H. unfold number_to_string in H.
  apply digits_inj, DecimalN.Unsigned.to_uint_inj in H.
  apply (f_equal Z.of_N) in H. rewrite !Z2N.id in H; assumption.
Qed.

Lemma execute_generates (query : Query') (h : RowDataHandler) (nh : NameHandler)
  (k : Conn) :
  generates query = true ->
  let name := preparedStatementPrefix
                ++ number_to_string (nextPreparedStatementId k) in
  preparedStatements (disp (client (execute query h nh k)))
  = preparedStatements (disp (client k))
      ++ [mkPS name (or_else (q_portal query) []) (q_args query)] /\
  nextPreparedStatementId (execute query h nh k)
  = increment (nextPreparedStatementId k).
Proof.
  unfold generates, execute. intros Hg.
  destruct (q_args query) as [|a args] eqn:Ha; [discriminate|].
  apply negb_true_iff in Hg. rewrite Hg.
  assert (Hn : or_else (q_name query)
                 (preparedStatementPrefix
                    ++ number_to_string (nextPreparedStatementId k))
               = preparedStatementPrefix
                    ++ number_to_string (nextPreparedStatementId k)).
  { unfold or_else, truthy in *. destruct (q_name query) as [[|x r]|];
      try reflexivity; discriminate. }
  rewrite Hn. simpl.
  assert (Hf : forall d, preparedStatements (flush d) = preparedStatements d).
  { intros d. unfold flush. destruct (negb (ready d) || mustDrain d); [reflexivity|].
    destruct (send_result (sends d)); reflexivity. }
  rewrite Hf. simpl. split; reflexivity.
Qed.

Lemma NoDup_map_injective {A B : Type} (f : A -> B) (l : list A) :
  (forall x y, f x = f y -> x = y) -> NoDup l -> NoDup (map f l).
Proof.
  intros Hinj. induction 1 as [|x l Hx Hnd IH]; simpl; constructor; [|exact IH].
  intros Hin. apply in_map_iff in Hin. destruct Hin as (y & Hy & Hin).
  apply Hinj in Hy. subst y. apply Hx. exact Hin.
Qed.

Lemma execute_all_generated (qs : list (Query' * RowDataHandler * NameHandler)) :
  forall (k : Conn),
  Forall (fun q => generates (fst (fst q)) = true) qs ->
  0 <= nextPreparedStatementId k ->
  nextPreparedStatementId k + Z.of_nat (List.length qs) <= 9007199254740992 ->
  map ps_name (preparedStatements (disp (client (execute_all qs k))))
  = map ps_name (preparedStatements (disp (client k)))
      ++ map (fun i => preparedStatementPrefix
                         ++ number_to_string
                              (nextPreparedStatementId k + Z.of_nat i))
           (seq 0 (List.length qs)) /\
  nextPreparedStatementId (execute_all qs k)
  = nextPreparedStatementId k + Z.of_nat (List.length qs).
Proof.
  induction qs as [|[[query h] nh] qs IH]; intros k Hall H0 Hmax.
  - simpl. rewrite app_nil_r, Z.add_0_r. split; reflexivity.
  - apply Forall_cons_iff in Hall. destruct Hall as [Hq Hall]. simpl in Hq.
    destruct (execute_generates query h nh k Hq) as [Hps Hid].
    assert (Hinc : increment (nextPreparedStatementId k)
                   = nextPreparedStatementId k + 1).
    { unfold increment.
      destruct (Z.ltb_spec (nextPreparedStatementId k) 9007199254740992);
        [reflexivity|].
      change (List.length ((query, h, nh) :: qs)) with (S (List.length qs)) in Hmax.
      lia. }
    rewrite Hinc in Hid.
    change (execute_all ((query, h, nh) :: qs) k)
      with (execute_all qs (execute query h nh k)).
    change (List.length ((query, h, nh) :: qs)) with (S (List.length qs)) in *.
    destruct (IH (execute query h nh k) Hall) as [IHps IHid].
    + rewrite Hid. lia.
    + rewrite Hid. lia.
    + rewrite IHps, IHid, Hps, Hid. split; [|lia].
      rewrite map_app, <- app_assoc. f_equal.
      change (seq 0 (S (List.length qs))) with (O :: seq 1 (List.length qs)).
      rewrite <- seq_shift. cbn [map ps_name app]. rewrite map_map.
      rewrite Z.add_0_r. f_equal.
      apply map_ext. intros i. do 2 f_equal. lia.
Qed.

(** X4.  Queries with arguments and no name of their own, executed one
    after the other, are prepared under the prefix followed by the
    successive values of the counter: names that are pairwise distinct, as
    long as the counter stays within 2^53. *)
Theorem generated_names_distinct
  (qs : list (Query' * RowDataHandler * NameHandler)) (k : Conn) :
  Forall (fun q => generates (fst (fst q)) = true) qs ->
  0 <= nextPreparedStatementId k ->
  nextPreparedStatementId k + Z.of_nat (List.length qs) <= 9007199254740992 ->
  let made :=
    map (fun i => preparedStatementPrefix
                    ++ number_to_string (nextPreparedStatementId k + Z.of_nat i))
      (seq 0 (List.length qs)) in
  map ps_name (preparedStatements (disp (client (execute_all qs k))))
  = map ps_name (preparedStatements (disp (client k))) ++ made /\
  NoDup made /\
  nextPreparedStatementId (execute_all qs k)
  = nextPreparedStatementId k + Z.of_nat (List.length qs).
Proof.
  intros Hall H0 Hmax made.
  destruct (execute_all_generated qs k Hall H0 Hmax) as [Hps Hid].
  split; [exact Hps|]. split; [|exact Hid].
  apply NoDup_map_injective; [|apply seq_NoDup].
  intros i j Heq. apply app_inv_head in Heq.
  apply number_to_string_inj in Heq; lia.
Qed.

(** ** Whole answers, frame by frame *)

Lemma feed_frames_done (c : Client) (fs : list Frame) (chunks : list Buffer)
  (d' : Dispatch) :
  remaining c = 0 -> expect (disp c) = 5 -> all_wf fs ->
  List.concat chunks = encode fs ->
  run_frames fs (disp c) = Done tt d' ->
  exists c', feed c chunks = Next c' /\ alike (disp c') d'.
Proof.
  intros Hrem Hexp Hwf Hcat Hrun.
  pose proof (observe_feed_frames c fs chunks Hrem Hexp Hwf Hcat) as Hobs.
  rewrite Hrun in Hobs. simpl in Hobs.
  destruct (feed c chunks) as [c'|e c'|c']; simpl in Hobs; try discriminate.
  exists c'. split; [reflexivity|].
  apply (f_equal (fun o => match o with
                           | Finished d => d
                           | _ => normal d'
                           end)) in Hobs.
  exact Hobs.
Qed.

Lemma feed_frames_raise (c : Client) (fs : list Frame) (chunks : list Buffer)
  (e : string) (d' : Dispatch) :
  remaining c = 0 -> expect (disp c) = 5 -> all_wf fs ->
  List.concat chunks = encode fs ->
  run_frames fs (disp c) = Raise e d' ->
  exists c', feed c chunks = Thrown e c' /\
             set_ticks O (normal (disp c')) = set_ticks O (normal d').
Proof.
  intros Hrem Hexp Hwf Hcat Hrun.
  pose proof (observe_feed_frames c fs chunks Hrem Hexp Hwf Hcat) as Hobs.
  rewrite Hrun in Hobs. simpl in Hobs.
  destruct (feed c chunks) as [c'|e' c'|c']; simpl in Hobs; try discriminate.
  exists c'.
  pose proof (f_equal (fun o => match o with
                                | Failed x _ => x
                                | _ => e
                                end) Hobs) as He.
  apply (f_equal (fun o => match o with
                           | Failed _ d => d
                           | _ => set_ticks O (normal d')
                           end)) in Hobs.
  simpl in He. subst e'. split; [reflexivity | exact Hobs].
Qed.

(** Two states alike have the same fields, the same outputs in order apart
    from the connect events, and as many connect events emitted or due. *)
Lemma alike_fields (d d' : Dispatch) :
  alike d d' ->
  bookkeeping d = bookkeeping d' /\
  ready d = ready d' /\ mustDrain d = mustDrain d' /\
  connecting d = connecting d' /\
  processId d = processId d' /\ secretKey d = secretKey d' /\
  transactionStatus d = transactionStatus d' /\
  sends d = sends d' /\
  sync_output (out d) = sync_output (out d') /\
  (ticks d + connects (out d) = ticks d' + connects (out d'))%nat.
Proof.
  unfold alike, normal, bookkeeping. intros H.
  injection H as H1 H2 H3 H4 H5 H6 H7 H8 H9 H10 H11 H12 H13 H14.
  rewrite H1, H2, H3, H4, H5. repeat split; assumption.
Qed.

Lemma out_emits (os : list Output) :
  forall d, out (emits os d) = out d ++ os.
Proof.
  induction os as [|o os IH]; intros d; simpl.
  - rewrite app_nil_r. reflexivity.
  - rewrite IH. simpl. rewrite <- app_assoc. reflexivity.
Qed.

Lemma emits_fields (os : list Output) :
  forall d,
  bookkeeping (emits os d) = bookkeeping d /\
  expect (emits os d) = expect d /\
  ready (emits os d) = ready d /\ mustDrain (emits os d) = mustDrain d /\
  sends (emits os d) = sends d /\ ticks (emits os d) = ticks d.
Proof.
  induction os as [|o os IH]; intros d; simpl.
  - repeat split.
  - destruct (IH (emit o d)) as (H1 & H2 & H3 & H4 & H5 & H6).
    rewrite H1, H2, H3, H4, H5, H6. repeat split.
Qed.

Lemma emits_registries (os : list Output) (d : Dispatch) :
  dataHandlers (emits os d) = dataHandlers d /\
  nameHandlers (emits os d) = nameHandlers d /\
  rowDescriptions (emits os d) = rowDescriptions d /\
  preparedStatements (emits os d) = preparedStatements d /\
  activeDataHandlerInfo (emits os d) = activeDataHandlerInfo d.
Proof.
  destruct (emits_fields os d) as (Hb & _). unfold bookkeeping in Hb.
  repeat split.
  - apply (f_equal (fun b => fst (fst (fst (fst b))))) in Hb. exact Hb.
  - apply (f_equal (fun b => snd (fst (fst (fst b))))) in Hb. exact Hb.
  - apply (f_equal (fun b => snd (fst (fst b)))) in Hb. exact Hb.
  - apply (f_equal (fun b => snd (fst b))) in Hb. exact Hb.
  - apply (f_equal (fun b => snd b)) in Hb. exact Hb.
Qed.

Lemma sync_output_deliveries (h : RowDataHandler) (rows : list (option Row)) :
  sync_output (map (Deliver h) rows) = map (Deliver h) rows.
Proof. induction rows as [|r rows IH]; simpl; [|rewrite IH]; reflexivity. Qed.

Lemma step_row_description (p : Buffer) (d : Dispatch) :
  step_frame (row_description p) d =
  Done tt (set_expect 5
             (let d1 := set_rowDescriptions
                          (rowDescriptions d ++ [readRowDescription p]) d in
              match nameHandlers d with
              | handler :: rest =>
                  emit (Names handler (names (readRowDescription p)))
                    (set_nameHandlers rest d1)
              | [] => d1
              end)).
Proof.
  unfold step_frame, row_description. cbn [tag payload].
  change (rowish Message.RowDescription) with false. cbv iota.
  unfold dispatch.
  change (Message.RowDescription =? Message.Authenticate) with false.
  change (Message.RowDescription =? Message.BackendKeyData) with false.
  change (Message.RowDescription =? Message.BindComplete) with false.
  change (Message.RowDescription =? Message.Close) with false.
  change (Message.RowDescription =? Message.CloseComplete) with false.
  change (Message.RowDescription =? Message.Error) with false.
  change (Message.RowDescription =? Message.Notice) with false.
  change (Message.RowDescription =? Message.ParseComplete) with false.
  change (Message.RowDescription =? Message.ParameterDescription) with false.
  change (Message.RowDescription =? Message.ParameterStatus) with false.
  change (Message.RowDescription =? Message.ReadyForQuery) with false.
  change (Message.RowDescription =? Message.RowDescription) with true.
  cbv iota. change (0 + len p) with (len p). rewrite slice_all.
  cbn [nameHandlers set_rowDescriptions].
  destruct (nameHandlers d); reflexivity.
Qed.

Lemma step_data_row_active (p : Buffer) (d : Dispatch)
  (h : RowDataHandler) (desc : RowDescription) :
  activeDataHandlerInfo d = Some (h, desc) ->
  step_frame (data_row p) d
  = Done tt (emit (Deliver h (Some (readRowData p desc))) d).
Proof.
  intros Hact. unfold step_frame, data_row. cbn [tag payload].
  change (rowish Message.RowData) with true. cbv iota.
  unfold activate. rewrite Hact. reflexivity.
Qed.

Lemma step_data_row_first (p : Buffer) (d : Dispatch)
  (h : RowDataHandler) (q : list RowDataHandler)
  (desc : RowDescription) (descs : list RowDescription) :
  activeDataHandlerInfo d = None ->
  dataHandlers d = h :: q ->
  rowDescriptions d = desc :: descs ->
  step_frame (data_row p) d
  = Done tt (emit (Deliver h (Some (readRowData p desc)))
               (set_active (Some (h, desc))
                  (set_rowDescriptions descs (set_dataHandlers q d)))).
Proof.
  intros Hact Hq Hdesc. unfold step_frame, data_row. cbn [tag payload].
  change (rowish Message.RowData) with true. cbv iota.
  unfold activate. rewrite Hact, Hq.
  change (Message.RowData =? Message.NoData) with false. cbv iota.
  cbn [rowDescriptions set_dataHandlers]. rewrite Hdesc. reflexivity.
Qed.

Lemma step_command_complete (p : Buffer) (d : Dispatch) :
  step_frame (command_complete p) d =
  Done tt (set_expect 5
             match activeDataHandlerInfo d with
             | Some (handler, _) => set_active None (emit (Deliver handler None) d)
             | None => d
             end).
Proof.
  unfold step_frame, command_complete. cbn [tag payload].
  change (rowish Message.Close) with false. cbv iota.
  unfold dispatch.
  change (Message.Close =? Message.Authenticate) with false.
  change (Message.Close =? Message.BackendKeyData) with false.
  change (Message.Close =? Message.BindComplete) with false.
  change (Message.Close =? Message.Close) with true.
  cbv iota.
  destruct (activeDataHandlerInfo d) as [[h desc]|]; reflexivity.
Qed.

Lemma run_rows_active (rows : list Buffer) (rest : list Frame)
  (h : RowDataHandler) (desc : RowDescription) :
  forall d,
  activeDataHandlerInfo d = Some (h, desc) ->
  run_frames (map data_row rows ++ rest) d
  = run_frames rest
      (emits (map (fun r => Deliver h (Some (readRowData r desc))) rows) d).
Proof.
  induction rows as [|r rows IH]; intros d Hact; [reflexivity|].
  cbn [map app run_frames]. rewrite (step_data_row_active r d h desc Hact).
  rewrite IH; [reflexivity | exact Hact].
Qed.

Lemma run_result_set (r : Buffer) (rows : list Buffer) (p : Buffer) (d : Dispatch)
  (h : RowDataHandler) (q : list RowDataHandler)
  (desc : RowDescription) (descs : list RowDescription) :
  activeDataHandlerInfo d = None ->
  dataHandlers d = h :: q ->
  rowDescriptions d = desc :: descs ->
  run_frames (map data_row (r :: rows) ++ [command_complete p]) d
  = Done tt
      (set_expect 5
         (set_active None
            (emit (Deliver h None)
               (emits (map (fun r => Deliver h (Some (readRowData r desc)))
                         (r :: rows))
                  (set_active (Some (h, desc))
                     (set_rowDescriptions descs (set_dataHandlers q d))))))).
Proof.
  intros Hact Hq Hdesc.
  cbn [map app run_frames].
  rewrite (step_data_row_first r d h q desc descs Hact Hq Hdesc).
  rewrite (run_rows_active rows _ h desc); [|reflexivity].
  cbn [run_frames]. rewrite step_command_complete.
  match goal with
  | |- context [activeDataHandlerInfo (emits ?os ?d0)] =>
      pose proof (emits_fields os d0) as (Hb & _)
  end.
  apply (f_equal (fun b => snd b)) in Hb. cbn [bookkeeping snd] in Hb.
  rewrite Hb. reflexivity.
Qed.

Lemma wf_plain (t : Z) (p : Buffer) :
  0 <= t < 128 -> fits p ->
  t <> Message.Authenticate -> t <> Message.BackendKeyData ->
  t <> Message.NoData -> t <> Message.ParameterDescription ->
  t <> Message.ParameterStatus -> t <> Message.ReadyForQuery ->
  wf_frame (mkFrame t p) = true.
Proof.
  unfold fits, wf_frame. intros Ht Hp H1 H2 H3 H4 H5 H6. cbn [tag payload].
  apply Z.eqb_neq in H1, H2, H3, H4, H5, H6.
  rewrite H1, H2, H3, H4, H5, H6.
  rewrite andb_true_r.
  apply andb_true_iff. split; [apply andb_true_iff; split|]; lia.
Qed.

Lemma wf_result_set (desc p : Buffer) (rows : list Buffer) :
  Forall fits (desc :: p :: rows) ->
  all_wf (row_description desc :: map data_row rows ++ [command_complete p]).
Proof.
  intros H. apply Forall_cons_iff in H. destruct H as [Hd H].
  apply Forall_cons_iff in H. destruct H as [Hp Hrows].
  constructor.
  - apply wf_plain; try exact Hd; try discriminate. unfold Message.RowDescription. lia.
  - apply Forall_app. split.
    + apply Forall_map. apply (Forall_impl _ (P := fits)); [|exact Hrows].
      intros r Hr. apply wf_plain; try exact Hr; try discriminate.
      unfold Message.RowData. lia.
    + constructor; [|constructor].
      apply wf_plain; try exact Hp; try discriminate. unfold Message.Close. lia.
Qed.

(** ** A result set, from the wire to the result *)

Lemma replay_app (h : RowDataHandler) (nh : NameHandler)
  (t1 t2 : list Output) (p : ResultIterator) :
  replay h nh (t1 ++ t2) p = replay h nh t2 (replay h nh t1 p).
Proof. unfold replay. apply fold_left_app. Qed.

Lemma replay_rows (h : RowDataHandler) (nh : NameHandler) (rows : list Row) :
  forall p, subscribers p = [] ->
  replay h nh (map (fun row => Deliver h (Some row)) rows) p
  = mkIter (container p ++ rows) [] (done p) (rows_set p) (names_field p)
      (promise p).
Proof.
  induction rows as [|r rows IH]; intros p Hsub.
  - simpl. rewrite app_nil_r. destruct p; simpl in *; subst; reflexivity.
  - cbn [map]. unfold replay in *. cbn [fold_left]. rewrite Nat.eqb_refl.
    rewrite IH.
    + unfold onData, notify. simpl. rewrite <- app_assoc. reflexivity.
    + unfold onData, notify. simpl. rewrite Hsub. reflexivity.
Qed.

Lemma replay_result_set (h : RowDataHandler) (nh : NameHandler)
  (ns : list Str) (rows : list Row) :
  replay h nh (Names nh ns :: map (fun row => Deliver h (Some row)) rows
                 ++ [Deliver h None]) makeResult
  = mkIter rows [] true true (Some ns) (Some ns).
Proof.
  change (Names nh ns :: map (fun row => Deliver h (Some row)) rows
            ++ [Deliver h None])
    with ([Names nh ns] ++ map (fun row => Deliver h (Some row)) rows
            ++ [Deliver h None]).
  rewrite !replay_app.
  assert (H1 : replay h nh [Names nh ns] makeResult
               = mkIter [] [] false false (Some ns) None).
  { unfold replay. simpl. rewrite Nat.eqb_refl. reflexivity. }
  rewrite H1, replay_rows; [|reflexivity].
  unfold replay. simpl. rewrite Nat.eqb_refl. reflexivity.
Qed.

Lemma sync_output_result_set (h : RowDataHandler) (nh : NameHandler)
  (ns : list Str) (rows : list Row) :
  sync_output (Names nh ns :: map (fun row => Deliver h (Some row)) rows
                 ++ [Deliver h None])
  = Names nh ns :: map (fun row => Deliver h (Some row)) rows ++ [Deliver h None].
Proof.
  unfold sync_output. cbn [filter is_connect negb]. f_equal.
  rewrite filter_app. cbn [filter is_connect negb]. f_equal.
  induction rows as [|r rows IH]; simpl; [|rewrite IH]; reflexivity.
Qed.

(** X5.  A query whose consumers are next in the registries, on a client
    between frames with no result set under way: when its answer arrives
    as a row description, one or more rows and the command completion,
    however the bytes are cut into chunks, the names and then every row
    decoded with that description are delivered in order, then the
    sentinel; the awaited result holds the names and all the rows, and an
    iteration yields the rows in order and ends. *)
Theorem rows_reach_the_result
  (c : Client) (desc p r : Buffer) (rows : list Buffer) (chunks : list Buffer)
  (h : RowDataHandler) (q : list RowDataHandler)
  (nh : NameHandler) (nq : list NameHandler) :
  remaining c = 0 -> expect (disp c) = 5 ->
  activeDataHandlerInfo (disp c) = None ->
  rowDescriptions (disp c) = [] ->
  dataHandlers (disp c) = h :: q ->
  nameHandlers (disp c) = nh :: nq ->
  Forall fits (desc :: p :: r :: rows) ->
  List.concat chunks
  = encode (row_description desc :: map data_row (r :: rows)
              ++ [command_complete p]) ->
  let description := readRowDescription desc in
  let decoded := map (fun r => readRowData r description) (r :: rows) in
  let new := Names nh (names description)
               :: map (fun row => Deliver h (Some row)) decoded
               ++ [Deliver h None] in
  exists c',
    feed c chunks = Next c' /\
    sync_output (out (disp c')) = sync_output (out (disp c)) ++ new /\
    bookkeeping (disp c') = (q, nq, [], preparedStatements (disp c), None) /\
    let result := replay h nh new makeResult in
    awaited result = Some (mkResult (names description) decoded) /\
    (forall fuel, (List.length decoded < fuel)%nat ->
       drain fuel result 0 = (map Some decoded, DrainDone)).
Proof.
  intros Hrem Hexp Hact Hdescs Hq Hnq Hfits Hcat description decoded new.
  assert (Hwf : all_wf (row_description desc :: map data_row (r :: rows)
                          ++ [command_complete p])).
  { apply wf_result_set.
    apply Forall_cons_iff in Hfits. destruct Hfits as [H1 Hfits].
    apply Forall_cons_iff in Hfits. destruct Hfits as [H2 Hfits].
    constructor; [exact H1|]. constructor; [exact H2 | exact Hfits]. }
  pose (d1 := set_expect 5
                (emit (Names nh (names description))
                   (set_nameHandlers nq
                      (set_rowDescriptions [description] (disp c))))).
  assert (Hrun : exists d',
             run_frames (row_description desc :: map data_row (r :: rows)
                           ++ [command_complete p]) (disp c) = Done tt d' /\
             out d' = out (disp c) ++ new /\
             bookkeeping d' = (q, nq, [], preparedStatements (disp c), None)).
  { eexists. split.
    - cbn [run_frames]. rewrite step_row_description. rewrite Hnq, Hdescs.
      cbn [app]. cbv zeta. fold description. fold d1.
      apply (run_result_set r rows p d1 h q description []).
      + exact Hact.
      + exact Hq.
      + reflexivity.
    - split.
      + cbn [out set_expect set_active emit]. rewrite out_emits.
        subst d1. cbn [out set_expect set_active emit set_rowDescriptions
                         set_dataHandlers set_nameHandlers].
        subst new decoded. rewrite map_map.
        rewrite <- !app_assoc. reflexivity.
      + unfold bookkeeping. cbn [dataHandlers nameHandlers rowDescriptions
                                   preparedStatements activeDataHandlerInfo
                                   set_expect set_active emit].
        match goal with
        | |- context [dataHandlers (emits ?os ?d0)] =>
            destruct (emits_registries os d0) as (H1 & H2 & H3 & H4 & _)
        end.
        rewrite H1, H2, H3, H4. reflexivity. }
  destruct Hrun as (d' & Hrun & Hout & Hbook).
  destruct (feed_frames_done c _ chunks d' Hrem Hexp Hwf Hcat Hrun)
    as (c' & Hfeed & Halike).
  apply alike_fields in Halike.
  destruct Halike as (Hb & _ & _ & _ & _ & _ & _ & _ & Hso & _).
  exists c'. split; [exact Hfeed|]. split; [|split].
  - rewrite Hso, Hout, sync_output_app. f_equal.
    subst new. apply sync_output_result_set.
  - rewrite Hb. exact Hbook.
  - cbv zeta. subst new. rewrite replay_result_set.
    split; [reflexivity|].
    intros fuel Hfuel.
    apply (drain_done (mkIter decoded [] true true (Some (names description))
                         (Some (names description))) fuel eq_refl 0%nat);
      cbn [container]; lia.
Qed.

Lemma wf_row_description (desc : Buffer) :
  fits desc -> wf_frame (row_description desc) = true.
Proof.
  intros H. apply wf_plain; try exact H; try discriminate.
  unfold Message.RowDescription. lia.
Qed.

Lemma wf_command_complete (p : Buffer) :
  fits p -> wf_frame (command_complete p) = true.
Proof.
  intros H. apply wf_plain; try exact H; try discriminate.
  unfold Message.Close. lia.
Qed.

(** X6.  A result set without rows: when the answer to the query whose
    consumers are next in the registries is a row description followed at
    once by the command completion, the names are delivered and nothing
    else.  The row-consumer is not called and stays first in its registry,
    the row description stays queued, the awaited result is not resolved
    and an iteration suspends. *)
Theorem empty_result_set_completes_nothing
  (c : Client) (desc p : Buffer) (chunks : list Buffer)
  (h : RowDataHandler) (q : list RowDataHandler)
  (nh : NameHandler) (nq : list NameHandler) :
  remaining c = 0 -> expect (disp c) = 5 ->
  activeDataHandlerInfo (disp c) = None ->
  rowDescriptions (disp c) = [] ->
  dataHandlers (disp c) = h :: q ->
  nameHandlers (disp c) = nh :: nq ->
  fits desc -> fits p ->
  List.concat chunks = encode [row_description desc; command_complete p] ->
  let description := readRowDescription desc in
  let new := [Names nh (names description)] in
  exists c',
    feed c chunks = Next c' /\
    sync_output (out (disp c')) = sync_output (out (disp c)) ++ new /\
    bookkeeping (disp c')
    = (h :: q, nq, [description], preparedStatements (disp c), None) /\
    let result := replay h nh new makeResult in
    awaited result = None /\ done result = false /\
    fst (next result 0) = Suspended 0.
Proof.
  intros Hrem Hexp Hact Hdescs Hq Hnq Hdesc Hp Hcat description new.
  assert (Hwf : all_wf [row_description desc; command_complete p]).
  { constructor; [apply wf_row_description; exact Hdesc|].
    constructor; [apply wf_command_complete; exact Hp | constructor]. }
  assert (Hrun : run_frames [row_description desc; command_complete p] (disp c)
                 = Done tt (set_expect 5
                              (set_expect 5
                                 (emit (Names nh (names description))
                                    (set_nameHandlers nq
                                       (set_rowDescriptions [description]
                                          (disp c))))))).
  { cbn [run_frames]. rewrite step_row_description. rewrite Hnq, Hdescs.
    cbn [app]. cbv zeta. rewrite step_command_complete.
    cbn [activeDataHandlerInfo set_expect emit set_nameHandlers
           set_rowDescriptions].
    rewrite Hact. reflexivity. }
  destruct (feed_frames_done c _ chunks _ Hrem Hexp Hwf Hcat Hrun)
    as (c' & Hfeed & Halike).
  apply alike_fields in Halike.
  destruct Halike as (Hb & _ & _ & _ & _ & _ & _ & _ & Hso & _).
  exists c'. split; [exact Hfeed|]. split; [|split].
  - rewrite Hso. cbn [out set_expect emit set_nameHandlers set_rowDescriptions].
    rewrite sync_output_app. reflexivity.
  - rewrite Hb. unfold bookkeeping.
    cbn [dataHandlers nameHandlers rowDescriptions preparedStatements
           activeDataHandlerInfo set_expect emit set_nameHandlers
           set_rowDescriptions].
    rewrite Hq, Hact. reflexivity.
  - cbv zeta. subst new. unfold replay. cbn [fold_left].
    rewrite Nat.eqb_refl. repeat split.
Qed.

(** X7.  Rows are paired with the oldest queued row description.  When a
    row description is still queued as a result set arrives (an earlier
    result set had no rows), the rows of the new result set are decoded
    with the queued description, not with their own, and go, with the
    sentinel, to the row-consumer that is first in the registry; the new
    description stays queued in its turn. *)
Theorem rows_take_the_oldest_description
  (c : Client) (desc p r : Buffer) (rows : list Buffer) (chunks : list Buffer)
  (h : RowDataHandler) (q : list RowDataHandler)
  (nh : NameHandler) (nq : list NameHandler)
  (old : RowDescription) (descs : list RowDescription) :
  remaining c = 0 -> expect (disp c) = 5 ->
  activeDataHandlerInfo (disp c) = None ->
  rowDescriptions (disp c) = old :: descs ->
  dataHandlers (disp c) = h :: q ->
  nameHandlers (disp c) = nh :: nq ->
  Forall fits (desc :: p :: r :: rows) ->
  List.concat chunks
  = encode (row_description desc :: map data_row (r :: rows)
              ++ [command_complete p]) ->
  let description := readRowDescription desc in
  let decoded := map (fun r => readRowData r old) (r :: rows) in
  let new := Names nh (names description)
               :: map (fun row => Deliver h (Some row)) decoded
               ++ [Deliver h None] in
  exists c',
    feed c chunks = Next c' /\
    sync_output (out (disp c')) = sync_output (out (disp c)) ++ new /\
    bookkeeping (disp c')
    = (q, nq, descs ++ [description], preparedStatements (disp c), None).
Proof.
  intros Hrem Hexp Hact Hdescs Hq Hnq Hfits Hcat description decoded new.
  assert (Hwf : all_wf (row_description desc :: map data_row (r :: rows)
                          ++ [command_complete p])).
  { apply wf_result_set.
    apply Forall_cons_iff in Hfits. destruct Hfits as [H1 Hfits].
    apply Forall_cons_iff in Hfits. destruct Hfits as [H2 Hfits].
    constructor; [exact H1|]. constructor; [exact H2 | exact Hfits]. }
  pose (d1 := set_expect 5
                (emit (Names nh (names description))
                   (set_nameHandlers nq
                      (set_rowDescriptions (old :: descs ++ [description])
                         (disp c))))).
  assert (Hrun : exists d',
             run_frames (row_description desc :: map data_row (r :: rows)
                           ++ [command_complete p]) (disp c) = Done tt d' /\
             out d' = out (disp c) ++ new /\
             bookkeeping d'
             = (q, nq, descs ++ [description], preparedStatements (disp c), None)).
  { eexists. split.
    - cbn [run_frames]. rewrite step_row_description. rewrite Hnq, Hdescs.
      cbn [app]. cbv zeta. fold description. fold d1.
      apply (run_result_set r rows p d1 h q old (descs ++ [description])).
      + exact Hact.
      + exact Hq.
      + reflexivity.
    - split.
      + cbn [out set_expect set_active emit]. rewrite out_emits.
        subst d1. cbn [out set_expect set_active emit set_rowDescriptions
                         set_dataHandlers set_nameHandlers].
        subst new decoded. rewrite map_map.
        rewrite <- !app_assoc. reflexivity.
      + unfold bookkeeping. cbn [dataHandlers nameHandlers rowDescriptions
                                   preparedStatements activeDataHandlerInfo
                                   set_expect set_active emit].
        match goal with
        | |- context [dataHandlers (emits ?os ?d0)] =>
            destruct (emits_registries os d0) as (H1 & H2 & H3 & H4 & _)
        end.
        rewrite H1, H2, H3, H4. reflexivity. }
  destruct Hrun as (d' & Hrun & Hout & Hbook).
  destruct (feed_frames_done c _ chunks d' Hrem Hexp Hwf Hcat Hrun)
    as (c' & Hfeed & Halike).
  apply alike_fields in Halike.
  destruct Halike as (Hb & _ & _ & _ & _ & _ & _ & _ & Hso & _).
  exists c'. split; [exact Hfeed|]. split.
  - rewrite Hso, Hout, sync_output_app. f_equal.
    subst new. apply sync_output_result_set.
  - rewrite Hb. exact Hbook.
Qed.

(** ** The startup messages *)

Lemma find0_zero_free (s rest : list Z) :
  zero_free s -> find0 (s ++ 0 :: rest) = Some (List.length s).
Proof.
  induction 1 as [|x s Hx Hs IH]; simpl; [reflexivity|].
  apply Z.eqb_neq in Hx. rewrite Hx, IH. reflexivity.
Qed.

Lemma indexOf0_cstring (pre s rest : Buffer) :
  zero_free s ->
  indexOf0 (pre ++ s ++ 0 :: rest) (len pre) = len pre + len s.
Proof.
  intros Hs. unfold indexOf0, len. rewrite Nat2Z.id.
  rewrite skipn_app, skipn_all, Nat.sub_diag. simpl.
  rewrite (find0_zero_free s rest Hs). reflexivity.
Qed.

Lemma step_parameter_status (name value : Str) (d : Dispatch) :
  zero_free name -> zero_free value ->
  step_frame (parameter_status name value) d
  = Done tt (set_expect 5 (emit (Emit (EvParameter name value)) d)).
Proof.
  intros Hn Hv. unfold step_frame, parameter_status. cbn [tag payload].
  change (rowish Message.ParameterStatus) with false. cbv iota.
  unfold dispatch.
  change (Message.ParameterStatus =? Message.Authenticate) with false.
  change (Message.ParameterStatus =? Message.BackendKeyData) with false.
  change (Message.ParameterStatus =? Message.BindComplete) with false.
  change (Message.ParameterStatus =? Message.Close) with false.
  change (Message.ParameterStatus =? Message.CloseComplete) with false.
  change (Message.ParameterStatus =? Message.Error) with false.
  change (Message.ParameterStatus =? Message.Notice) with false.
  change (Message.ParameterStatus =? Message.ParseComplete) with false.
  change (Message.ParameterStatus =? Message.ParameterDescription) with false.
  change (Message.ParameterStatus =? Message.ParameterStatus) with true.
  cbv iota. unfold cstring.
  assert (Hi : indexOf0 ((name ++ [0]) ++ value ++ [0]) 0 = len name).
  { rewrite <- app_assoc. apply (indexOf0_cstring [] name (value ++ [0]) Hn). }
  rewrite Hi.
  assert (Hj : indexOf0 ((name ++ [0]) ++ value ++ [0]) (len name + 1)
               = len name + 1 + len value).
  { replace (len name + 1) with (len (name ++ [0])).
    - apply (indexOf0_cstring (name ++ [0]) value [] Hv).
    - rewrite len_app. reflexivity. }
  rewrite Hj.
  assert (H1 : slice ((name ++ [0]) ++ value ++ [0]) 0 (len name) = name).
  { rewrite <- app_assoc. apply slice_prefix. reflexivity. }
  assert (H2 : slice ((name ++ [0]) ++ value ++ [0]) (len name + 1)
                 (len name + 1 + len value) = value).
  { apply slice_middle_at; [rewrite len_app; reflexivity | reflexivity]. }
  rewrite H1, H2. reflexivity.
Qed.

Lemma two_strings_cstrings (name value : Str) :
  zero_free name -> zero_free value ->
  two_strings (cstring name ++ cstring value) = true.
Proof.
  intros Hn Hv. unfold two_strings, cstring.
  rewrite <- app_assoc. cbn [app].
  rewrite (find0_zero_free name (value ++ [0]) Hn).
  replace (skipn (S (List.length name)) (name ++ 0 :: value ++ [0]))
    with (value ++ [0]).
  - rewrite (find0_zero_free value [] Hv). reflexivity.
  - change (name ++ 0 :: value ++ [0]) with (name ++ [0] ++ (value ++ [0])).
    rewrite app_assoc.
    replace (S (List.length name)) with (List.length (name ++ [0])).
    + rewrite skipn_app, skipn_all, Nat.sub_diag. reflexivity.
    + rewrite length_app. simpl. lia.
Qed.

Lemma wf_parameter_status (name value : Str) :
  zero_free name -> zero_free value ->
  fits (cstring name ++ cstring value) ->
  wf_frame (parameter_status name value) = true.
Proof.
  intros Hn Hv Hfit. unfold wf_frame, parameter_status. cbn [tag payload].
  change (Message.ParameterStatus =? Message.Authenticate) with false.
  change (Message.ParameterStatus =? Message.BackendKeyData) with false.
  change (Message.ParameterStatus =? Message.NoData) with false.
  change (Message.ParameterStatus =? Message.ParameterDescription) with false.
  change (Message.ParameterStatus =? Message.ParameterStatus) with true.
  cbv iota. rewrite (two_strings_cstrings name value Hn Hv).
  unfold fits in Hfit. rewrite andb_true_r.
  apply andb_true_iff. split; [reflexivity|]. lia.
Qed.

Lemma step_authentication (code : Z) (d : Dispatch) :
  0 <= code < 2147483648 ->
  step_frame (authentication code) d
  = Done tt (set_expect 5
               match code with
               | 0 => set_ticks (S (ticks d))
                        (set_connecting false
                           (set_transactionStatus TransactionStatus.Idle d))
               | 3 => emit (Writer (WPassword password)) d
               | _ => d
               end).
Proof.
  intros Hc. unfold step_frame, authentication. cbn [tag payload].
  change (rowish Message.Authenticate) with false. cbv iota.
  unfold dispatch.
  change (Message.Authenticate =? Message.Authenticate) with true.
  cbv iota. rewrite (be32_read code Hc).
  destruct code as [|[[|[]|]|[]|]|]; reflexivity.
Qed.

Lemma wf_authentication (code : Z) : wf_frame (authentication code) = true.
Proof. reflexivity. Qed.

Lemma step_backend_key (pid key : Z) (d : Dispatch) :
  0 <= pid < 2147483648 -> 0 <= key < 2147483648 ->
  step_frame (backend_key pid key) d
  = Done tt (set_expect 5 (set_secretKey key (set_processId pid d))).
Proof.
  intros Hp Hk. unfold step_frame, backend_key. cbn [tag payload].
  change (rowish Message.BackendKeyData) with false. cbv iota.
  unfold dispatch.
  change (Message.BackendKeyData =? Message.Authenticate) with false.
  change (Message.BackendKeyData =? Message.BackendKeyData) with true.
  cbv iota.
  assert (H1 : readInt32BE (be32 pid ++ be32 key) 0 = Some pid).
  { rewrite <- (be32_read pid Hp).
    apply (readInt32BE_inside [] (be32 pid) (be32 key) 0); [lia|].
    rewrite be32_length. lia. }
  assert (H2 : readInt32BE (be32 pid ++ be32 key) (0 + 4) = Some key).
  { rewrite <- (be32_read key Hk).
    rewrite <- (app_nil_r (be32 key)) at 1.
    change (0 + 4) with (len (be32 pid) + 0).
    apply (readInt32BE_inside (be32 pid) (be32 key) [] 0); [lia|].
    rewrite be32_length. lia. }
  rewrite H1, H2. reflexivity.
Qed.

Lemma wf_backend_key (pid key : Z) : wf_frame (backend_key pid key) = true.
Proof. reflexivity. Qed.

Lemma step_ready_for_query (status : Z) (d : Dispatch) :
  0 <= status < 128 ->
  step_frame (ready_for_query status) d
  = Done tt (set_expect 5
               (flush (set_ready true (set_transactionStatus status d)))).
Proof.
  intros Hs. unfold step_frame, ready_for_query. cbn [tag payload].
  change (rowish Message.ReadyForQuery) with false. cbv iota.
  unfold dispatch.
  change (Message.ReadyForQuery =? Message.Authenticate) with false.
  change (Message.ReadyForQuery =? Message.BackendKeyData) with false.
  change (Message.ReadyForQuery =? Message.BindComplete) with false.
  change (Message.ReadyForQuery =? Message.Close) with false.
  change (Message.ReadyForQuery =? Message.CloseComplete) with false.
  change (Message.ReadyForQuery =? Message.Error) with false.
  change (Message.ReadyForQuery =? Message.Notice) with false.
  change (Message.ReadyForQuery =? Message.ParseComplete) with false.
  change (Message.ReadyForQuery =? Message.ParameterDescription) with false.
  change (Message.ReadyForQuery =? Message.ParameterStatus) with false.
  change (Message.ReadyForQuery =? Message.ReadyForQuery) with true.
  cbv iota.
  assert (H : readInt8 [status] 0 = Some status).
  { unfold readInt8. cbn [get Z.ltb Z.compare Z.to_nat nth_error].
    destruct (Z.leb_spec 128 status); [lia | reflexivity]. }
  rewrite H. reflexivity.
Qed.

Lemma wf_ready_for_query (status : Z) : wf_frame (ready_for_query status) = true.
Proof. reflexivity. Qed.

Lemma emits_record (os : list Output) :
  forall d,
  emits os d
  = mkDispatch (expect d) (dataHandlers d) (nameHandlers d) (rowDescriptions d)
      (preparedStatements d) (activeDataHandlerInfo d) (ready d) (mustDrain d)
      (connecting d) (processId d) (secretKey d) (transactionStatus d)
      (sends d) (ticks d) (out d ++ os).
Proof.
  induction os as [|o os IH]; intros d; simpl.
  - rewrite app_nil_r. destruct d; reflexivity.
  - rewrite IH. simpl. rewrite <- app_assoc. reflexivity.
Qed.

Lemma feed_frames_normal (c : Client) (fs : list Frame) (chunks : list Buffer)
  (dn : Dispatch) :
  remaining c = 0 -> expect (disp c) = 5 -> all_wf fs ->
  List.concat chunks = encode fs ->
  step_map normal (run_frames fs (disp c)) = Done tt dn ->
  exists c', feed c chunks = Next c' /\ normal (disp c') = dn.
Proof.
  intros Hrem Hexp Hwf Hcat Hrun.
  destruct (run_frames fs (disp c)) as [[] d'|e d'|d'] eqn:Hr;
    simpl in Hrun; try discriminate.
  destruct (feed_frames_done c fs chunks d' Hrem Hexp Hwf Hcat Hr)
    as (c' & Hfeed & Halike).
  exists c'. split; [exact Hfeed|]. unfold alike in Halike. rewrite Halike.
  apply (f_equal state_of) in Hrun. exact Hrun.
Qed.

Lemma run_frames_normal_step (f : Frame) (fs : list Frame) (d d1 : Dispatch) :
  step_frame f d = Done tt (set_expect 5 d1) ->
  step_map normal (run_frames (f :: fs) d) = step_map normal (run_frames fs d1).
Proof.
  intros H. cbn [run_frames]. rewrite H.
  apply run_frames_alike. apply alike_set_expect.
Qed.

Lemma run_parameters (params : list (Str * Str)) (rest : list Frame) :
  forall d,
  Forall (fun nv => zero_free (fst nv) /\ zero_free (snd nv)) params ->
  step_map normal
    (run_frames (map (fun nv => parameter_status (fst nv) (snd nv)) params
                   ++ rest) d)
  = step_map normal
      (run_frames rest
         (emits (map (fun nv => Emit (EvParameter (fst nv) (snd nv))) params) d)).
Proof.
  induction params as [|[n v] params IH]; intros d Hall; [reflexivity|].
  apply Forall_cons_iff in Hall. destruct Hall as [[Hn Hv] Hall].
  cbn [map app fst snd].
  rewrite (run_frames_normal_step _ _ d (emit (Emit (EvParameter n v)) d)).
  - rewrite IH; [reflexivity | exact Hall].
  - apply step_parameter_status; assumption.
Qed.

Lemma feed_leaves_no_tick (chunks : list Buffer) :
  forall c c', chunks <> [] -> feed c chunks = Next c' -> ticks (disp c') = O.
Proof.
  induction chunks as [|chunk rest IH]; intros c c' Hne Hfeed; [congruence|].
  simpl in Hfeed. unfold feed_chunk in Hfeed.
  destruct (on_data c chunk) as [c1|e c1|c1]; try discriminate.
  destruct rest as [|chunk' rest'].
  - simpl in Hfeed. injection Hfeed as <-. reflexivity.
  - apply (IH (tick c1) c'); [discriminate | exact Hfeed].
Qed.

Lemma parameters_no_connect (params : list (Str * Str)) :
  let evs := map (fun nv => Emit (EvParameter (fst nv) (snd nv))) params in
  sync_output evs = evs /\ connects evs = O.
Proof.
  induction params as [|nv params IH]; simpl; [split; reflexivity|].
  destruct IH as [IH1 IH2]. unfold sync_output, connects in *. simpl.
  rewrite IH1, IH2. split; reflexivity.
Qed.

(** X8.  The server's startup answer: authentication accepted, parameter
    statuses, the backend key and ready-for-query, however the bytes are
    cut into chunks.  The client is no longer connecting and is ready, it
    holds the process id, the secret key and the transaction status, it
    has emitted each parameter in order and the connect event once, and it
    has called [writer.send()] once, which flushes what was written before
    the connection was ready; the queries' bookkeeping is as it was. *)
Theorem startup_makes_ready
  (c : Client) (params : list (Str * Str)) (pid key status : Z)
  (chunks : list Buffer) :
  remaining c = 0 -> expect (disp c) = 5 ->
  mustDrain (disp c) = false -> ticks (disp c) = O ->
  Forall (fun nv => zero_free (fst nv) /\ zero_free (snd nv) /\
                    fits (cstring (fst nv) ++ cstring (snd nv))) params ->
  0 <= pid < 2147483648 -> 0 <= key < 2147483648 -> 0 <= status < 128 ->
  List.concat chunks
  = encode (authentication 0
              :: map (fun nv => parameter_status (fst nv) (snd nv)) params
              ++ [backend_key pid key; ready_for_query status]) ->
  exists c',
    feed c chunks = Next c' /\
    connecting (disp c') = false /\ ready (disp c') = true /\
    processId (disp c') = Some pid /\ secretKey (disp c') = Some key /\
    transactionStatus (disp c') = Some status /\
    sync_output (out (disp c'))
    = sync_output (out (disp c))
        ++ map (fun nv => Emit (EvParameter (fst nv) (snd nv))) params
        ++ [Writer WSend] /\
    connects (out (disp c')) = S (connects (out (disp c))) /\
    sends (disp c') = S (sends (disp c)) /\
    mustDrain (disp c') = send_result (sends (disp c)) /\
    bookkeeping (disp c') = bookkeeping (disp c).
Proof.
  intros Hrem Hexp Hmd Hticks Hparams Hpid Hkey Hstatus Hcat.
  set (fs := authentication 0
               :: map (fun nv => parameter_status (fst nv) (snd nv)) params
               ++ [backend_key pid key; ready_for_query status]) in *.
  assert (Hwf : all_wf fs).
  { constructor; [apply wf_authentication|].
    apply Forall_app. split.
    - apply Forall_map. apply (Forall_impl _ (P := fun nv =>
        zero_free (fst nv) /\ zero_free (snd nv) /\
        fits (cstring (fst nv) ++ cstring (snd nv)))); [|exact Hparams].
      intros [n v] (Hn & Hv & Hf). apply wf_parameter_status; assumption.
    - constructor; [apply wf_backend_key|].
      constructor; [apply wf_ready_for_query | constructor]. }
  assert (Hzf : Forall (fun nv => zero_free (fst nv) /\ zero_free (snd nv)) params).
  { apply (Forall_impl _ (P := fun nv =>
        zero_free (fst nv) /\ zero_free (snd nv) /\
        fits (cstring (fst nv) ++ cstring (snd nv)))); [|exact Hparams].
    intros nv (Hn & Hv & _). split; assumption. }
  set (evs := map (fun nv => Emit (EvParameter (fst nv) (snd nv))) params).
  set (d1 := set_ticks (S (ticks (disp c)))
               (set_connecting false
                  (set_transactionStatus TransactionStatus.Idle (disp c)))).
  set (d3 := set_secretKey key (set_processId pid (emits evs d1))).
  set (d5 := flush (set_ready true (set_transactionStatus status d3))).
  assert (Hrun : step_map normal (run_frames fs (disp c)) = Done tt (normal d5)).
  { subst fs.
    rewrite (run_frames_normal_step _ _ (disp c) d1);
      [|apply (step_authentication 0); lia].
    rewrite (run_parameters params _ d1 Hzf). fold evs.
    rewrite (run_frames_normal_step _ _ (emits evs d1) d3);
      [|apply step_backend_key; assumption].
    rewrite (run_frames_normal_step _ _ d3 d5);
      [|apply step_ready_for_query; assumption].
    reflexivity. }
  destruct (feed_frames_normal c fs chunks _ Hrem Hexp Hwf Hcat Hrun)
    as (c' & Hfeed & Hnormal).
  assert (Hne : chunks <> []).
  { intros ->. simpl in Hcat. subst fs. discriminate. }
  pose proof (feed_leaves_no_tick chunks c c' Hne Hfeed) as Ht0.
  apply alike_fields in Hnormal.
  destruct Hnormal as (Hb & Hr & Hm & Hc & Hp & Hs & Ht & Hsn & Hso & Hcn).
  assert (Hd5 : d5 = (if send_result (sends (disp c))
                      then set_mustDrain true else fun d => d)
                       (set_sends (S (sends (disp c)))
                          (emit (Writer WSend)
                             (set_ready true (set_transactionStatus status d3))))).
  { subst d5 d3 d1. rewrite emits_record. unfold flush.
    cbn [ready mustDrain sends set_ready set_transactionStatus set_secretKey
           set_processId set_ticks set_connecting negb orb].
    rewrite Hmd. cbn [orb].
    destruct (send_result (sends (disp c))); reflexivity. }
  assert (Hout : out d5 = out (disp c) ++ evs ++ [Writer WSend]).
  { rewrite Hd5. subst d3 d1. rewrite emits_record.
    destruct (send_result (sends (disp c))); simpl;
      rewrite <- app_assoc; reflexivity. }
  exists c'. split; [exact Hfeed|].
  rewrite Hc, Hr, Hp, Hs, Ht, Hso, Hsn, Hm, Hb.
  rewrite Ht0 in Hcn. simpl in Hcn. rewrite Hcn.
  rewrite Hout, Hd5. subst d3 d1. rewrite emits_record.
  destruct (send_result (sends (disp c))); simpl.
  all: rewrite Hticks.
  all: rewrite !connects_app, !sync_output_app.
  all: destruct (parameters_no_connect params) as [He1 He2]; fold evs in He1, He2.
  all: rewrite He1, He2.
  all: repeat split; try exact Hmd.
  all: change (connects [Writer WSend]) with O; lia.
Qed.

Lemma step_authentication_request (code : Z) (extra : Buffer) (d : Dispatch) :
  0 <= code < 2147483648 ->
  step_frame (authentication_request code extra) d
  = Done tt (set_expect 5
               match code with
               | 0 => set_ticks (S (ticks d))
                        (set_connecting false
                           (set_transactionStatus TransactionStatus.Idle d))
               | 3 => emit (Writer (WPassword password)) d
               | _ => d
               end).
Proof.
  intros Hc. unfold step_frame, authentication_request. cbn [tag payload].
  change (rowish Message.Authenticate) with false. cbv iota.
  unfold dispatch.
  change (Message.Authenticate =? Message.Authenticate) with true.
  cbv iota.
  assert (H : readInt32BE (be32 code ++ extra) 0 = Some code).
  { rewrite <- (be32_read code Hc).
    apply (readInt32BE_inside [] (be32 code) extra 0); [lia|].
    rewrite be32_length. lia. }
  rewrite H.
  destruct code as [|[[|[]|]|[]|]|]; reflexivity.
Qed.

(** X10.  Authentication requests.  To the request for a clear-text
    password (code 3) the client writes the configured password, and
    nothing else changes.  A request with any other code but 0, such as an
    MD5 or a SASL request, gets no answer: the frame is consumed, nothing
    is written or emitted and the client is as it was. *)
Theorem authentication_requests
  (c : Client) (code : Z) (extra : Buffer) (chunks : list Buffer) :
  remaining c = 0 -> expect (disp c) = 5 ->
  0 < code < 2147483648 -> fits (be32 code ++ extra) ->
  List.concat chunks = encode [authentication_request code extra] ->
  exists c',
    feed c chunks = Next c' /\
    (code = 3 -> alike (disp c') (emit (Writer (WPassword password)) (disp c))) /\
    (code <> 3 -> alike (disp c') (disp c)).
Proof.
  intros Hrem Hexp Hcode Hfit Hcat.
  assert (Hwf : all_wf [authentication_request code extra]).
  { constructor; [|constructor].
    unfold fits in Hfit. unfold wf_frame, authentication_request.
    cbn [tag payload].
    change (Message.Authenticate =? Message.Authenticate) with true. cbv iota.
    rewrite len_app, be32_length in *.
    pose proof (len_nonneg extra).
    repeat (apply andb_true_iff; split); try reflexivity; lia. }
  pose proof (step_authentication_request code extra (disp c)) as Hstep.
  destruct (feed_frames_done c _ chunks _ Hrem Hexp Hwf Hcat
              ltac:(cbn [run_frames]; rewrite Hstep by lia; reflexivity))
    as (c' & Hfeed & Halike).
  exists c'. split; [exact Hfeed|]. split.
  - intros ->. eapply alike_trans; [exact Halike|]. apply alike_set_expect.
  - intros Hn3. eapply alike_trans; [exact Halike|].
    eapply alike_trans; [apply alike_set_expect|].
    destruct code as [|[[|[]|]|[]|]|]; try apply alike_refl; lia.
Qed.

(** ** Frames that do not concern the queries *)

Section Quiet.

Variable B : list RowDataHandler * list NameHandler * list RowDescription
             * list PreparedStatement * option (RowDataHandler * RowDescription).
Variable C : list (RowDataHandler * bool).
Variable N : list NameHandler.

Lemma settled_same (d d' : Dispatch) :
  bookkeeping d' = bookkeeping d ->
  consumer_calls (out d') = consumer_calls (out d) ->
  names_called (out d') = names_called (out d) ->
  settled_as B C N d -> settled_as B C N d'.
Proof.
  intros H1 H2 H3 (Hb & Hc & Hn). unfold settled_as.
  rewrite H1, H2, H3. auto.
Qed.

Lemma settled_flush (d : Dispatch) :
  settled_as B C N d -> settled_as B C N (flush d).
Proof.
  intros H. unfold flush.
  destruct (negb (ready d) || mustDrain d); [exact H|].
  destruct (send_result (sends d));
    (eapply settled_same; [ | | | exact H]); simpl;
    rewrite ?consumer_calls_app, ?names_called_app; simpl;
    rewrite ?app_nil_r; reflexivity.
Qed.

Ltac same_settled H :=
  first
    [ exact H
    | exact I
    | eapply settled_same; [ | | | exact H ]; simpl;
      rewrite ?consumer_calls_app, ?names_called_app; simpl;
      rewrite ?app_nil_r; reflexivity ].

Lemma settled_dispatch (mtype : Z) (buffer : Buffer) (start length : Z)
  (d : Dispatch) :
  touches mtype = false ->
  settled_as B C N d ->
  kept (settled_as B C N) (settled_as B C N)
    (dispatch mtype buffer start length d).
Proof.
  intros Ht H. unfold touches in Ht.
  apply orb_false_iff in Ht. destruct Ht as [Ht Ht5].
  apply orb_false_iff in Ht. destruct Ht as [Ht Ht4].
  apply orb_false_iff in Ht. destruct Ht as [Ht Ht3].
  apply orb_false_iff in Ht. destruct Ht as [Ht1 Ht2].
  unfold dispatch. rewrite Ht3, Ht4, Ht5. cbv iota.
  repeat match goal with
         | |- context [if ?b then _ else _] => destruct b
         end.
  - destruct (readInt32BE buffer start) as [[|p|p]|]; simpl; try same_settled H.
    destruct p as [[|[]|]|[]|]; simpl; same_settled H.
  - destruct (readInt32BE buffer start), (readInt32BE buffer (start + 4));
      simpl; same_settled H.
  - exact H.
  - exact H.
  - destruct (parseError _); simpl; same_settled H.
  - destruct (parseError _); simpl; same_settled H.
  - exact H.
  - simpl. same_settled H.
  - destruct (readInt8 buffer start); simpl; [|exact H].
    apply settled_flush. same_settled H.
  - simpl. same_settled H.
Qed.

Lemma settled_step_frame (f : Frame) (d : Dispatch) :
  touches (tag f) = false ->
  settled_as B C N d ->
  kept (settled_as B C N) (settled_as B C N) (step_frame f d).
Proof.
  intros Ht H. unfold step_frame.
  assert (Hr : rowish (tag f) = false).
  { unfold touches in Ht. unfold rowish.
    destruct (tag f =? Message.RowData); [discriminate|].
    destruct (tag f =? Message.NoData); [discriminate|]. reflexivity. }
  rewrite Hr.
  pose proof (settled_dispatch (tag f) (payload f) 0 (len (payload f)) d Ht H) as Hk.
  destruct (dispatch (tag f) (payload f) 0 (len (payload f)) d); simpl in *;
    exact Hk.
Qed.

Lemma settled_run_frames (fs : list Frame) :
  forall d,
  Forall (fun f => touches (tag f) = false) fs ->
  settled_as B C N d ->
  kept (settled_as B C N) (settled_as B C N) (run_frames fs d).
Proof.
  induction fs as [|f fs IH]; intros d Hall H; [exact H|].
  apply Forall_cons_iff in Hall. destruct Hall as [Hf Hall].
  cbn [run_frames].
  pose proof (settled_step_frame f d Hf H) as Hk.
  destruct (step_frame f d) as [u d1|e d1|d1]; simpl in Hk |- *.
  - apply IH; assumption.
  - exact Hk.
  - exact I.
Qed.

End Quiet.

Lemma calls_sync_output (t : list Output) :
  consumer_calls (sync_output t) = consumer_calls t /\
  names_called (sync_output t) = names_called t.
Proof.
  induction t as [|o t [IH1 IH2]]; [split; reflexivity|].
  destruct o as [h [row|]|h ns|[]|op|m]; simpl;
    unfold sync_output in *; simpl; rewrite ?IH1, ?IH2; split; reflexivity.
Qed.

Lemma thrown_fields (d d' : Dispatch) :
  set_ticks O (normal d) = set_ticks O (normal d') ->
  bookkeeping d = bookkeeping d' /\
  sync_output (out d) = sync_output (out d').
Proof.
  unfold set_ticks, normal, bookkeeping. simpl. intros H.
  injection H as H1 H2 H3 H4 H5 _ _ _ _ _ _ _ H13.
  rewrite H1, H2, H3, H4, H5. split; [reflexivity | exact H13].
Qed.

(** X9.  Frames other than row data, "no data", row description, parameter
    description and command completion do not concern the queries: however
    the bytes are cut, and whether the run ends normally or an error
    message cannot be parsed, the four registries and the active context
    are as before and no row-consumer or name-consumer is called.  An error
    response, in particular, is emitted as an event and completes no
    query. *)
Theorem other_frames_leave_the_queries
  (c : Client) (fs : list Frame) (chunks : list Buffer) :
  remaining c = 0 -> expect (disp c) = 5 -> all_wf fs ->
  Forall (fun f => touches (tag f) = false) fs ->
  List.concat chunks = encode fs ->
  exists c',
    feed_ends (feed c chunks) c' /\
    bookkeeping (disp c') = bookkeeping (disp c) /\
    consumer_calls (out (disp c')) = consumer_calls (out (disp c)) /\
    names_called (out (disp c')) = names_called (out (disp c)).
Proof.
  intros Hrem Hexp Hwf Hall Hcat.
  pose proof (settled_run_frames (bookkeeping (disp c))
                (consumer_calls (out (disp c))) (names_called (out (disp c)))
                fs (disp c) Hall (conj eq_refl (conj eq_refl eq_refl))) as Hk.
  destruct (run_frames fs (disp c)) as [[] d'|e d'|d'] eqn:Hrun; simpl in Hk.
  - destruct (feed_frames_done c fs chunks d' Hrem Hexp Hwf Hcat Hrun)
      as (c' & Hfeed & Halike).
    apply alike_fields in Halike.
    destruct Halike as (Hb & _ & _ & _ & _ & _ & _ & _ & Hso & _).
    destruct Hk as (Kb & Kc & Kn).
    exists c'. split; [left; exact Hfeed|].
    destruct (calls_sync_output (out (disp c'))) as [E1 E2].
    destruct (calls_sync_output (out d')) as [F1 F2].
    rewrite Hb, Kb, <- E1, <- E2, Hso, F1, F2, Kc, Kn. auto.
  - destruct (feed_frames_raise c fs chunks e d' Hrem Hexp Hwf Hcat Hrun)
      as (c' & Hfeed & Heq).
    apply thrown_fields in Heq. destruct Heq as [Hb Hso].
    destruct Hk as (Kb & Kc & Kn).
    exists c'. split; [right; exists e; exact Hfeed|].
    destruct (calls_sync_output (out (disp c'))) as [E1 E2].
    destruct (calls_sync_output (out d')) as [F1 F2].
    rewrite Hb, Kb, <- E1, <- E2, Hso, F1, F2, Kc, Kn. auto.
  - exfalso. apply (run_frames_not_stuck fs (disp c) d' Hrun).
Qed.

(** ** From [execute] to the bind *)

Lemma be16_read (n : Z) (rest : Buffer) :
  0 <= n < 32768 -> readInt16BE (be16 n ++ rest) 0 = Some n.
Proof.
  intros Hn. unfold readInt16BE.
  change (get (be16 n ++ rest) 0) with (Some (n / 256 mod 256)).
  change (get (be16 n ++ rest) (0 + 1)) with (Some (n mod 256)).
  cbv iota.
  assert (H1 : n / 256 mod 256 = n / 256).
  { apply Z.mod_small. split; [apply Z.div_pos; lia|].
    apply Z.div_lt_upper_bound; lia. }
  pose proof (Z.div_mod n 256 ltac:(lia)) as E0.
  assert (Hu : n / 256 mod 256 * 256 + n mod 256 = n) by (rewrite H1; lia).
  rewrite Hu. destruct (Z.leb_spec 32768 n); [lia | reflexivity].
Qed.

Lemma read_types_be32 (oids : list Z) :
  Forall (fun t => 0 <= t < 2147483648) oids ->
  forall pre post : Buffer,
  read_types (pre ++ flat_map be32 oids ++ post) (len pre) (List.length oids)
  = Some oids.
Proof.
  induction 1 as [|t oids Ht Hall IH]; intros pre post; [reflexivity|].
  cbn [flat_map List.length read_types].
  assert (H1 : readInt32BE (pre ++ (be32 t ++ flat_map be32 oids) ++ post)
                 (len pre) = Some t).
  { rewrite <- (be32_read t Ht). rewrite <- app_assoc.
    replace (len pre) with (len pre + 0) at 1 by lia.
    apply readInt32BE_inside; [lia | rewrite be32_length; lia]. }
  rewrite H1.
  assert (H2 : read_types (pre ++ (be32 t ++ flat_map be32 oids) ++ post)
                 (len pre + 4) (List.length oids) = Some oids).
  { rewrite <- app_assoc, app_assoc.
    replace (len pre + 4) with (len (pre ++ be32 t))
      by (rewrite len_app, be32_length; reflexivity).
    apply IH. }
  rewrite H2. reflexivity.
Qed.

Lemma step_parameter_description (oids : list Z) (d : Dispatch)
  (ps : PreparedStatement) (rest : list PreparedStatement) :
  Forall (fun t => 0 <= t < 2147483648) oids -> len oids < 32768 ->
  preparedStatements d = ps :: rest ->
  step_frame (parameter_description oids) d
  = Done tt
      (set_expect 5
         (flush
            (emit (Writer WSync)
               (match ps_portal ps with
                | [] => fun d => d
                | _ :: _ => emit (Writer (WClose (ps_portal ps) "P"))
                end
                  (emit (Writer (WClose (ps_name ps) "S"))
                     (emit (Writer (WExecute (ps_portal ps)))
                        (emit (Writer (WBind (ps_name ps) (ps_portal ps)
                                         (ps_args ps) oids))
                           (set_preparedStatements rest d)))))))).
Proof.
  intros Hoids Hlen Hps. unfold step_frame, parameter_description.
  cbn [tag payload].
  change (rowish Message.ParameterDescription) with false. cbv iota.
  unfold dispatch.
  change (Message.ParameterDescription =? Message.Authenticate) with false.
  change (Message.ParameterDescription =? Message.BackendKeyData) with false.
  change (Message.ParameterDescription =? Message.BindComplete) with false.
  change (Message.ParameterDescription =? Message.Close) with false.
  change (Message.ParameterDescription =? Message.CloseComplete) with false.
  change (Message.ParameterDescription =? Message.Error) with false.
  change (Message.ParameterDescription =? Message.Notice) with false.
  change (Message.ParameterDescription =? Message.ParseComplete) with false.
  change (Message.ParameterDescription =? Message.ParameterDescription) with true.
  cbv iota.
  pose proof (len_nonneg oids) as H0.
  rewrite (be16_read (len oids) _ (conj H0 Hlen)). rewrite Hps.
  destruct (Z.ltb_spec (len oids) 0); [lia|].
  assert (Hrt : read_types (be16 (len oids) ++ flat_map be32 oids) (0 + 2)
                  (Z.to_nat (len oids)) = Some oids).
  { unfold len at 2. rewrite Nat2Z.id.
    rewrite <- (app_nil_r (flat_map be32 oids)).
    apply (read_types_be32 oids Hoids (be16 (len oids)) []). }
  rewrite Hrt. destruct (ps_portal ps); reflexivity.
Qed.

Lemma wf_parameter_description (oids : list Z) :
  len oids < 32768 -> wf_frame (parameter_description oids) = true.
Proof.
  intros Hlen. pose proof (len_nonneg oids) as H0.
  unfold wf_frame, parameter_description. cbn [tag payload].
  change (Message.ParameterDescription =? Message.Authenticate) with false.
  change (Message.ParameterDescription =? Message.BackendKeyData) with false.
  change (Message.ParameterDescription =? Message.NoData) with false.
  change (Message.ParameterDescription =? Message.ParameterDescription) with true.
  cbv iota. rewrite (be16_read (len oids) _ (conj H0 Hlen)).
  assert (Hl : len (be16 (len oids) ++ flat_map be32 oids) = 2 + 4 * len oids).
  { rewrite len_app. change (len (be16 (len oids))) with 2. f_equal.
    clear. induction oids as [|t oids IH]; [reflexivity|].
    cbn [flat_map]. rewrite len_app, be32_length, IH.
    unfold len. simpl List.length. lia. }
  rewrite Hl.
  repeat (apply andb_true_iff; split); try reflexivity; lia.
Qed.

Lemma flush_keeps (d : Dispatch) :
  expect (flush d) = expect d /\
  preparedStatements (flush d) = preparedStatements d /\
  out (flush d) = out d ++ (if negb (ready d) || mustDrain d then []
                            else [Writer WSend]).
Proof.
  unfold flush. destruct (negb (ready d) || mustDrain d).
  - rewrite app_nil_r. auto.
  - destruct (send_result (sends d)); auto.
Qed.

Lemma execute_prepares (query : Query') (h : RowDataHandler) (nh : NameHandler)
  (k : Conn) :
  q_args query <> [] ->
  let name := or_else (q_name query)
                (preparedStatementPrefix
                   ++ number_to_string (nextPreparedStatementId k)) in
  let portal := or_else (q_portal query) [] in
  let k1 := execute query h nh k in
  let at_call := List.length (out (disp (client k))) in
  calls k1 = calls k ++ [(at_call, Parse name (q_text query) (Some (q_types query)));
                         (at_call, Describe name "S"); (at_call, Sync)] /\
  remaining (client k1) = remaining (client k) /\
  expect (disp (client k1)) = expect (disp (client k)) /\
  preparedStatements (disp (client k1))
  = preparedStatements (disp (client k)) ++ [mkPS name portal (q_args query)].
Proof.
  intros Hargs name portal k1 at_call. subst k1. unfold execute.
  destruct (q_args query) as [|a args] eqn:Ha; [congruence|].
  fold name. fold portal.
  destruct (truthy (q_name query)); cbn -[flush].
  all: match goal with
       | |- context [flush ?d] => destruct (flush_keeps d) as (H1 & H2 & _)
       end.
  all: rewrite H1, H2; cbn; repeat split;
       rewrite <- !app_assoc; reflexivity.
Qed.

Lemma step_parse_complete (d : Dispatch) :
  step_frame (mkFrame Message.ParseComplete []) d = Done tt (set_expect 5 d).
Proof. reflexivity. Qed.

(** X11.  A query with arguments, from [execute] to the bind.  [execute]
    writes the parse and the describe of the statement under its name (its
    own, or the generated one) and queues the arguments.  When the parse
    acknowledgement and the parameter description arrive, however the bytes
    are cut, the client writes the bind of that statement with the query's
    own arguments and the types the server announced, in order, the
    execute, the close of the statement, the close of the portal when it
    has a name, and the sync; it then flushes, which calls [writer.send()]
    when the connection is ready and awaits no drain. *)
Theorem parametrised_query_is_bound
  (k : Conn) (query : Query') (h : RowDataHandler) (nh : NameHandler)
  (oids : list Z) (chunks : list Buffer) :
  remaining (client k) = 0 -> expect (disp (client k)) = 5 ->
  preparedStatements (disp (client k)) = [] ->
  q_args query <> [] ->
  Forall (fun t => 0 <= t < 2147483648) oids -> len oids < 32768 ->
  List.concat chunks
  = encode [mkFrame Message.ParseComplete []; parameter_description oids] ->
  let name := or_else (q_name query)
                (preparedStatementPrefix
                   ++ number_to_string (nextPreparedStatementId k)) in
  let portal := or_else (q_portal query) [] in
  let k1 := execute query h nh k in
  let d1 := disp (client k1) in
  let at_call := List.length (out (disp (client k))) in
  calls k1 = calls k ++ [(at_call, Parse name (q_text query) (Some (q_types query)));
                         (at_call, Describe name "S"); (at_call, Sync)] /\
  exists c',
    feed (client k1) chunks = Next c' /\
    preparedStatements (disp c') = [] /\
    sync_output (out (disp c'))
    = sync_output (out d1)
        ++ [Writer (WBind name portal (q_args query) oids);
            Writer (WExecute portal); Writer (WClose name "S")]
        ++ match portal with
           | [] => []
           | _ :: _ => [Writer (WClose portal "P")]
           end
        ++ [Writer WSync]
        ++ (if negb (ready d1) || mustDrain d1 then [] else [Writer WSend]).
Proof.
  intros Hrem Hexp Hps Hargs Hoids Hlen Hcat name portal k1 d1 at_call.
  destruct (execute_prepares query h nh k Hargs) as (Hcalls & Hrem1 & Hexp1 & Hps1).
  fold name portal k1 at_call in Hcalls, Hrem1, Hexp1, Hps1.
  fold d1 in Hexp1, Hps1. rewrite Hps in Hps1. cbn [app] in Hps1.
  split; [exact Hcalls|]. clear Hcalls. clearbody k1.
  assert (Hwf : all_wf [mkFrame Message.ParseComplete []; parameter_description oids]).
  { constructor; [reflexivity|].
    constructor; [apply wf_parameter_description; exact Hlen | constructor]. }
  pose proof (step_parameter_description oids d1 _ [] Hoids Hlen Hps1) as Hstep.
  cbn [ps_name ps_portal ps_args] in Hstep.
  match type of Hstep with
  | _ = Done tt (set_expect 5 ?dfin) => set (dfinal := dfin) in *
  end.
  assert (Hrun : step_map normal
                   (run_frames [mkFrame Message.ParseComplete [];
                                parameter_description oids] d1)
                 = Done tt (normal dfinal)).
  { rewrite (run_frames_normal_step _ _ d1 d1 (step_parse_complete d1)).
    rewrite (run_frames_normal_step _ _ d1 dfinal Hstep). reflexivity. }
  destruct (feed_frames_normal (client k1) _ chunks _
              ltac:(rewrite Hrem1; exact Hrem) ltac:(fold d1; lia) Hwf Hcat Hrun)
    as (c' & Hfeed & Hnormal).
  apply alike_fields in Hnormal.
  destruct Hnormal as (Hb & _ & _ & _ & _ & _ & _ & _ & Hso & _).
  exists c'. split; [exact Hfeed|].
  apply (f_equal (fun b => snd (fst b))) in Hb. cbn [bookkeeping fst snd] in Hb.
  rewrite Hb, Hso. subst dfinal.
  match goal with
  | |- context [flush ?d] => destruct (flush_keeps d) as (_ & H2 & H3)
  end.
  rewrite H2, H3. clear H2 H3.
  destruct portal; cbn; (split; [reflexivity|]);
    rewrite !sync_output_app; rewrite <- !app_assoc; cbn;
    destruct (negb (ready d1) || mustDrain d1); reflexivity.
Qed.

(** ** Error fields, written and parsed *)

Lemma firstn_skipn_cstring (v rest : list Z) :
  firstn (List.length v) (v ++ 0 :: rest) = v /\
  skipn (S (List.length v)) (v ++ 0 :: rest) = rest.
Proof.
  split.
  - rewrite firstn_app, Nat.sub_diag, firstn_all. simpl. apply app_nil_r.
  - change (v ++ 0 :: rest) with (v ++ [0] ++ rest). rewrite app_assoc.
    replace (S (List.length v)) with (List.length (v ++ [0]))
      by (rewrite length_app; simpl; lia).
    rewrite skipn_app, skipn_all, Nat.sub_diag. reflexivity.
Qed.

Lemma fields_error_fields (fs : list (Z * Str)) :
  Forall (fun f => fst f <> 0 /\ zero_free (snd f)) fs ->
  fields (error_fields fs) = fs ++ [(0, [])].
Proof.
  unfold fields, error_fields.
  induction 1 as [|[t v] fs [Ht Hv] Hall IH]; [reflexivity|].
  cbn [flat_map fst snd]. unfold cstring at 1.
  cbn [app fields_from]. simpl in Ht. apply Z.eqb_neq in Ht. rewrite Ht.
  rewrite <- !app_assoc. cbn [app].
  rewrite (fields_from_terminated _ t [] (List.length v)
             (find0_zero_free v _ Hv)).
  destruct (firstn_skipn_cstring v
              (flat_map (fun f => fst f :: cstring (snd f)) fs ++ [0]))
    as [H1 H2].
  rewrite H1, H2, IH. reflexivity.
Qed.

Lemma last_value_terminator (tag : Z) (fs : list (Z * Str)) :
  tag <> 0 -> last_value tag (fs ++ [(0, [])]) = last_value tag fs.
Proof.
  intros Ht. unfold last_value. rewrite fold_left_app. cbn [fold_left fst snd].
  destruct (Z.eqb_spec 0 tag); [congruence | reflexivity].
Qed.

Lemma parseError_error_fields (fs : list (Z * Str)) :
  Forall (fun f => fst f <> 0 /\ zero_free (snd f)) fs ->
  parseError (error_fields fs) =
  match last_value TAG_V fs, last_value TAG_C fs, last_value TAG_M fs with
  | Some (l0 :: l), Some (c0 :: c), Some (m0 :: m) =>
      Ok (mkError (l0 :: l) (c0 :: c) (m0 :: m))
  | _, _, _ => Throw parse_error_message
  end.
Proof.
  intros Hfs. rewrite parseError_cases, (fields_error_fields fs Hfs).
  rewrite !last_value_terminator by discriminate. reflexivity.
Qed.

(** X12.  The fields of an error or notice as the server writes them, each
    a non-zero tag byte and a null-terminated string, in any order and
    with any other fields among them, ended by a zero byte: [parseError]
    returns the last values written for the severity, the code and the
    message when all three are there and none is empty, and throws
    otherwise. *)
Theorem parseError_reads_what_is_written (fs : list (Z * Str)) :
  Forall (fun f => fst f <> 0 /\ zero_free (snd f)) fs ->
  parseError (error_fields fs) =
  match last_value TAG_V fs, last_value TAG_C fs, last_value TAG_M fs with
  | Some (l0 :: l), Some (c0 :: c), Some (m0 :: m) =>
      Ok (mkError (l0 :: l) (c0 :: c) (m0 :: m))
  | _, _, _ => Throw parse_error_message
  end.
Proof. apply parseError_error_fields. Qed.

(** ** The iterator under any schedule *)

Lemma onData_row (row : Row) (p : ResultIterator) :
  container (onData (Some row) p) = container p ++ [row] /\
  subscribers (onData (Some row) p) = map (settle false) (subscribers p) /\
  done (onData (Some row) p) = done p.
Proof. repeat split. Qed.

Lemma onData_sentinel (p : ResultIterator) :
  container (onData None p) = container p /\
  subscribers (onData None p) = map (settle true) (subscribers p) /\
  done (onData None p) = true.
Proof. repeat split. Qed.

Lemma firstn_within {A : Type} (n : nat) (l : list A) (x : A) :
  (n <= List.length l)%nat -> firstn n (l ++ [x]) = firstn n l.
Proof.
  intros H. rewrite firstn_app.
  replace (n - List.length l)%nat with O by lia. simpl. apply app_nil_r.
Qed.

Lemma firstn_next {A : Type} (n : nat) (l : list A) :
  (n < List.length l)%nat ->
  exists x, nth_error l n = Some x /\ firstn (S n) l = firstn n l ++ [x].
Proof.
  revert l. induction n as [|n IH]; intros [|a l] H; simpl in H; try lia.
  - exists a. split; reflexivity.
  - destruct (IH l ltac:(lia)) as (x & Hx & Hf).
    exists x. split; [exact Hx|]. simpl. simpl in Hf. rewrite Hf. reflexivity.
Qed.

Lemma iterating_arrives (row : Row) (s : ResultIterator * Consumer) :
  iterating s -> iterating (occur s (Arrives row)).
Proof.
  destruct s as [p co]. unfold iterating. cbn [occur fst snd].
  destruct (onData_row row p) as (Hc & Hs & Hd). rewrite Hc, Hs, Hd.
  intros (H1 & H2 & H3). rewrite length_app. simpl.
  split; [rewrite firstn_within by exact H2; exact H1|].
  split; [lia|].
  destruct (pull co) as [|k|]; [exact I| |exact H3].
  rewrite nth_error_map.
  destruct (nth_error (subscribers p) k) as [[[|]|]|]; simpl; try exact H3; lia.
Qed.

Lemma iterating_completes (s : ResultIterator * Consumer) :
  iterating s -> iterating (occur s Completes).
Proof.
  destruct s as [p co]. unfold iterating. cbn [occur fst snd].
  destruct (onData_sentinel p) as (Hc & Hs & Hd). rewrite Hc, Hs, Hd.
  intros (H1 & H2 & H3).
  split; [exact H1|]. split; [exact H2|].
  destruct (pull co) as [|k|]; [exact I| |reflexivity].
  rewrite nth_error_map.
  destruct (nth_error (subscribers p) k) as [[[|]|]|]; simpl;
    try exact H3; reflexivity.
Qed.

Lemma iterating_resumes (s : ResultIterator * Consumer) :
  iterating s -> iterating (occur s Resumes).
Proof.
  destruct s as [p co]. unfold iterating. cbn [occur fst snd].
  intros (H1 & H2 & H3). unfold consumer_turn.
  destruct (pull co) as [|k|] eqn:Hp.
  - unfold next.
    destruct (Nat.leb_spec (List.length (container p)) (position co)) as [Hle|Hlt].
    + destruct (done p) eqn:Hd; cbn.
      * auto.
      * split; [exact H1|]. split; [exact H2|].
        rewrite nth_error_app2, Nat.sub_diag by lia. simpl.
        split; [reflexivity | lia].
    + destruct (firstn_next (position co) (container p) Hlt) as (x & Hx & Hf).
      cbn [fst snd position pull yielded]. rewrite Hx, Hf, map_app, H1. simpl. split; [reflexivity|].
      split; [lia | exact I].
  - destruct (nth_error (subscribers p) k) as [[v|]|] eqn:Hn.
    + unfold resume. destruct v; cbn [fst snd position pull yielded].
      * auto.
      * destruct (firstn_next (position co) (container p) H3) as (x & Hx & Hf).
        rewrite Hx, Hf, map_app, H1. simpl. split; [reflexivity|].
        split; [lia | exact I].
    + cbn. rewrite Hp, Hn. auto.
    + destruct H3.
  - cbn. rewrite Hp. auto.
Qed.

Lemma iterating_occur (o : Occurrence) (s : ResultIterator * Consumer) :
  iterating s -> iterating (occur s o).
Proof.
  destruct o.
  - apply iterating_arrives.
  - apply iterating_completes.
  - apply iterating_resumes.
Qed.

Lemma iterating_unfold (sched : list Occurrence) :
  forall s, iterating s -> iterating (unfold_schedule sched s).
Proof.
  induction sched as [|o sched IH]; intros s H; [exact H|].
  apply IH. apply iterating_occur. exact H.
Qed.

Lemma iterating_fresh : iterating (makeResult, fresh_consumer).
Proof. unfold iterating. simpl. auto. Qed.

Lemma done_resumes (s : ResultIterator * Consumer) :
  done (fst (occur s Resumes)) = done (fst s) /\
  container (fst (occur s Resumes)) = container (fst s).
Proof.
  destruct s as [p co]. cbn [occur fst snd]. unfold consumer_turn.
  destruct (pull co) as [|k|].
  - unfold next. destruct (List.length (container p) <=? position co)%nat.
    + destruct (done p) eqn:Hd; cbn [fst done container]; rewrite ?Hd;
        split; reflexivity.
    + split; reflexivity.
  - destruct (nth_error (subscribers p) k) as [[v|]|]; try (split; reflexivity).
    unfold resume. destruct v; split; reflexivity.
  - split; reflexivity.
Qed.

Lemma exhausting_occur (o : Occurrence) (s : ResultIterator * Consumer) :
  iterating s -> exhausting s ->
  match o with
  | Arrives _ => done (fst s) = false
  | _ => True
  end ->
  exhausting (occur s o).
Proof.
  destruct s as [p co]. unfold iterating, exhausting.
  intros (H1 & H2 & H3) He Ho. destruct o as [row| |]; cbn [occur fst snd] in *.
  - destruct (onData_row row p) as (Hc & Hs & Hd). rewrite Hc, Hs.
    destruct (pull co) as [|k|]; [exact I| |congruence].
    rewrite nth_error_map.
    destruct (nth_error (subscribers p) k) as [[[|]|]|]; simpl;
      try discriminate. congruence.
  - destruct (onData_sentinel p) as (Hc & Hs & Hd). rewrite Hc, Hs.
    destruct (pull co) as [|k|]; [exact I| |exact He].
    rewrite nth_error_map.
    destruct (nth_error (subscribers p) k) as [[[|]|]|]; simpl;
      try discriminate.
    + intros _. apply He. reflexivity.
    + intros _. apply H3.
  - unfold consumer_turn.
    destruct (pull co) as [|k|] eqn:Hp.
    + unfold next.
      destruct (Nat.leb_spec (List.length (container p)) (position co)) as [Hle|Hlt].
      * destruct (done p) eqn:Hd; cbn [fst snd position pull container subscribers].
        -- lia.
        -- rewrite nth_error_app2, Nat.sub_diag by lia. discriminate.
      * exact I.
    + destruct (nth_error (subscribers p) k) as [[v|]|] eqn:Hn.
      * unfold resume. destruct v; cbn [fst snd position pull container].
        -- apply He. reflexivity.
        -- exact I.
      * cbn [fst snd]. rewrite Hp, Hn. discriminate.
      * destruct H3.
    + cbn [fst snd]. rewrite Hp. exact He.
Qed.

Lemma exhausting_unfold (sched : list Occurrence) :
  forall s,
  iterating s -> exhausting s ->
  well_timed (done (fst s)) sched = true ->
  exhausting (unfold_schedule sched s).
Proof.
  induction sched as [|o sched IH]; intros s Hi He Hw; [exact He|].
  change (unfold_schedule (o :: sched) s)
    with (unfold_schedule sched (occur s o)).
  apply IH.
  - apply iterating_occur. exact Hi.
  - apply exhausting_occur; [exact Hi | exact He |].
    destruct o; [|exact I|exact I].
    simpl in Hw. apply andb_prop in Hw. destruct Hw as [Hw _].
    apply negb_true_iff in Hw. exact Hw.
  - destruct o as [row| |].
    + simpl in Hw. apply andb_prop in Hw. destruct Hw as [_ Hw].
      destruct s as [p co]. exact Hw.
    + destruct s as [p co]. exact Hw.
    + destruct (done_resumes s) as [Hd _]. rewrite Hd. exact Hw.
Qed.

Lemma ended_stays (n : nat) (s : ResultIterator * Consumer) :
  pull (snd s) = Ended -> unfold_schedule (repeat Resumes n) s = s.
Proof.
  intros H. induction n as [|n IH]; [reflexivity|].
  change (unfold_schedule (repeat Resumes (S n)) s)
    with (unfold_schedule (repeat Resumes n) (occur s Resumes)).
  assert (Hs : occur s Resumes = s).
  { destruct s as [p co]. cbn [occur fst snd] in *. unfold consumer_turn.
    rewrite H. reflexivity. }
  rewrite Hs. exact IH.
Qed.

Lemma resumes_advances (s : ResultIterator * Consumer) :
  iterating s -> done (fst s) = true ->
  pull (snd (occur s Resumes)) = Ended \/
  (position (snd (occur s Resumes)) = S (position (snd s)) /\
   (position (snd s) < List.length (container (fst s)))%nat).
Proof.
  destruct s as [p co]. unfold iterating. cbn [occur fst snd].
  intros (H1 & H2 & H3) Hd. unfold consumer_turn.
  destruct (pull co) as [|k|] eqn:Hp.
  - unfold next.
    destruct (Nat.leb_spec (List.length (container p)) (position co)) as [Hle|Hlt].
    + rewrite Hd. left. reflexivity.
    + right. split; [reflexivity | exact Hlt].
  - destruct (nth_error (subscribers p) k) as [[v|]|] eqn:Hn.
    + unfold resume. destruct v.
      * left. reflexivity.
      * right. split; [reflexivity | exact H3].
    + destruct H3 as [H3 _]. congruence.
    + destruct H3.
  - left. cbn [snd]. exact Hp.
Qed.

Lemma reaches_the_end (n : nat) :
  forall s,
  iterating s -> done (fst s) = true ->
  (List.length (container (fst s)) - position (snd s) < n)%nat ->
  pull (snd (unfold_schedule (repeat Resumes n) s)) = Ended.
Proof.
  induction n as [|n IH]; intros s Hi Hd Hn; [lia|].
  change (unfold_schedule (repeat Resumes (S n)) s)
    with (unfold_schedule (repeat Resumes n) (occur s Resumes)).
  destruct (done_resumes s) as [Hd1 Hc1].
  destruct (resumes_advances s Hi Hd) as [He|[Hpos Hlt]].
  - rewrite (ended_stays n _ He). exact He.
  - apply IH.
    + apply iterating_occur. exact Hi.
    + rewrite Hd1. exact Hd.
    + rewrite Hc1, Hpos. lia.
Qed.

(** X13.  A consumer that iterates a result stream, pulling one item after
    the other, under any interleaving of the rows' arrival, the sentinel's
    and the consumer's own progress.  What it has been yielded is always
    the first rows delivered, in order, with no gap and no [undefined]; it
    gets the done signal only after the sentinel; when no row arrives after
    the sentinel, it has then been yielded every row; and once the sentinel
    has arrived it gets the done signal after at most one pull per
    remaining row and one more. *)
Theorem iteration_follows_deliveries (sched : list Occurrence) :
  let s := unfold_schedule sched (makeResult, fresh_consumer) in
  let p := fst s in
  let co := snd s in
  yielded co = map Some (firstn (position co) (container p)) /\
  (pull co = Ended -> done p = true) /\
  (well_timed false sched = true -> pull co = Ended ->
   yielded co = map Some (container p)) /\
  (done p = true ->
   forall n, (List.length (container p) - position co < n)%nat ->
     pull (snd (unfold_schedule (repeat Resumes n) s)) = Ended).
Proof.
  intros s p co.
  pose proof (iterating_unfold sched _ iterating_fresh) as Hi.
  fold s in Hi. pose proof Hi as (H1 & H2 & H3). fold p co in H1, H2, H3.
  split; [exact H1|]. split; [|split].
  - intros He. rewrite He in H3. exact H3.
  - intros Hw He.
    assert (Hx : exhausting s).
    { apply exhausting_unfold; [apply iterating_fresh | exact I | exact Hw]. }
    unfold exhausting in Hx. fold p co in Hx. rewrite He in Hx.
    rewrite H1, Hx, firstn_all. reflexivity.
  - intros Hd n Hn. apply reaches_the_end; assumption.
Qed.

(** ** The buffer between two 'data' events *)

Lemma feed_coherent (chunks : list Buffer) :
  forall c c', coherent c -> feed c chunks = Next c' -> coherent c'.
Proof.
  induction chunks as [|chunk rest IH]; intros c c' Hc Hfeed; simpl in Hfeed.
  - injection Hfeed as <-. exact Hc.
  - unfold feed_chunk in Hfeed.
    destruct (on_data c chunk) as [c1|e c1|c1] eqn:Hd; try discriminate.
    apply (IH (tick c1) c'); [|exact Hfeed].
    apply (on_data_coherent c c1 chunk Hc Hd).
Qed.

(** X14.  Between two 'data' events the unread bytes end the buffer: the
    handler leaves no free space after them, and fewer bytes than the
    dispatcher waits for.  So a chunk that is not empty and arrives while
    bytes are unread never fits in place: the handler allocates a buffer
    of exactly the unread bytes followed by the chunk, at offset 0.  The
    branch that writes the chunk after the unread bytes in the same buffer
    is left to empty chunks. *)
Theorem unread_bytes_end_the_buffer (c c' : Client) (chunks : list Buffer) :
  coherent c -> feed c chunks = Next c' ->
  coherent c' /\
  forall buf chunk,
    buffer c' = Some buf ->
    len buf - offset c' - remaining c' = 0 /\
    (wf_region c' -> 0 < remaining c' -> chunk <> [] ->
     reassemble c' chunk = Some (unread c' ++ chunk, 0)).
Proof.
  intros Hc Hfeed.
  pose proof (feed_coherent chunks c c' Hc Hfeed) as Hc'.
  split; [exact Hc'|].
  intros buf chunk Hbuf.
  destruct Hc' as [Hlen Hexp]. rewrite Hbuf in Hlen.
  split; [lia|].
  intros Hwf Hrem Hne.
  destruct (reassemble_cases c' chunk Hwf) as (buf' & off' & Hre & _ & _ & Hcases).
  destruct (Hcases buf Hbuf Hrem) as [Hfresh _].
  assert (Hpos : 0 < len chunk).
  { destruct chunk; [congruence|]. unfold len. simpl List.length. lia. }
  destruct (Hfresh ltac:(lia)) as (-> & -> & _). exact Hre.
Qed.

(** ** A length field of -1 *)

Lemma dispatch_acknowledgement (t : Z) (buffer : Buffer) (start length : Z)
  (d : Dispatch) :
  t = Message.BindComplete \/ t = Message.ParseComplete \/
  t = Message.CloseComplete ->
  dispatch t buffer start length d = Done tt d.
Proof. intros [ -> | [ -> | -> ] ]; reflexivity. Qed.

Lemma loops_on_minus_one (t : Z) (rest : Buffer) (size : Z) (fuel : nat) :
  t = Message.BindComplete \/ t = Message.ParseComplete \/
  t = Message.CloseComplete ->
  5 <= size ->
  forall d, expect d = 5 ->
  exists d',
    receive_loop fuel (t :: [255; 255; 255; 255] ++ rest) 0 size 0 d = Stuck d'.
Proof.
  intros Ht Hsize.
  assert (Hr8 : readInt8 (t :: [255; 255; 255; 255] ++ rest) 0 = Some t).
  { destruct Ht as [ -> | [ -> | -> ] ]; reflexivity. }
  assert (Hrow : negb (t =? Message.RowData) && negb (t =? Message.NoData) = true).
  { destruct Ht as [ -> | [ -> | -> ] ]; reflexivity. }
  induction fuel as [|fuel IH]; intros d Hexp; [exists d; reflexivity|].
  cbn [receive_loop]. rewrite Hexp.
  destruct (Z.leb_spec (5 + 0) size) as [_|Hlt]; [|lia].
  destruct fuel as [|fuel']; [exists d; reflexivity|].
  cbn [fast_path]. unfold fast_frame.
  change (0 + 0) with 0. rewrite Hr8, Hrow.
  unfold general_path.
  change (readInt32BE (t :: [255; 255; 255; 255] ++ rest) (0 + 1)) with (Some (-1)).
  cbv iota. change (-1 - 4 + 5 + 0) with 0.
  destruct (Z.ltb_spec size 0) as [Hneg|_]; [lia|].
  rewrite (dispatch_acknowledgement t _ _ _ d Ht).
  change (0 + (-1 - 4 + 5)) with 0.
  apply IH. reflexivity.
Qed.

(** X15.  The length field is read as a signed integer and is not checked.
    When a parse, bind or close acknowledgement comes with a length field
    of -1 (the bytes ff ff ff ff), the frame counts for no byte at all: the
    dispatcher handles it and stands at the same frame again, so [receive]
    never returns, whatever the number of turns it is given, and the
    'data' handler with it. *)
Theorem length_minus_one_never_returns
  (c : Client) (t : Z) (rest : Buffer) (fuel : nat) :
  t = Message.BindComplete \/ t = Message.ParseComplete \/
  t = Message.CloseComplete ->
  remaining c = 0 -> expect (disp c) = 5 ->
  let chunk := t :: [255; 255; 255; 255] ++ rest in
  (exists d', receive_loop fuel chunk 0 (len chunk) 0 (disp c) = Stuck d') /\
  (exists c', on_data c chunk = NoFuel c').
Proof.
  intros Ht Hrem Hexp chunk.
  assert (Hsize : 5 <= len chunk).
  { subst chunk. unfold len. simpl List.length. lia. }
  split; [apply (loops_on_minus_one t rest (len chunk) fuel Ht Hsize _ Hexp)|].
  unfold on_data. rewrite (reassemble_nothing_unread c chunk Hrem), Hrem.
  unfold receive. rewrite Z.add_0_r.
  destruct (loops_on_minus_one t rest (len chunk) (S (Z.to_nat (len chunk)))
              Ht Hsize _ Hexp) as (d' & Hd').
  unfold chunk in *. rewrite Hd'. eexists. reflexivity.
Qed.

(** ** The awaited result *)

Lemma replay_cons (h : RowDataHandler) (nh : NameHandler) (o : Output)
  (t : list Output) (p : ResultIterator) :
  replay h nh (o :: t) p = replay h nh t (replay h nh [o] p).
Proof. reflexivity. Qed.

Lemma replay_one (h : RowDataHandler) (nh : NameHandler) (o : Output)
  (p : ResultIterator) :
  container (replay h nh [o] p) = container p ++ rows_to h [o] /\
  names_field (replay h nh [o] p) = last_names nh [o] (names_field p) /\
  (forall ns, promise p = Some ns -> promise (replay h nh [o] p) = Some ns) /\
  (completes h o = false -> promise (replay h nh [o] p) = promise p).
Proof.
  unfold replay, rows_to, last_names, completes. cbn [fold_left flat_map].
  destruct o as [h' [row|]|nh' ns|e|op|m]; rewrite ?app_nil_r; auto.
  - destruct (Nat.eqb h' h); simpl; rewrite ?app_nil_r; auto.
  - destruct (Nat.eqb h' h); simpl; rewrite ?app_nil_r; auto.
    repeat split; try discriminate. intros ns ->. reflexivity.
  - destruct (Nat.eqb nh' nh); simpl; rewrite ?app_nil_r; auto.
Qed.

Lemma replay_keeps (h : RowDataHandler) (nh : NameHandler) (t : list Output) :
  forall p,
  container (replay h nh t p) = container p ++ rows_to h t /\
  names_field (replay h nh t p) = last_names nh t (names_field p) /\
  (forall ns, promise p = Some ns -> promise (replay h nh t p) = Some ns) /\
  (forallb (fun o => negb (completes h o)) t = true ->
   promise (replay h nh t p) = promise p).
Proof.
  induction t as [|o t IH]; intros p.
  - simpl. rewrite app_nil_r. auto.
  - rewrite replay_cons.
    destruct (IH (replay h nh [o] p)) as (Hc & Hn & Hk & Hq).
    destruct (replay_one h nh o p) as (Hc1 & Hn1 & Hk1 & Hq1).
    rewrite Hc, Hn, Hc1, Hn1. clear Hc Hn Hc1 Hn1.
    split; [|split; [|split]].
    + rewrite <- app_assoc. f_equal.
      change (o :: t) with ([o] ++ t). unfold rows_to. rewrite flat_map_app.
      reflexivity.
    + reflexivity.
    + intros ns Hp. apply Hk, Hk1, Hp.
    + intros Hall. cbn [forallb] in Hall. apply andb_prop in Hall.
      destruct Hall as [Ho Hall]. apply negb_true_iff in Ho.
      rewrite (Hq Hall). apply Hq1, Ho.
Qed.

(** X16.  The awaited result of a query with the row-consumer [h] and the
    name-consumer [nh].  It stays unresolved as long as [h] is not handed
    the sentinel.  The first sentinel resolves it with the names that [nh]
    was handed last before it, the empty list if it was handed none, and
    names handed later do not change it.  Its rows are the array the rows
    are pushed to: all the rows [h] is handed, in order. *)
Theorem awaited_result (h : RowDataHandler) (nh : NameHandler)
  (t1 t2 : list Output) :
  forallb (fun o => negb (completes h o)) t1 = true ->
  awaited (replay h nh t1 makeResult) = None /\
  awaited (replay h nh (t1 ++ Deliver h None :: t2) makeResult)
  = Some (mkResult
            match last_names nh t1 None with
            | Some ns => ns
            | None => []
            end
            (rows_to h (t1 ++ t2))).
Proof.
  intros Hall.
  destruct (replay_keeps h nh t1 makeResult) as (Hc1 & Hn1 & _ & Hq1).
  specialize (Hq1 Hall). split.
  - unfold awaited. rewrite Hq1. reflexivity.
  - rewrite replay_app, replay_cons.
    set (p1 := replay h nh t1 makeResult) in *.
    assert (Hp2 : promise (replay h nh [Deliver h None] p1)
                  = Some match last_names nh t1 None with
                         | Some ns => ns
                         | None => []
                         end).
    { unfold replay. cbn [fold_left]. rewrite Nat.eqb_refl.
      cbn [onData notify promise]. rewrite Hq1, Hn1. reflexivity. }
    destruct (replay_keeps h nh t2 (replay h nh [Deliver h None] p1))
      as (Hc2 & _ & Hk2 & _).
    unfold awaited. rewrite (Hk2 _ Hp2), Hc2.
    destruct (replay_one h nh (Deliver h None) p1) as (Hc3 & _).
    rewrite Hc3, Hc1. do 2 f_equal.
    change (rows_to h [Deliver h None]) with (@nil Row).
    change (container makeResult) with (@nil Row).
    unfold rows_to. rewrite flat_map_app, app_nil_r. reflexivity.
Qed.

(** ** Whole frames only *)

Lemma feed_tail (chunks : list Buffer) :
  forall (c c' : Client) (fs : list Frame) (p rest : Buffer),
  coherent c -> wf_region c -> unread c = p -> awaits (disp c) p ->
  all_wf fs -> head_prefix p fs ->
  p ++ List.concat chunks ++ rest = encode fs ->
  feed c chunks = Next c' ->
  exists fs1 fs2,
    fs = fs1 ++ fs2 /\
    p ++ List.concat chunks = encode fs1 ++ unread c' /\
    head_prefix (unread c') fs2 /\
    coherent c' /\ wf_region c'.
Proof.
  induction chunks as [|ch more IH];
    intros c c' fs p rest Hc Hwfr Hun Haw Hwf Hhp Hstream Hfeed.
  - simpl in Hfeed. injection Hfeed as <-.
    exists [], fs. simpl. rewrite app_nil_r, Hun. auto.
  - cbn [List.concat] in Hstream.
    rewrite <- app_assoc, app_assoc in Hstream.
    destruct (split_stream fs (p ++ ch) (List.concat more ++ rest) Hstream)
      as (fs1 & fs2 & p' & Hfs & Hsplit & Hrest & Hhp').
    subst fs. apply Forall_app in Hwf as Hwf12. destruct Hwf12 as [Hwf1 Hwf2].
    pose proof (head_prefix_partial p' fs2 Hwf2 Hhp') as Hpart'.
    rewrite <- Hun in Hsplit.
    pose proof (on_data_spec c ch fs1 p' Hc Hwfr
                  ltac:(rewrite Hun; exact Haw) Hwf1 Hpart' Hsplit) as Hod.
    rewrite Hun in Hsplit.
    cbn [feed] in Hfeed. unfold feed_chunk in Hfeed.
    destruct (tail_of fs1 p' (disp c)) as [[] d'|e d'|d'].
    + destruct Hod as (c1 & Hod & Hd & Hun' & Hc' & Hwfr' & Haw').
      rewrite Hod in Hfeed.
      destruct (tick_keeps c1 p') as (Tc & Tw & Tu & Ta & _).
      destruct (IH (tick c1) c' fs2 p' rest (Tc Hc') (Tw Hwfr')
                  ltac:(rewrite Tu; exact Hun')
                  ltac:(apply Ta; rewrite Hd; exact Haw')
                  Hwf2 Hhp' Hrest Hfeed)
        as (fs1' & fs2' & Hfs2 & Hcat & Hhp2 & Hc2 & Hw2).
      exists (fs1 ++ fs1'), fs2'. subst fs2.
      split; [apply app_assoc|].
      split; [|auto].
      cbn [List.concat]. rewrite app_assoc, Hsplit, <- app_assoc, Hcat.
      rewrite encode_app, <- app_assoc. reflexivity.
    + destruct Hod as (c1 & Hod & _). rewrite Hod in Hfeed. discriminate.
    + destruct Hod as (c1 & Hod & _). rewrite Hod in Hfeed. discriminate.
Qed.

Lemma unread_nothing (c : Client) : remaining c = 0 -> unread c = [].
Proof.
  intros H. unfold unread. destruct (buffer c) as [buf|]; [|reflexivity].
  rewrite H, Z.add_0_r. unfold slice. rewrite Z.sub_diag. reflexivity.
Qed.

Lemma feed_nothing_unread (c : Client) (ch : Buffer) (more : list Buffer) :
  remaining c = 0 ->
  feed c (ch :: more) = feed (mkClient None 0 0 (events c) (disp c)) (ch :: more).
Proof.
  intros Hrem. cbn [feed]. unfold feed_chunk, on_data.
  rewrite !reassemble_nothing_unread by (try exact Hrem; reflexivity).
  cbn [remaining events disp]. rewrite Hrem. reflexivity.
Qed.

(** X17.  The dispatcher consumes whole frames only.  After any number of
    'data' events that cut the beginning of a stream of well-formed frames
    at any places, what the client has consumed is a number of whole
    frames, and what it keeps unread is the beginning of the next frame,
    never all of it: no frame is dispatched before its last byte has
    arrived, and none is left waiting once it has. *)
Theorem whole_frames_only
  (c c' : Client) (fs : list Frame) (chunks : list Buffer) (rest : Buffer) :
  remaining c = 0 -> expect (disp c) = 5 -> all_wf fs ->
  List.concat chunks ++ rest = encode fs ->
  feed c chunks = Next c' ->
  exists fs1 fs2,
    fs = fs1 ++ fs2 /\
    List.concat chunks = encode fs1 ++ unread c' /\
    head_prefix (unread c') fs2.
Proof.
  intros Hrem Hexp Hwf Hstream Hfeed.
  destruct chunks as [|ch more].
  - simpl in Hfeed. injection Hfeed as <-.
    exists [], fs. rewrite (unread_nothing c Hrem). simpl.
    repeat split. left. reflexivity.
  - rewrite (feed_nothing_unread c ch more Hrem) in Hfeed.
    destruct (feed_tail (ch :: more) (mkClient None 0 0 (events c) (disp c)) c'
                fs [] rest) as (fs1 & fs2 & H1 & H2 & H3 & _); auto.
    + split; [reflexivity|]. cbn [remaining disp]. lia.
    + reflexivity.
    + left. exact Hexp.
    + left. reflexivity.
    + exists fs1, fs2. auto.
Qed.

(** ** The connection's life *)

Lemma handle_flags (ev : Event) (k k' : Conn) :
  handle ev k = Continues k' ->
  closed k' = finished_last [ev] (closed k) /\
  ending k' = ending k || calls_end [ev].
Proof.
  destruct ev; simpl; intros H; try (injection H as <-); simpl;
    rewrite ?orb_false_r; auto.
  - unfold on_stream_connect. destruct (keepAlive k); auto.
  - destruct (feed_chunk (client k) chunk); try discriminate.
    injection H as <-. auto.
  - unfold on_stream_error. destruct (ending k && is_reset errno); auto.
  - unfold client_end in H. destruct (closed k) eqn:Hc; [discriminate|].
    injection H as <-. simpl. rewrite orb_true_r. auto.
  - unfold execute. destruct (q_args query); simpl; auto.
    destruct (truthy (q_name query)); auto.
Qed.

Lemma play_flags (evs : list Event) :
  forall k k',
  play evs k = Continues k' ->
  closed k' = finished_last evs (closed k) /\
  ending k' = ending k || calls_end evs.
Proof.
  induction evs as [|ev evs IH]; intros k k' H.
  - injection H as <-. simpl. rewrite orb_false_r. auto.
  - simpl in H. destruct (handle ev k) as [k1|e k1|k1] eqn:Hh; try discriminate.
    destruct (handle_flags ev k k1 Hh) as [Hc He].
    destruct (IH k1 k' H) as [Hc' He'].
    rewrite Hc', He', Hc, He. split; [reflexivity|].
    unfold calls_end. simpl. rewrite orb_false_r, orb_assoc. reflexivity.
Qed.

(** X18.  The connection's flags over any sequence of events in which
    nothing is thrown.  [end()] throws 'Connection already closed.' exactly
    when the last of the socket's 'finish' and 'connect' events was a
    'finish'; before any 'finish' it may be called again and again, and
    writes the end of the session each time.  Once [end()] has been
    called the client is ending for good: a connection reset reported by
    the socket emits no 'end' event from then on, while before the call,
    and for any other error, the event is emitted. *)
Theorem connection_flags (evs : list Event) (k k' : Conn) :
  play evs k = Continues k' ->
  let was_finished := finished_last evs (closed k) in
  let was_ended := ending k || calls_end evs in
  (was_finished = true -> handle CallEnd k' = Fails already_closed k') /\
  (was_finished = false ->
   exists k'', handle CallEnd k' = Continues k'' /\
               calls k'' = calls k'
                 ++ [(List.length (out (disp (client k'))), WriterEnd)] /\
               closed k'' = false) /\
  (was_ended = true ->
   on_stream_error (ErrnoNumber ECONNRESET) k' = k') /\
  (forall errno, was_ended = false \/ is_reset errno = false ->
   out (disp (client (on_stream_error errno k')))
   = out (disp (client k')) ++ [Emit EvEnd]).
Proof.
  intros Hplay was_finished was_ended.
  destruct (play_flags evs k k' Hplay) as [Hc He].
  fold was_finished in Hc. fold was_ended in He.
  split; [|split; [|split]].
  - intros H. simpl. unfold client_end. rewrite Hc, H. reflexivity.
  - intros H. simpl. unfold client_end. rewrite Hc, H.
    eexists. split; [reflexivity|]. simpl.
    split; [reflexivity|]. rewrite Hc. exact H.
  - intros H. unfold on_stream_error, is_reset. rewrite He, H, Z.eqb_refl.
    reflexivity.
  - intros errno H. unfold on_stream_error. rewrite He.
    destruct H as [H|H]; rewrite H; rewrite ?andb_false_r; reflexivity.
Qed.

(** ** Error and notice responses *)

Lemma step_error_response (t : Z) (p : Buffer) (d : Dispatch) :
  t = Message.Error \/ t = Message.Notice ->
  step_frame (mkFrame t p) d
  = match parseError p with
    | Ok e => Done tt (set_expect 5
                         (emit (Emit (if t =? Message.Error then EvError e
                                      else EvNotice e)) d))
    | Throw msg => Raise msg d
    | OutOfFuel => Stuck d
    end.
Proof.
  intros [ -> | -> ]; unfold step_frame; cbn [tag payload].
  - change (rowish Message.Error) with false. cbv iota. unfold dispatch.
    change (Message.Error =? Message.Authenticate) with false.
    change (Message.Error =? Message.BackendKeyData) with false.
    change (Message.Error =? Message.BindComplete) with false.
    change (Message.Error =? Message.Close) with false.
    change (Message.Error =? Message.CloseComplete) with false.
    change (Message.Error =? Message.Error) with true.
    cbv iota. change (0 + len p) with (len p). rewrite slice_all.
    destruct (parseError p); reflexivity.
  - change (rowish Message.Notice) with false. cbv iota. unfold dispatch.
    change (Message.Notice =? Message.Authenticate) with false.
    change (Message.Notice =? Message.BackendKeyData) with false.
    change (Message.Notice =? Message.BindComplete) with false.
    change (Message.Notice =? Message.Close) with false.
    change (Message.Notice =? Message.CloseComplete) with false.
    change (Message.Notice =? Message.Error) with false.
    change (Message.Notice =? Message.Notice) with true.
    cbv iota. change (0 + len p) with (len p). rewrite slice_all.
    destruct (parseError p); reflexivity.
Qed.

(** X19.  An error or a notice response whose fields are written as the
    protocol has them, however its bytes are cut into chunks.  When the
    severity, the code and the message are all there and none is empty,
    the client emits one 'error' (or 'notice') event that carries the last
    value written for each, and nothing else changes.  When one of them is
    missing or empty, the 'data' handler throws 'Unable to parse error
    message.' and emits nothing. *)
Theorem error_response_is_emitted
  (c : Client) (t : Z) (fs : list (Z * Str)) (chunks : list Buffer) :
  remaining c = 0 -> expect (disp c) = 5 ->
  t = Message.Error \/ t = Message.Notice ->
  Forall (fun f => fst f <> 0 /\ zero_free (snd f)) fs ->
  fits (error_fields fs) ->
  List.concat chunks = encode [mkFrame t (error_fields fs)] ->
  match last_value TAG_V fs, last_value TAG_C fs, last_value TAG_M fs with
  | Some (l0 :: l), Some (c0 :: cd), Some (m0 :: m) =>
      let e := mkError (l0 :: l) (c0 :: cd) (m0 :: m) in
      exists c',
        feed c chunks = Next c' /\
        alike (disp c')
          (emit (Emit (if t =? Message.Error then EvError e else EvNotice e))
             (disp c))
  | _, _, _ =>
      exists c',
        feed c chunks = Thrown parse_error_message c' /\
        sync_output (out (disp c')) = sync_output (out (disp c)) /\
        bookkeeping (disp c') = bookkeeping (disp c)
  end.
Proof.
  intros Hrem Hexp Ht Hfs Hfit Hcat.
  assert (Hwf : all_wf [mkFrame t (error_fields fs)]).
  { constructor; [|constructor].
    destruct Ht as [ -> | -> ]; apply wf_plain; try exact Hfit;
      try discriminate; unfold Message.Error, Message.Notice; lia. }
  pose proof (step_error_response t (error_fields fs) (disp c) Ht) as Hstep.
  rewrite (parseError_error_fields fs Hfs) in Hstep.
  assert (Hthrow : step_frame (mkFrame t (error_fields fs)) (disp c)
                   = Raise parse_error_message (disp c) ->
                   exists c',
                     feed c chunks = Thrown parse_error_message c' /\
                     sync_output (out (disp c')) = sync_output (out (disp c)) /\
                     bookkeeping (disp c') = bookkeeping (disp c)).
  { intros Hs.
    destruct (feed_frames_raise c _ chunks parse_error_message (disp c)
                Hrem Hexp Hwf Hcat ltac:(cbn [run_frames]; rewrite Hs; reflexivity))
      as (c' & Hfeed & Heq).
    apply thrown_fields in Heq. destruct Heq as [Hb Hso].
    exists c'. auto. }
  destruct (last_value TAG_V fs) as [[|l0 l]|]; try (apply Hthrow; exact Hstep).
  destruct (last_value TAG_C fs) as [[|c0 cd]|]; try (apply Hthrow; exact Hstep).
  destruct (last_value TAG_M fs) as [[|m0 m]|]; try (apply Hthrow; exact Hstep).
  clear Hthrow. cbv zeta.
  destruct (feed_frames_done c _ chunks _ Hrem Hexp Hwf Hcat
              ltac:(cbn [run_frames]; rewrite Hstep; reflexivity))
    as (c' & Hfeed & Halike).
  exists c'. split; [exact Hfeed|].
  eapply alike_trans; [exact Halike | apply alike_set_expect].
Qed.

(** ** A parameter count read as negative *)

Lemma dispatch_negative_count (buffer : Buffer) (start length count : Z)
  (d : Dispatch) (ps : PreparedStatement) (others : list PreparedStatement) :
  readInt16BE buffer start = Some count -> count < 0 ->
  preparedStatements d = ps :: others ->
  dispatch Message.ParameterDescription buffer start length d
  = Raise range_error (set_preparedStatements others d).
Proof.
  intros Hread Hneg Hps. unfold dispatch.
  change (Message.ParameterDescription =? Message.Authenticate) with false.
  change (Message.ParameterDescription =? Message.BackendKeyData) with false.
  change (Message.ParameterDescription =? Message.BindComplete) with false.
  change (Message.ParameterDescription =? Message.Close) with false.
  change (Message.ParameterDescription =? Message.CloseComplete) with false.
  change (Message.ParameterDescription =? Message.Error) with false.
  change (Message.ParameterDescription =? Message.Notice) with false.
  change (Message.ParameterDescription =? Message.ParseComplete) with false.
  change (Message.ParameterDescription =? Message.ParameterDescription) with true.
  cbv iota. rewrite Hread, Hps.
  destruct (Z.ltb_spec count 0); [reflexivity|lia].
Qed.

(** X20.  The parameter count of a parameter description is read as a
    signed 16-bit integer.  When its first byte is 128 or more (a count of
    32768 parameters or more on the wire) and a prepared statement is
    pending, the 'data' handler throws the [RangeError] of
    [new Array(length)] after the statement has been shifted from the
    queue: the statement is gone, no bind, execute or sync is written, and
    the bytes of the chunk that follow the frame are left unread for good
    ([remaining] is what it was, zero). *)
Theorem negative_parameter_count_drops_the_statement
  (c : Client) (ps : PreparedStatement) (others : list PreparedStatement)
  (hi lo : Z) (more rest : Buffer) :
  remaining c = 0 -> expect (disp c) = 5 ->
  preparedStatements (disp c) = ps :: others ->
  128 <= hi < 256 -> 0 <= lo < 256 ->
  len more + 6 < 2147483648 ->
  exists c',
    on_data c
      (Message.ParameterDescription :: be32 (4 + len (hi :: lo :: more))
         ++ (hi :: lo :: more) ++ rest)
    = Thrown range_error c' /\
    preparedStatements (disp c') = others /\
    out (disp c') = out (disp c) /\
    unread c' = [].
Proof.
  intros Hrem Hexp Hps Hhi Hlo Hfit.
  set (payload := hi :: lo :: more).
  set (chunk := Message.ParameterDescription :: be32 (4 + len payload)
                  ++ payload ++ rest).
  pose proof (len_nonneg more) as Hmore.
  pose proof (len_nonneg rest) as Hrest.
  assert (Hpl : len payload = len more + 2).
  { unfold payload, len. cbn [List.length]. lia. }
  assert (Hlen : len chunk = 5 + len payload + len rest).
  { unfold chunk, len. cbn [List.length].
    rewrite !length_app. unfold be32. cbn [List.length]. lia. }
  assert (Htag : 0 <= Message.ParameterDescription < 128)
    by (change Message.ParameterDescription with 116; lia).
  assert (Hsize : 0 <= 4 + len payload < 2147483648) by lia.
  assert (Hchunk : chunk = [] ++ Message.ParameterDescription
                             :: be32 (4 + len payload) ++ (payload ++ rest))
    by reflexivity.
  destruct (read_header [] (payload ++ rest) _ _ Htag Hsize) as [_ H32].
  rewrite <- Hchunk in H32. change (len [] + 1) with 1 in H32.
  assert (Hfast : forall info d,
            fast_frame chunk (len chunk) 0 0 info d
            = Done (Leave (FBreak Message.ParameterDescription 0 0)) d).
  { intros info d. rewrite Hchunk at 1.
    apply (fast_frame_general [] (payload ++ rest)
             Message.ParameterDescription (4 + len payload) info d (len chunk)
             Htag Hsize).
    reflexivity. }
  assert (H16 : readInt16BE chunk 5 = Some (hi * 256 + lo - 65536)).
  { change chunk with
      ((Message.ParameterDescription :: be32 (4 + len payload))
         ++ payload ++ rest).
    change 5 with (len (Message.ParameterDescription
                          :: be32 (4 + len payload)) + 0).
    rewrite readInt16BE_inside by lia.
    change (readInt16BE payload 0)
      with (Some (if 32768 <=? hi * 256 + lo then hi * 256 + lo - 65536
                  else hi * 256 + lo)).
    destruct (Z.leb_spec 32768 (hi * 256 + lo)); [reflexivity|lia]. }
  unfold on_data. rewrite reassemble_nothing_unread by exact Hrem.
  rewrite Hrem, Z.add_0_r.
  exists (mkClient (Some chunk) 0 0 (events c)
            (set_preparedStatements others (disp c))).
  split; [|split; [reflexivity|split; [reflexivity|]]].
  - unfold receive.
    destruct (Z.to_nat (len chunk)) as [|fuel] eqn:Hfuel; [lia|].
    cbn [receive_loop]. rewrite Hexp.
    destruct (Z.leb_spec (5 + 0) (len chunk)) as [_|Hlt]; [|lia].
    cbn [fast_path]. change (0 + 0) with 0. rewrite Hfast.
    unfold general_path. change (0 + 1) with 1. rewrite H32.
    destruct (Z.ltb_spec (len chunk) (4 + len payload - 4 + 5 + 0)); [lia|].
    change (0 + 5) with 5.
    rewrite (dispatch_negative_count chunk 5 _ _ (disp c) ps others H16);
      [reflexivity|lia|exact Hps].
  - unfold unread. cbn [buffer offset remaining]. unfold slice.
    rewrite Z.sub_diag. reflexivity.
Qed.

(** ** Calls of [next()] that are not awaited *)

Lemma pull_at_once_suspends (n : nat) :
  forall (p : ResultIterator) (i : nat),
  done p = false -> (List.length (container p) <= i)%nat ->
  pull_at_once n p i
  = (map Suspended (seq (List.length (subscribers p)) n),
     mkIter (container p) (subscribers p ++ repeat None n) (done p)
       (rows_set p) (names_field p) (promise p),
     i).
Proof.
  induction n as [|n IH]; intros p i Hdone Hlen.
  - cbn [pull_at_once seq map repeat]. rewrite app_nil_r.
    destruct p; reflexivity.
  - cbn [pull_at_once]. unfold next.
    destruct (Nat.leb_spec (List.length (container p)) i) as [_|Hlt]; [|lia].
    rewrite Hdone.
    rewrite IH by (cbn [done container]; first [assumption|reflexivity]).
    cbn [container subscribers done rows_set names_field promise seq map repeat].
    rewrite length_app, Nat.add_1_r, <- app_assoc. reflexivity.
Qed.

Lemma resume_all_false (n : nat) :
  forall (p : ResultIterator) (i : nat),
  resume_all (repeat false n) p i
  = (map (fun j => IterValue (nth_error (container p) j)) (seq i n),
     (i + n)%nat).
Proof.
  induction n as [|n IH]; intros p i.
  - cbn [repeat resume_all seq map]. rewrite Nat.add_0_r. reflexivity.
  - cbn [repeat resume_all resume]. rewrite IH.
    cbn [seq map]. rewrite Nat.add_succ_r. reflexivity.
Qed.

(** X21.  Calls of [next()] that are not awaited one by one share the
    iterator's index.  When the consumer has caught up with the rows and
    calls [next()] [n + 1] times at once, every call suspends.  One row
    arriving before they resume resolves all of them with [false]: the
    first call yields the row, each of the [n] others yields [undefined]
    with [done: false], and the index is left [n] places beyond the end of
    the rows. *)
Theorem unawaited_pulls_yield_undefined
  (p : ResultIterator) (i n : nat) (r : Row) :
  done p = false -> List.length (container p) = i ->
  let '(steps, p1, i1) := pull_at_once (S n) p i in
  let p2 := onData (Some r) p1 in
  steps = map Suspended (seq (List.length (subscribers p)) (S n)) /\
  i1 = i /\
  settled_from (List.length (subscribers p)) p2 = repeat false (S n) /\
  resume_all (settled_from (List.length (subscribers p)) p2) p2 i1
  = (IterValue (Some r) :: repeat (IterValue None) n, (i + S n)%nat) /\
  List.length (container p2) = S i.
Proof.
  intros Hdone Hlen.
  rewrite pull_at_once_suspends by (try exact Hdone; lia).
  cbv zeta.
  assert (Hset : settled_from (List.length (subscribers p))
                   (onData (Some r)
                      (mkIter (container p)
                         (subscribers p ++ repeat None (S n)) (done p)
                         (rows_set p) (names_field p) (promise p)))
                 = repeat false (S n)).
  { unfold settled_from, onData, notify.
    cbn [container subscribers done rows_set names_field promise].
    rewrite map_app, skipn_app, length_map, Nat.sub_diag.
    rewrite skipn_all2 by (rewrite length_map; lia).
    cbn [skipn app]. clear. induction (S n) as [|m IH]; [reflexivity|].
    cbn [repeat map settle flat_map app]. rewrite IH. reflexivity. }
  split; [reflexivity|]. split; [reflexivity|]. split; [exact Hset|].
  split.
  - rewrite Hset, resume_all_false. f_equal.
    unfold onData, notify.
    cbn [container subscribers done rows_set names_field promise seq map].
    f_equal.
    + rewrite nth_error_app2 by lia. rewrite Hlen, Nat.sub_diag. reflexivity.
    + clear Hset Hdone. subst i.
      assert (H : forall k m, (List.length (container p) < k)%nat ->
                map (fun j => IterValue (nth_error (container p ++ [r]) j))
                  (seq k m) = repeat (IterValue None) m).
      { intros k m. revert k. induction m as [|m IH]; intros k Hk;
          [reflexivity|].
        cbn [seq map repeat]. rewrite IH by lia. f_equal. f_equal.
        apply nth_error_None. rewrite length_app. cbn [List.length]. lia. }
      apply H. lia.
  - unfold onData, notify. cbn [container]. rewrite length_app.
    cbn [List.length]. lia.
Qed.

End Dispatcher.

Arguments Done {RowDescription Row Value A} a d.
Arguments Raise {RowDescription Row Value A} e d.
Arguments Stuck {RowDescription Row Value A} d.

(** * Instances

    The properties above at concrete clients, with the collaborators
    instantiated: rows and row descriptions are the payload bytes
    themselves, no names, an empty password, and a socket that never asks
    to wait for a drain. *)

(** A parameter-description frame announcing no parameter, and a
    row-description frame with an empty payload. *)
Lemma parameter_description_without_statement :
  preparedStatements (disp (@init Buffer Buffer unit)) = [] /\
  nameHandlers (disp (@init Buffer Buffer unit)) = [] /\
  on_data (fun b => b) (fun _ => []) (fun b _ => b) [] 0 (fun _ => false)
    (@init Buffer Buffer unit) [116; 0; 0; 0; 6; 0; 0]
  = Next (mkClient (Some [116; 0; 0; 0; 6; 0; 0]) 7 0 (mkEvents [] [] [] [] [])
            (disp init)) /\
  ~ (exists e c',
       on_data (fun b => b) (fun _ => []) (fun b _ => b) [] 0 (fun _ => false)
         (@init Buffer Buffer unit) [116; 0; 0; 0; 6; 0; 0] = Thrown e c') /\
  ~ (exists e c',
       on_data (fun b => b) (fun _ => []) (fun b _ => b) [] 0 (fun _ => false)
         (@init Buffer Buffer unit) [84; 0; 0; 0; 4] = Thrown e c').
Proof.
  split; [reflexivity|]. split; [reflexivity|]. split; [reflexivity|].
  split; intros (e & c' & H); vm_compute in H; discriminate H.
Qed.

Lemma empty_registry_pops_witness :
  fast_path (fun b _ => b) 1 [68; 0; 0; 0; 4] 5 0 0 None
    (disp (@init Buffer Buffer unit))
  = Raise unexpected_data (disp init) /\
  dispatch (fun b => b) (fun _ => []) [] (fun _ => false)
    Message.ParameterDescription [116; 0; 0; 0; 6; 0; 0] 5 2
    (disp (@init Buffer Buffer unit))
  = Done tt (disp init).
Proof.
  pose proof (empty_registry_pops (fun b => b) (fun _ => []) (fun b _ => b)
                [] (fun _ => false) 0 [68; 0; 0; 0; 4] 5 0 0 0 0
                (disp (@init Buffer Buffer unit))) as (H1 & _ & _ & _).
  pose proof (empty_registry_pops (fun b => b) (fun _ => []) (fun b _ => b)
                [] (fun _ => false) 0 [116; 0; 0; 0; 6; 0; 0] 7 0 0 5 2
                (disp (@init Buffer Buffer unit))) as (_ & _ & H3 & _).
  split.
  - apply (H1 eq_refl Message.RowData eq_refl). left. reflexivity.
  - apply (H3 eq_refl 0 eq_refl).
Defined.

Lemma fast_path_header_test_witness :
  fast_path (fun b _ => b) 1 no_data_frame 5 0 0 None
    (disp (@one_query Buffer Buffer unit))
  = Done (FReturn 5)
      (set_expect 5
         (emit (Deliver 7%nat None) (set_dataHandlers [] (disp one_query)))).
Proof.
  apply (proj1 (fast_path_header_test (fun b _ => b) 0
                  (@one_query Buffer Buffer unit) no_data_frame no_data_frame 0
                  0 0 0 5 5 None None (disp one_query)
                  (emit (Deliver 7%nat None) (set_dataHandlers [] (disp one_query)))
                  (conj eq_refl eq_refl)
                  eq_refl ltac:(vm_compute; discriminate) eq_refl eq_refl)).
  reflexivity.
Defined.





Lemma completed_stream_never_suspends_witness :
  drain 3 (onData None (onData (Some 4%nat) (onData (Some 2%nat) makeResult))) 0
  = ([Some 2%nat; Some 4%nat], DrainDone).
Proof.
  apply (proj1 (completed_stream_never_suspends
                  (onData None (onData (Some 4%nat) (onData (Some 2%nat) makeResult)))
                  eq_refl) 3%nat).
  simpl. lia.
Defined.


(** Where a connect event falls among the other outputs depends on the
    chunks: an authentication-ok frame followed by a parameter status, in
    one chunk and in two. *)
Lemma connect_place_depends_on_chunks :
  out (disp (client_of
    (feed (fun b => b) (fun b => [b]) (fun b _ => b) [] 0 (fun _ => false)
       (@init Buffer Buffer unit)
       [[82; 0; 0; 0; 8; 0; 0; 0; 0; 83; 0; 0; 0; 8; 97; 0; 98; 0]])))
  = [Emit (EvParameter [97] [98]); Emit EvConnect] /\
  out (disp (client_of
    (feed (fun b => b) (fun b => [b]) (fun b _ => b) [] 0 (fun _ => false)
       (@init Buffer Buffer unit)
       [[82; 0; 0; 0; 8; 0; 0; 0; 0]; [83; 0; 0; 0; 8; 97; 0; 98; 0]])))
  = [Emit EvConnect; Emit (EvParameter [97] [98])].
Proof. split; reflexivity. Qed.

(** The header test compares [size] with a position in the buffer: called
    on a region that starts at offset 3, the fast path would return after
    the first of two "no data" frames, seven of twelve unread bytes
    remaining.  (The 'data' handler enters the loop at offset 0 only.) *)
Lemma header_test_counts_from_buffer_start :
  fast_path (fun b _ => b) 2
    [1; 2; 3; 110; 0; 0; 0; 4; 110; 0; 0; 0; 4; 9; 9] 12 3 0 None
    (disp (@one_query Buffer Buffer unit))
  = Done (FReturn 5)
      (set_expect 5
         (emit (Deliver 7%nat None) (set_dataHandlers [] (disp one_query)))).
Proof. reflexivity. Qed.

(** A consumer is shifted when the first row of a result set arrives.  A
    result set without rows shifts none: the row of the next result set,
    and its sentinel, go to the consumer registered first, with the first
    row description, and the second consumer stays pending. *)
Lemma rows_after_empty_result_set :
  let after :=
    disp (client_of
      (run (fun b => b) (fun b => [b]) (fun b d => b ++ d) [] 0 (fun _ => false)
         (@init Buffer Buffer unit)
         [Query 1%nat 1%nat; Query 2%nat 2%nat; Data (encode empty_then_rows)])) in
  filter (fun o => match o with Deliver _ _ => true | _ => false end) (out after)
  = [Deliver 1%nat (Some [0; 1; 120; 0; 1; 97; 0]); Deliver 1%nat None] /\
  dataHandlers after = [2%nat] /\
  rowDescriptions after = [[0; 1; 98; 0]].
Proof. repeat split. Qed.

(** ** Further instances *)

Lemma names_follow_registry_witness :
  exists c',
    run (fun b => b) (fun _ => []) (fun b _ => b) [] 0 (fun _ => false)
      (@init Buffer Buffer unit)
      [Query 1%nat 1%nat; Query 2%nat 2%nat; Data (encode scenario)]
    = Next c' /\
    names_called (out (disp c')) ++ nameHandlers (disp c') = [1%nat; 2%nat].
Proof.
  assert (H : exists c',
            run (fun b => b) (fun _ => []) (fun b _ => b) [] 0 (fun _ => false)
              (@init Buffer Buffer unit)
              [Query 1%nat 1%nat; Query 2%nat 2%nat; Data (encode scenario)]
            = Next c')
    by (vm_compute; eexists; reflexivity).
  destruct H as [c' H]. exists c'. split; [exact H|].
  apply (names_follow_registry (fun b => b) (fun _ => []) (fun b _ => b)
           [] 0 (fun _ => false)
           [Query 1%nat 1%nat; Query 2%nat 2%nat; Data (encode scenario)]
           (@init Buffer Buffer unit) c' H).
Defined.

Lemma consumers_served_in_turn_witness :
  exists c',
    run (fun b => b) (fun _ => []) (fun b _ => b) [] 0 (fun _ => false)
      (@init Buffer Buffer unit)
      [Query 1%nat 1%nat; Query 2%nat 2%nat; Data (encode scenario)]
    = Next c' /\
    served [1%nat; 2%nat] (disp c') /\
    silent_after_sentinel (consumer_calls (out (disp c'))).
Proof.
  assert (H : exists c',
            run (fun b => b) (fun _ => []) (fun b _ => b) [] 0 (fun _ => false)
              (@init Buffer Buffer unit)
              [Query 1%nat 1%nat; Query 2%nat 2%nat; Data (encode scenario)]
            = Next c')
    by (vm_compute; eexists; reflexivity).
  destruct H as [c' H]. exists c'. split; [exact H|].
  destruct (consumers_served_in_turn (fun b => b) (fun _ => []) (fun b _ => b)
              [] 0 (fun _ => false)
              [Query 1%nat 1%nat; Query 2%nat 2%nat; Data (encode scenario)]
              (@init Buffer Buffer unit) c' eq_refl H) as [H1 H2].
  split; [exact H1|]. apply H2.
  repeat constructor; simpl; intuition discriminate.
Defined.

Lemma send_waits_witness :
  let k := @mkConn Buffer Buffer unit
             (mkClient None 0 0 (mkEvents [] [] [] [] [])
                (mkDispatch 5 [] [] [] [] None true true false None None None
                   1 0 [Writer WSend]))
             false false true 0 [] in
  let evs := [CallExecute (mkQuery [83] [] [] None None) 1%nat 1%nat;
              StreamData [90; 0; 0; 0; 5; 73]; CallEnd] in
  let evs' := [CallConnect; StreamConnected;
               CallExecute (mkQuery [83] [] [] None None) 1%nat 1%nat;
               StreamDrained] in
  (exists k',
     play (fun b => b) (fun _ => []) (fun b _ => b) [] 0 (fun _ => false)
       [116; 115; 112; 95] [] [] 0 5432 [] 104 evs k = Continues k' /\
     send_calls (out (disp (client k'))) = 1%nat) /\
  (exists k',
     play (fun b => b) (fun _ => []) (fun b _ => b) [] 0 (fun _ => false)
       [116; 115; 112; 95] [] [] 0 5432 [] 104 evs' (@new_client Buffer Buffer unit)
     = Continues k' /\
     send_calls (out (disp (client k'))) = 0%nat).
Proof.
  intros k evs evs'. split.
  - eexists. split; [reflexivity|].
    eapply (proj1 (send_waits (fun b => b) (fun _ => []) (fun b _ => b) [] 0
                     (fun _ => false) [116; 115; 112; 95] [] [] 0 5432 [] 104
                     evs k _ 1%nat (or_introl eq_refl))
              (conj eq_refl eq_refl) eq_refl).
  - eexists. split; [reflexivity|].
    eapply (proj2 (send_waits (fun b => b) (fun _ => []) (fun b _ => b) [] 0
                     (fun _ => false) [116; 115; 112; 95] [] [] 0 5432 [] 104
                     evs' (@new_client Buffer Buffer unit) _ 0%nat
                     (or_introl eq_refl))
              (conj eq_refl eq_refl) eq_refl).
Defined.

Lemma generated_names_distinct_witness :
  let qs := [(mkQuery [83] [tt] [] None None, 1%nat, 1%nat);
             (mkQuery [83] [tt; tt] [] (Some []) None, 2%nat, 2%nat)] in
  map ps_name
    (preparedStatements
       (disp (client (execute_all (fun _ => false) [116; 115; 112; 95] qs
                        (@new_client Buffer Buffer unit)))))
  = [[116; 115; 112; 95; 48]; [116; 115; 112; 95; 49]] /\
  NoDup [[116; 115; 112; 95; 48]; [116; 115; 112; 95; 49]].
Proof.
  intros qs.
  destruct (generated_names_distinct (fun _ => false) [116; 115; 112; 95] qs
              (@new_client Buffer Buffer unit)
              ltac:(repeat constructor) ltac:(simpl; lia) ltac:(simpl; lia))
    as (H1 & H2 & _).
  split; [exact H1 | exact H2].
Defined.

Lemma rows_reach_the_result_witness :
  exists c',
    feed (fun b => b) (fun _ => []) (fun b _ => b) [] 0 (fun _ => false)
      (@one_query Buffer Buffer unit)
      [[84; 0; 0];
       [0; 8; 0; 1; 97; 0; 68; 0; 0; 0; 7; 0; 1; 120; 67; 0; 0; 0; 6; 83; 0]]
    = Next c' /\
    sync_output (out (disp c'))
    = [Names 8%nat []; Deliver 7%nat (Some [0; 1; 120]); Deliver 7%nat None] /\
    awaited (@replay Buffer unit 7%nat 8%nat
               [Names 8%nat []; Deliver 7%nat (Some [0; 1; 120]);
                Deliver 7%nat None] (@makeResult Buffer))
    = Some (mkResult [] [[0; 1; 120]]).
Proof.
  destruct (rows_reach_the_result (fun b => b) (fun _ => []) (fun b _ => b)
              [] 0 (fun _ => false) (@one_query Buffer Buffer unit)
              [0; 1; 97; 0] [83; 0] [0; 1; 120] []
              [[84; 0; 0];
               [0; 8; 0; 1; 97; 0; 68; 0; 0; 0; 7; 0; 1; 120; 67; 0; 0; 0; 6;
                83; 0]]
              7%nat [] 8%nat []
              eq_refl eq_refl eq_refl eq_refl eq_refl eq_refl
              ltac:(repeat constructor) eq_refl)
    as (c' & Hfeed & Hout & _ & Hres & _).
  exists c'. split; [exact Hfeed|]. split; [exact Hout | exact Hres].
Defined.

Lemma empty_result_set_completes_nothing_witness :
  exists c',
    feed (fun b => b) (fun _ => []) (fun b _ => b) [] 0 (fun _ => false)
      (@one_query Buffer Buffer unit)
      [[84; 0; 0; 0; 8; 0; 1; 97; 0; 67; 0]; [0; 0; 6; 83; 0]]
    = Next c' /\
    bookkeeping (disp c') = ([7%nat], [], [[0; 1; 97; 0]], [], None).
Proof.
  destruct (empty_result_set_completes_nothing (fun b => b) (fun _ => [])
              (fun b _ => b) [] 0 (fun _ => false)
              (@one_query Buffer Buffer unit) [0; 1; 97; 0] [83; 0]
              [[84; 0; 0; 0; 8; 0; 1; 97; 0; 67; 0]; [0; 0; 6; 83; 0]]
              7%nat [] 8%nat []
              eq_refl eq_refl eq_refl eq_refl eq_refl eq_refl
              eq_refl eq_refl eq_refl)
    as (c' & Hfeed & _ & Hb & _).
  exists c'. split; [exact Hfeed | exact Hb].
Defined.

Lemma rows_take_the_oldest_description_witness :
  let c := @mkClient Buffer Buffer unit None 0 0 (mkEvents [] [] [] [] [])
             (mkDispatch 5 [7%nat; 9%nat] [8%nat] [[0; 1; 97; 0]] [] None
                false false false None None None 0 0 []) in
  exists c',
    feed (fun b => b) (fun _ => []) (fun b d => b ++ d) [] 0 (fun _ => false) c
      [[84; 0; 0; 0; 8; 0; 1; 98; 0; 68; 0; 0; 0; 7; 0; 1; 120;
        67; 0; 0; 0; 6; 83; 0]]
    = Next c' /\
    sync_output (out (disp c'))
    = [Names 8%nat []; Deliver 7%nat (Some [0; 1; 120; 0; 1; 97; 0]);
       Deliver 7%nat None] /\
    bookkeeping (disp c') = ([9%nat], [], [[0; 1; 98; 0]], [], None).
Proof.
  intros c.
  destruct (rows_take_the_oldest_description (fun b => b) (fun _ => [])
              (fun b d => b ++ d) [] 0 (fun _ => false) c
              [0; 1; 98; 0] [83; 0] [0; 1; 120] []
              [[84; 0; 0; 0; 8; 0; 1; 98; 0; 68; 0; 0; 0; 7; 0; 1; 120;
                67; 0; 0; 0; 6; 83; 0]]
              7%nat [9%nat] 8%nat [] [0; 1; 97; 0] []
              eq_refl eq_refl eq_refl eq_refl eq_refl eq_refl
              ltac:(repeat constructor) eq_refl)
    as (c' & Hfeed & Hout & Hb).
  exists c'. split; [exact Hfeed|]. split; [exact Hout | exact Hb].
Defined.

Lemma startup_makes_ready_witness :
  exists c',
    feed (fun b => b) (fun _ => []) (fun b _ => b) [] 0 (fun _ => false)
      (@init Buffer Buffer unit)
      [[82; 0; 0; 0; 8; 0; 0; 0; 0; 83; 0; 0; 0; 8; 97; 0];
       [98; 0; 75; 0; 0; 0; 12; 0; 0; 0; 1; 0; 0; 0; 2; 90; 0; 0; 0; 5; 73]]
    = Next c' /\
    ready (disp c') = true /\ processId (disp c') = Some 1 /\
    secretKey (disp c') = Some 2 /\ transactionStatus (disp c') = Some 73 /\
    connects (out (disp c')) = 1%nat.
Proof.
  destruct (startup_makes_ready (fun b => b) (fun _ => []) (fun b _ => b)
              [] 0 (fun _ => false) (@init Buffer Buffer unit)
              [([97], [98])] 1 2 73
              [[82; 0; 0; 0; 8; 0; 0; 0; 0; 83; 0; 0; 0; 8; 97; 0];
               [98; 0; 75; 0; 0; 0; 12; 0; 0; 0; 1; 0; 0; 0; 2;
                90; 0; 0; 0; 5; 73]]
              eq_refl eq_refl eq_refl eq_refl
              ltac:(repeat constructor; discriminate)
              ltac:(lia) ltac:(lia) ltac:(lia) eq_refl)
    as (c' & Hfeed & _ & Hr & Hp & Hs & Ht & _ & Hc & _).
  exists c'. repeat split; assumption.
Defined.

Lemma other_frames_leave_the_queries_witness :
  exists c',
    feed_ends
      (feed (fun b => b) (fun _ => []) (fun b _ => b) [] 0 (fun _ => false)
         (@one_query Buffer Buffer unit)
         [[49; 0; 0; 0; 4; 90; 0]; [0; 0; 5; 73]]) c' /\
    bookkeeping (disp c') = ([7%nat], [8%nat], [], [], None).
Proof.
  destruct (other_frames_leave_the_queries (fun b => b) (fun _ => [])
              (fun b _ => b) [] 0 (fun _ => false)
              (@one_query Buffer Buffer unit)
              [mkFrame 49 []; mkFrame 90 [73]]
              [[49; 0; 0; 0; 4; 90; 0]; [0; 0; 5; 73]]
              eq_refl eq_refl ltac:(repeat constructor)
              ltac:(repeat constructor) eq_refl)
    as (c' & Hfeed & Hb & _).
  exists c'. split; [exact Hfeed | exact Hb].
Defined.

Lemma authentication_requests_witness :
  exists c',
    feed (fun b => b) (fun _ => []) (fun b _ => b) [] 0 (fun _ => false)
      (@init Buffer Buffer unit)
      [[82; 0; 0; 0; 12; 0; 0; 0; 5; 1; 2; 3; 4]]
    = Next c' /\
    alike (disp c') (disp init).
Proof.
  destruct (authentication_requests (fun b => b) (fun _ => []) (fun b _ => b)
              [] 0 (fun _ => false) (@init Buffer Buffer unit)
              5 [1; 2; 3; 4]
              [[82; 0; 0; 0; 12; 0; 0; 0; 5; 1; 2; 3; 4]]
              eq_refl eq_refl ltac:(lia) eq_refl eq_refl)
    as (c' & Hfeed & _ & Hother).
  exists c'. split; [exact Hfeed|]. apply Hother. discriminate.
Defined.

Lemma parametrised_query_is_bound_witness :
  let k1 := execute (fun _ => false) [116; 115; 112; 95]
              (mkQuery [83] [tt] [] None None) 1%nat 1%nat
              (@new_client Buffer Buffer unit) in
  exists c',
    feed (fun b => b) (fun _ => []) (fun b _ => b) [] 0 (fun _ => false)
      (client k1)
      [[49; 0; 0; 0; 4; 116; 0; 0]; [0; 10; 0; 1; 0; 0; 0; 23]]
    = Next c' /\
    sync_output (out (disp c'))
    = [Writer (WBind [116; 115; 112; 95; 48] [] [tt] [23]);
       Writer (WExecute []); Writer (WClose [116; 115; 112; 95; 48] "S");
       Writer WSync].
Proof.
  intros k1.
  destruct (parametrised_query_is_bound (fun b => b) (fun _ => [])
              (fun b _ => b) [] 0 (fun _ => false) [116; 115; 112; 95]
              (@new_client Buffer Buffer unit)
              (mkQuery [83] [tt] [] None None) 1%nat 1%nat [23]
              [[49; 0; 0; 0; 4; 116; 0; 0]; [0; 10; 0; 1; 0; 0; 0; 23]]
              eq_refl eq_refl eq_refl ltac:(discriminate)
              ltac:(repeat constructor; lia) eq_refl eq_refl)
    as (_ & c' & Hfeed & _ & Hout).
  exists c'. split; [exact Hfeed | exact Hout].
Defined.

Lemma parseError_reads_what_is_written_witness :
  parseError (error_fields [(86, [69]); (104, [1; 2]); (67, [52]); (77, [120])])
  = Ok (mkError [69] [52] [120]).
Proof.
  apply (parseError_reads_what_is_written
           [(86, [69]); (104, [1; 2]); (67, [52]); (77, [120])]).
  repeat constructor; discriminate.
Defined.

Lemma unread_bytes_end_the_buffer_witness :
  exists c',
    feed (fun b => b) (fun _ => []) (fun b _ => b) [] 0 (fun _ => false)
      (@init Buffer Buffer unit) [[90; 0; 0]] = Next c' /\
    coherent c' /\
    reassemble 0 c' [0; 5; 73] = Some ([90; 0; 0; 0; 5; 73], 0).
Proof.
  assert (H : exists c',
            feed (fun b => b) (fun _ => []) (fun b _ => b) [] 0 (fun _ => false)
              (@init Buffer Buffer unit) [[90; 0; 0]] = Next c' /\
            buffer c' = Some [90; 0; 0] /\ offset c' = 0 /\ remaining c' = 3)
    by (vm_compute; eexists; repeat split).
  destruct H as (c' & Hfeed & Hbuf & Hoff & Hrem).
  destruct (unread_bytes_end_the_buffer (fun b => b) (fun _ => [])
              (fun b _ => b) [] 0 (fun _ => false) (@init Buffer Buffer unit)
              c' [[90; 0; 0]] (init_coherent) Hfeed) as [Hc Hall].
  exists c'. split; [exact Hfeed|]. split; [exact Hc|].
  destruct (Hall [90; 0; 0] [0; 5; 73] Hbuf) as [_ Hre].
  assert (Hun : unread c' = [90; 0; 0]).
  { unfold unread. rewrite Hbuf, Hoff, Hrem. reflexivity. }
  rewrite Hre.
  - rewrite Hun. reflexivity.
  - unfold wf_region. rewrite Hbuf, Hoff, Hrem. vm_compute.
    repeat split; discriminate.
  - rewrite Hrem. reflexivity.
  - discriminate.
Defined.

Lemma length_minus_one_never_returns_witness :
  (exists d',
     receive_loop (fun b => b) (fun _ => []) (fun b _ => b) [] (fun _ => false)
       9 [50; 255; 255; 255; 255] 0 5 0 (disp (@init Buffer Buffer unit))
     = Stuck d') /\
  (exists c',
     on_data (fun b => b) (fun _ => []) (fun b _ => b) [] 0 (fun _ => false)
       (@init Buffer Buffer unit) [50; 255; 255; 255; 255] = NoFuel c').
Proof.
  apply (length_minus_one_never_returns (fun b => b) (fun _ => [])
           (fun b _ => b) [] 0 (fun _ => false) (@init Buffer Buffer unit)
           50 [] 9 (or_introl eq_refl) eq_refl eq_refl).
Defined.

Lemma awaited_result_witness :
  awaited (@replay Buffer unit 1%nat 2%nat
             [Names 2%nat [[97]]; Deliver 1%nat (Some [120]); Deliver 1%nat None;
              Names 2%nat [[98]]] makeResult)
  = Some (mkResult [[97]] [[120]]).
Proof.
  apply (proj2 (@awaited_result Buffer unit 1%nat 2%nat
                  [Names 2%nat [[97]]; Deliver 1%nat (Some [120])]
                  [Names 2%nat [[98]]] eq_refl)).
Defined.

Lemma whole_frames_only_witness :
  exists c' fs1 fs2,
    feed (fun b => b) (fun _ => []) (fun b _ => b) [] 0 (fun _ => false)
      (@init Buffer Buffer unit) [[49; 0; 0; 0; 4; 90; 0]] = Next c' /\
    [mkFrame 49 []; mkFrame 90 [73]] = fs1 ++ fs2 /\
    [49; 0; 0; 0; 4; 90; 0] = encode fs1 ++ unread c'.
Proof.
  assert (H : exists c',
            feed (fun b => b) (fun _ => []) (fun b _ => b) [] 0 (fun _ => false)
              (@init Buffer Buffer unit) [[49; 0; 0; 0; 4; 90; 0]] = Next c')
    by (vm_compute; eexists; reflexivity).
  destruct H as (c' & Hfeed).
  destruct (whole_frames_only (fun b => b) (fun _ => []) (fun b _ => b)
              [] 0 (fun _ => false) (@init Buffer Buffer unit) c'
              [mkFrame 49 []; mkFrame 90 [73]]
              [[49; 0; 0; 0; 4; 90; 0]] [0; 0; 5; 73]
              eq_refl eq_refl ltac:(repeat constructor) eq_refl Hfeed)
    as (fs1 & fs2 & H1 & H2 & _).
  exists c', fs1, fs2. split; [exact Hfeed|]. split; [exact H1 | exact H2].
Defined.

Lemma connection_flags_witness :
  exists k',
    play (fun b => b) (fun _ => []) (fun b _ => b) [] 0 (fun _ => false)
      [116; 115; 112; 95] [] [] 0 5432 [] 104
      [CallConnect; StreamConnected; CallEnd; StreamFinished]
      (@new_client Buffer Buffer unit) = Continues k' /\
    handle (fun b => b) (fun _ => []) (fun b _ => b) [] 0 (fun _ => false)
      [116; 115; 112; 95] [] [] 0 5432 [] 104 CallEnd k'
    = Fails already_closed k' /\
    on_stream_error 104 (ErrnoNumber 104) k' = k'.
Proof.
  eexists. split; [reflexivity|].
  destruct (connection_flags (fun b => b) (fun _ => []) (fun b _ => b) [] 0
              (fun _ => false) [116; 115; 112; 95] [] [] 0 5432 [] 104
              [CallConnect; StreamConnected; CallEnd; StreamFinished]
              (@new_client Buffer Buffer unit) _ eq_refl)
    as (H1 & _ & H3 & _).
  split; [apply H1; reflexivity | apply H3; reflexivity].
Defined.

Lemma error_response_is_emitted_witness :
  exists c',
    feed (fun b => b) (fun _ => []) (fun b _ => b) [] 0 (fun _ => false)
      (@init Buffer Buffer unit)
      [[69; 0; 0; 0; 14; 86; 69; 0; 67]; [52; 0; 77; 120; 0; 0]]
    = Next c' /\
    alike (disp c')
      (emit (Emit (EvError (mkError [69] [52] [120]))) (disp init)).
Proof.
  apply (error_response_is_emitted (fun b => b) (fun _ => []) (fun b _ => b)
           [] 0 (fun _ => false) (@init Buffer Buffer unit) 69
           [(86, [69]); (67, [52]); (77, [120])]
           [[69; 0; 0; 0; 14; 86; 69; 0; 67]; [52; 0; 77; 120; 0; 0]]
           eq_refl eq_refl (or_introl eq_refl)
           ltac:(repeat constructor; discriminate) eq_refl eq_refl).
Defined.

Lemma negative_parameter_count_drops_the_statement_witness :
  exists c',
    on_data (fun b => b) (fun _ => []) (fun b _ => b) [] 0 (fun _ => false)
      (@mkClient Buffer Buffer unit None 0 0 (mkEvents [] [] [] [] [])
         (mkDispatch 5 [] [] [] [mkPS [115] [] [tt]] None true
            false false None None None O O []))
      [116; 0; 0; 0; 6; 128; 0; 90]
    = Thrown range_error c' /\
    preparedStatements (disp c') = [] /\
    out (disp c') = [] /\
    unread c' = [].
Proof.
  apply (negative_parameter_count_drops_the_statement (fun b => b)
           (fun _ => []) (fun b _ => b) [] 0 (fun _ => false)
           (@mkClient Buffer Buffer unit None 0 0 (mkEvents [] [] [] [] [])
              (mkDispatch 5 [] [] [] [mkPS [115] [] [tt]] None
                 true false false None None None O O []))
           (mkPS [115] [] [tt]) [] 128 0 [] [90]
           eq_refl eq_refl eq_refl ltac:(lia) ltac:(lia)
           ltac:(vm_compute; reflexivity)).
Defined.

Lemma unawaited_pulls_yield_undefined_witness :
  resume_all [false; false]
    (onData (Some [120])
       (@mkIter Buffer [] [None; None] false false None None)) 0
  = ([IterValue (Some [120]); IterValue None], 2%nat).
Proof.
  exact (proj1 (proj2 (proj2 (proj2
           (@unawaited_pulls_yield_undefined Buffer makeResult 0 1 [120]
              eq_refl eq_refl))))).
Defined.
